(** * The INDI driver runtime (libs/indibase/indidriver.c)

    A shallow embedding of the driver-side dispatcher, the read-only sanity
    cache, the BLOB ping pacing and the batch applicators [IUUpdate*],
    followed by the properties stated about them.

    Conventions.
    - C strings are [string]; [strcmp a b == 0] is [a = b].
    - [double] is the kernel's binary64 [float]; the comparisons are
      [PrimFloat.ltb], so a NaN compares false as in C.
    - [int] and [long] are [Z], with the wrap-around written out where the
      source does arithmetic on them.
    - An array together with its length ([sp]/[nsp], [names]/[n]) is a list;
      a pointer to an array element is its index.
    - Everything the runtime writes or calls is recorded, in order, as a list
      of [event]s. A call of a driver entry point is one event; what the
      driver writes while it runs is its own, but what it does to the cache
      of this file is carried on. *)

From Stdlib Require Import ZArith String Ascii List Floats DecimalString.
From stdpp Require Import base list strings.

Local Open Scope string_scope.
Local Open Scope Z_scope.
Local Open Scope list_scope.

(** ** Enumerations and vectors of indiapi.h *)

(** Modelled from the spec: indiapi.h is not part of the sources at hand; the
    switch state is [On | Off]. *)
Inductive ISState := ISS_OFF | ISS_ON.

(** Modelled from the spec: the property state is [Idle | Ok | Busy | Alert]. *)
Inductive IPState := IPS_IDLE | IPS_OK | IPS_BUSY | IPS_ALERT.

(** Modelled from the spec: the switch rule is
    [OneOfMany | AtMostOne | AnyOfMany]. *)
Inductive ISRule := ISR_1OFMANY | ISR_ATMOST1 | ISR_NOFMANY.

(** Modelled from the spec: the permission is
    [ReadOnly | WriteOnly | ReadWrite]. *)
Inductive IPerm := IP_RO | IP_WO | IP_RW.

#[global] Instance ISState_eq_dec : EqDecision ISState.
Proof. solve_decision. Defined.
#[global] Instance IPState_eq_dec : EqDecision IPState.
Proof. solve_decision. Defined.
#[global] Instance ISRule_eq_dec : EqDecision ISRule.
Proof. solve_decision. Defined.
#[global] Instance IPerm_eq_dec : EqDecision IPerm.
Proof. solve_decision. Defined.

(** Modelled from the spec: the member and vector structs of indiapi.h, with
    the fields the spec lists and the names the source uses for them
    ([svp->sp[i].s], [svp->r], [svp->s], [np->min], ...). *)
Record ISwitch := mkISwitch {
  sw_name : string;
  sw_label : string;
  sw_s : ISState
}.

Record ISwitchVectorProperty := mkSVP {
  svp_device : string;
  svp_name : string;
  svp_label : string;
  svp_p : IPerm;
  svp_r : ISRule;
  svp_s : IPState;
  svp_sp : list ISwitch
}.

Record INumber := mkINumber {
  n_name : string;
  n_label : string;
  n_format : string;
  n_min : float;
  n_max : float;
  n_step : float;
  n_value : float
}.

Record INumberVectorProperty := mkNVP {
  nvp_device : string;
  nvp_name : string;
  nvp_label : string;
  nvp_p : IPerm;
  nvp_s : IPState;
  nvp_np : list INumber
}.

Record IText := mkIText {
  t_name : string;
  t_label : string;
  t_text : string
}.

Record ITextVectorProperty := mkTVP {
  tvp_device : string;
  tvp_name : string;
  tvp_label : string;
  tvp_p : IPerm;
  tvp_s : IPState;
  tvp_tp : list IText
}.

Record IBLOB := mkIBLOB {
  b_name : string;
  b_label : string;
  b_format : string;
  b_blob : string;
  b_bloblen : Z;
  b_size : Z
}.

Record IBLOBVectorProperty := mkBVP {
  bvp_device : string;
  bvp_name : string;
  bvp_label : string;
  bvp_p : IPerm;
  bvp_s : IPState;
  bvp_bp : list IBLOB
}.

(** ** Parsed XML elements (lilxml) *)

(** Modelled from the spec: the XML tokeniser is an external collaborator; an
    element is its tag, its attributes in document order, its character data
    and its child elements. *)
#[warnings="-register-all"]
Inductive XMLEle := mkXMLEle {
  tagXMLEle : string;
  attXMLEle : list (string * string);
  pcdataXMLEle : string;
  childXMLEle : list XMLEle
}.

(** [findXMLAtt ep name]: the value of the first attribute called [name]. *)
Definition findXMLAtt (ep : XMLEle) (name : string) : option string :=
  snd <$> (snd <$> list_find (λ a, a.1 = name) (attXMLEle ep)).

Definition pcdatalenXMLEle (ep : XMLEle) : Z :=
  Z.of_nat (String.length (pcdataXMLEle ep)).

(** ** What the runtime writes and calls *)

Inductive event :=
  (* diagnostics *)
  | EvStderr (text : string)
  | EvPrXMLEle (root : XMLEle)
  (* protocol elements written through driverio *)
  | EvDefNumber (nvp : INumberVectorProperty)
  | EvDefSwitch (svp : ISwitchVectorProperty)
  | EvDefText (tvp : ITextVectorProperty)
  | EvDefBLOB (bvp : IBLOBVectorProperty)
  | EvSetNumber (nvp : INumberVectorProperty) (message : option string)
  | EvSetSwitch (svp : ISwitchVectorProperty) (message : option string)
  | EvSetText (tvp : ITextVectorProperty) (message : option string)
  | EvSetBLOB (bvp : IBLOBVectorProperty) (message : option string)
  | EvPingRequest (uid : string)
  | EvMessage (dev : string) (message : string)
  (* the externally supplied wait primitive *)
  | EvWaitPingReply (uid : string)
  (* transient buffers of the dispatcher *)
  | EvMalloc (size : Z)
  | EvFree (data : string)
  (* driver entry points *)
  | EvISGetProperties (dev : option string)
  | EvISSnoopDevice (root : XMLEle)
  | EvISNewNumber (dev name : string) (doubles : list float) (names : list string)
  | EvISNewSwitch (dev name : string) (states : list ISState) (names : list string)
  | EvISNewText (dev name : string) (texts : list string) (names : list string)
  | EvISNewBLOB (dev name : string) (sizes blobsizes : list Z)
      (blobs formats names : list string).

(** The driver callbacks among the events. *)
Definition is_callback (e : event) : bool :=
  match e with
  | EvISGetProperties _ | EvISSnoopDevice _ | EvISNewNumber _ _ _ _
  | EvISNewSwitch _ _ _ _ | EvISNewText _ _ _ _ | EvISNewBLOB _ _ _ _ _ _ _ => true
  | _ => false
  end.

(** [sub] occurs somewhere inside [s]. *)
Definition contains (s sub : string) : Prop :=
  ∃ pre post, s = pre +:+ sub +:+ post.

(** ** Switch vectors: IUUpdateSwitch *)

Module Switch.

(** Modelled from the spec: [IUFindSwitch] lives in indicom/indidevapi, not in
    the sources at hand; a name "must resolve to a member", the first one
    carrying it. *)
Definition IUFindSwitch (svp : ISwitchVectorProperty) (name : string) : option nat :=
  fst <$> list_find (λ sp, sw_name sp = name) (svp_sp svp).

(** Modelled from the spec: [IUFindOnSwitch] is the "snapshot [of] the current
    [On] element", the first one that is on. *)
Definition IUFindOnSwitch (svp : ISwitchVectorProperty) : option nat :=
  fst <$> list_find (λ sp, sw_s sp = ISS_ON) (svp_sp svp).

Definition set_s (st : ISState) (sp : ISwitch) : ISwitch :=
  {| sw_name := sw_name sp; sw_label := sw_label sp; sw_s := st |}.

Definition with_sp (svp : ISwitchVectorProperty) (sp : list ISwitch) :=
  {| svp_device := svp_device svp; svp_name := svp_name svp;
     svp_label := svp_label svp; svp_p := svp_p svp; svp_r := svp_r svp;
     svp_s := svp_s svp; svp_sp := sp |}.

Definition with_s (svp : ISwitchVectorProperty) (s : IPState) :=
  {| svp_device := svp_device svp; svp_name := svp_name svp;
     svp_label := svp_label svp; svp_p := svp_p svp; svp_r := svp_r svp;
     svp_s := s; svp_sp := svp_sp svp |}.

(** Modelled from the spec: [IUResetSwitch] is "reset all": every member Off. *)
Definition IUResetSwitch (svp : ISwitchVectorProperty) : ISwitchVectorProperty :=
  with_sp svp (set_s ISS_OFF <$> svp_sp svp).

(** [svp->sp[i].s = st] *)
Definition store_s (svp : ISwitchVectorProperty) (i : nat) (st : ISState) :=
  with_sp svp (alter (set_s st) i (svp_sp svp)).

(** The loop [for (i = 0; i < n; i++)] over [names[i]], [states[i]]: it stores
    each state as soon as its name is found, and stops at the first name that
    is not a member. *)
Fixpoint apply_loop (svp : ISwitchVectorProperty) (batch : list (string * ISState))
  : ISwitchVectorProperty + ISwitchVectorProperty * string :=
  match batch with
  | [] => inl svp
  | (name, st) :: rest =>
      match IUFindSwitch svp name with
      | None => inr (svp, name)
      | Some i => apply_loop (store_s svp i st) rest
      end
  end.

(** [t_count]: how many members are on. *)
Definition t_count (svp : ISwitchVectorProperty) : nat :=
  length (filter (λ sp, sw_s sp = ISS_ON) (svp_sp svp)).

Definition not_member_msg (name label pname : string) : string :=
  "Error: " +:+ name +:+ " is not a member of " +:+ label +:+ " (" +:+ pname
  +:+ ") property.".

Definition invalid_state_msg (label pname : string) (count : nat) : string :=
  "Error: invalid state switch for property " +:+ label +:+ " (" +:+ pname
  +:+ "). " +:+ (if decide (count = 0%nat) then "No switch is on"
                 else "Too many switches are on") +:+ ".".

Definition IUUpdateSwitch (svp : ISwitchVectorProperty) (batch : list (string * ISState))
  : Z * ISwitchVectorProperty * list event :=
  (* store On switch pointer *)
  let so := if decide (svp_r svp = ISR_1OFMANY) then IUFindOnSwitch svp else None in
  let svp0 := if decide (svp_r svp = ISR_1OFMANY) then IUResetSwitch svp else svp in
  match apply_loop svp0 batch with
  | inr (svp1, name) =>
      let svp2 := with_s svp1 IPS_IDLE in
      (-1, svp2,
       [EvSetSwitch svp2 (Some (not_member_msg name (svp_label svp2) (svp_name svp2)))])
  | inl svp1 =>
      (* Consistency checks for ISR_1OFMANY after update. *)
      if decide (svp_r svp1 = ISR_1OFMANY) then
        if decide (t_count svp1 ≠ 1%nat) then
          let svp2 := IUResetSwitch svp1 in
          (* restore previous state *)
          let svp3 := match so with
                      | Some i => store_s svp2 i ISS_ON
                      | None => svp2
                      end in
          let svp4 := with_s svp3 IPS_IDLE in
          (-1, svp4,
           [EvSetSwitch svp4
              (Some (invalid_state_msg (svp_label svp4) (svp_name svp4) (t_count svp1)))])
        else (0, svp1, [])
      else (0, svp1, [])
  end.

End Switch.

(** ** The read-only sanity cache (ROSC) *)

(** The anonymous [enum] of property types. *)
Inductive INDI_TYPE :=
  INDI_NUMBER | INDI_SWITCH | INDI_TEXT | INDI_LIGHT | INDI_BLOB | INDI_UNKNOWN.

(** [ptr] is the address of the driver's vector. The two names are arrays of
    [MAXINDINAME] and [MAXINDIDEVICE] bytes in the source, filled by [strcpy]
    from vector fields that are arrays of the same sizes. *)
Record ROSC := mkROSC {
  propName : string;
  devName : string;
  perm : IPerm;
  ptr : nat;
  type : INDI_TYPE
}.

(** [rosc_new] followed by the assignments of [rosc_add]: one more entry at
    the end of [propCache]. *)
Definition rosc_add (name dev : string) (p : IPerm) (ptr : nat) (ty : INDI_TYPE)
    (propCache : list ROSC) : list ROSC :=
  propCache ++ [mkROSC name dev p ptr ty].

(** The first entry with that name and device, and its index. *)
Definition rosc_find (name dev : string) (propCache : list ROSC) : option (nat * ROSC) :=
  list_find (λ sc, name = propName sc ∧ dev = devName sc) propCache.

Definition rosc_add_unique (name dev : string) (p : IPerm) (ptr : nat) (ty : INDI_TYPE)
    (propCache : list ROSC) : list ROSC :=
  match rosc_find name dev propCache with
  | None => rosc_add name dev p ptr ty propCache
  | Some _ => propCache
  end.

(** The driver's vectors, by address. *)
Inductive property :=
  | PNumber (nvp : INumberVectorProperty)
  | PSwitch (svp : ISwitchVectorProperty)
  | PText (tvp : ITextVectorProperty)
  | PBLOB (bvp : IBLOBVectorProperty).

Definition memory := nat → option property.

(** [IDDef<Kind>VA] with no message: the element written and the cache
    afterwards. [ptr] is the address of the vector passed. *)
Definition IDDefNumber (ptr : nat) (nvp : INumberVectorProperty) (propCache : list ROSC)
  : list event * list ROSC :=
  ([EvDefNumber nvp],
   rosc_add_unique (nvp_name nvp) (nvp_device nvp) (nvp_p nvp) ptr INDI_NUMBER propCache).

Definition IDDefSwitch (ptr : nat) (svp : ISwitchVectorProperty) (propCache : list ROSC)
  : list event * list ROSC :=
  ([EvDefSwitch svp],
   rosc_add_unique (svp_name svp) (svp_device svp) (svp_p svp) ptr INDI_SWITCH propCache).

Definition IDDefText (ptr : nat) (tvp : ITextVectorProperty) (propCache : list ROSC)
  : list event * list ROSC :=
  ([EvDefText tvp],
   rosc_add_unique (tvp_name tvp) (tvp_device tvp) (tvp_p tvp) ptr INDI_TEXT propCache).

Definition IDDefBLOB (ptr : nat) (bvp : IBLOBVectorProperty) (propCache : list ROSC)
  : list event * list ROSC :=
  ([EvDefBLOB bvp],
   rosc_add_unique (bvp_name bvp) (bvp_device bvp) (bvp_p bvp) ptr INDI_BLOB propCache).

(** What a driver entry point can do to the cache. [propCache] is private to
    this file, so the driver changes it only by defining vectors, and every
    [IDDef<Kind>VA] ends in [rosc_add_unique]: [defs] are the entries so
    offered while the entry point runs, in order. *)
Definition rosc_add_all (defs : list ROSC) (propCache : list ROSC) : list ROSC :=
  foldl (λ cache sc,
           rosc_add_unique (propName sc) (devName sc) (perm sc) (ptr sc) (type sc) cache)
    propCache defs.

(** ** Functions supplied from outside the runtime *)

(** libc's [atof] and [%g], indicom's sexagesimal scanner ([None] when it
    returns a negative code), the base64 decoder (the bytes it wrote and the
    count it returned), the text [crackDN] leaves in [msg] when the attribute
    [att] is missing from an element [tag], and the protocol version [INDIV]
    of indiapi.h.

    [malloc n] tells whether libc's [malloc] gives a buffer of [n] bytes
    rather than a null pointer. [assert_mem] is a macro that is not in the
    sources at hand: on a null pointer it ends the process, and the field
    holds the line it prints on stderr inside [dispatch] and the status it
    exits with.

    [driver e propCache] stands for the driver: the entries it offers to the
    cache, by defining vectors, while its entry point [e] runs on the cache
    [propCache]. *)
Class Extern := {
  atof : string → float;
  fmt_g : float → string;
  f_scansexa : string → option float;
  from64tobits_fast : string → Z → string * Z;
  crackDN_reason : string → string → string;
  INDIV : float;
  malloc : Z → bool;
  assert_mem : string * Z;
  driver : event → list ROSC → list ROSC
}.

(** [%ld] and [%d]: a signed decimal numeral. *)
Definition fmt_ld (z : Z) : string := NilZero.string_of_int (Z.to_int z).

(** ** BLOB pacing: IDSetBLOB *)

Module Ping.

(** [long] is 64 bits wide here; the increment wraps. *)
Definition wrap_long (z : Z) : Z := (z + 2 ^ 63) `mod` 2 ^ 64 - 2 ^ 63.

Definition BLOB_PING_PATTERN (uid : Z) : string := "SetBLOB/" +:+ fmt_ld uid.

(** [IDSetBLOBVA], threading the file-static [lastBlobPingUid]. *)
Definition IDSetBLOBVA (lastBlobPingUid : Z) (bvp : IBLOBVectorProperty)
    (message : option string) : Z * list event :=
  (* Wait for ack of previous blob if any *)
  let wait := if decide (lastBlobPingUid ≠ 0)
              then [EvWaitPingReply (BLOB_PING_PATTERN lastBlobPingUid)]
              else [] in
  let uid := wrap_long (lastBlobPingUid + 1) in
  (uid, wait ++ [EvSetBLOB bvp message; EvPingRequest (BLOB_PING_PATTERN uid)]).

Definition IDSetBLOB := IDSetBLOBVA.

(** A sequence of [IDSetBLOB] calls, one after the other. *)
Fixpoint run (lastBlobPingUid : Z) (calls : list (IBLOBVectorProperty * option string))
  : Z * list event :=
  match calls with
  | [] => (lastBlobPingUid, [])
  | (bvp, message) :: rest =>
      let '(uid, out) := IDSetBLOB lastBlobPingUid bvp message in
      let '(uid', out') := run uid rest in
      (uid', out ++ out')
  end.

(** Modelled from the spec: [waitPingReply] is declared [extern]; it "suspends
    the emitting thread until the dispatcher observes a matching
    [<pingReply>]", and "peer acknowledgement of a ping clears the pending
    id". A ping id is pending from its [pingRequest] until the wait on it
    has returned. *)
Definition pending_step (acc : list string) (e : event) : list string :=
  match e with
  | EvPingRequest uid => acc ++ [uid]
  | EvWaitPingReply uid => filter (λ p, p ≠ uid) acc
  | _ => acc
  end.

Definition pending (out : list event) : list string :=
  fold_left pending_step out [].

(** The ids pending when a call starts with the counter at [uid]. *)
Definition start (uid : Z) : list string :=
  if decide (uid ≠ 0) then [BLOB_PING_PATTERN uid] else [].

(** What the spec says call number [k] (counting from 0) writes. *)
Definition call_events (k : nat) (call : IBLOBVectorProperty * option string)
  : list event :=
  match k with
  | O => [EvSetBLOB call.1 call.2; EvPingRequest "SetBLOB/1"]
  | S _ =>
      [EvWaitPingReply ("SetBLOB/" +:+ fmt_ld (Z.of_nat k));
       EvSetBLOB call.1 call.2;
       EvPingRequest ("SetBLOB/" +:+ fmt_ld (Z.of_nat k + 1))]
  end.

(** What the spec says a sequence of calls writes, the first of them being
    call number [k]. *)
Fixpoint sequence_events (k : nat) (calls : list (IBLOBVectorProperty * option string))
  : list event :=
  match calls with
  | [] => []
  | call :: rest => call_events k call ++ sequence_events (S k) rest
  end.

End Ping.

(** ** Number vectors: IUUpdateNumber *)

Module Number.
Section WithExtern.
Context `{Extern}.

(** Modelled from the spec: [IUFindNumber] is not in the sources at hand; a
    name "must resolve to a member", the first one carrying it. *)
Definition IUFindNumber (nvp : INumberVectorProperty) (name : string)
  : option (nat * INumber) :=
  list_find (λ np, n_name np = name) (nvp_np nvp).

Definition set_value (v : float) (np : INumber) : INumber :=
  {| n_name := n_name np; n_label := n_label np; n_format := n_format np;
     n_min := n_min np; n_max := n_max np; n_step := n_step np; n_value := v |}.

Definition with_np (nvp : INumberVectorProperty) (np : list INumber) :=
  {| nvp_device := nvp_device nvp; nvp_name := nvp_name nvp;
     nvp_label := nvp_label nvp; nvp_p := nvp_p nvp; nvp_s := nvp_s nvp;
     nvp_np := np |}.

Definition with_s (nvp : INumberVectorProperty) (s : IPState) :=
  {| nvp_device := nvp_device nvp; nvp_name := nvp_name nvp;
     nvp_label := nvp_label nvp; nvp_p := nvp_p nvp; nvp_s := s;
     nvp_np := nvp_np nvp |}.

(** [values[i] < np->min || values[i] > np->max] *)
Definition out_of_range (v : float) (np : INumber) : bool :=
  PrimFloat.ltb v (n_min np) || PrimFloat.ltb (n_max np) v.

Definition not_member_msg (name label pname : string) : string :=
  "Error: " +:+ name +:+ " is not a member of " +:+ label +:+ " (" +:+ pname
  +:+ ") property.".

Definition invalid_range_msg (np : INumber) (v : float) : string :=
  "Error: Invalid range for " +:+ n_label np +:+ " (" +:+ n_name np
  +:+ "). Valid range is from " +:+ fmt_g (n_min np) +:+ " to "
  +:+ fmt_g (n_max np) +:+ ". Requested value is " +:+ fmt_g v.

(** First loop: the state and message of the first entry that fails. *)
Fixpoint check_loop (nvp : INumberVectorProperty) (batch : list (string * float))
  : option (IPState * string) :=
  match batch with
  | [] => None
  | (name, v) :: rest =>
      match IUFindNumber nvp name with
      | None => Some (IPS_IDLE, not_member_msg name (nvp_label nvp) (nvp_name nvp))
      | Some (_, np) =>
          if out_of_range v np then Some (IPS_ALERT, invalid_range_msg np v)
          else check_loop nvp rest
      end
  end.

(** Second loop: [np->value = values[i]]. The source dereferences the result
    of [IUFindNumber] unchecked; the first loop has made sure it is there. *)
Fixpoint store_loop (nvp : INumberVectorProperty) (batch : list (string * float))
  : INumberVectorProperty :=
  match batch with
  | [] => nvp
  | (name, v) :: rest =>
      match IUFindNumber nvp name with
      | None => nvp
      | Some (i, _) => store_loop (with_np nvp (alter (set_value v) i (nvp_np nvp))) rest
      end
  end.

Definition IUUpdateNumber (nvp : INumberVectorProperty) (batch : list (string * float))
  : Z * INumberVectorProperty * list event :=
  match check_loop nvp batch with
  | Some (s, message) =>
      let nvp1 := with_s nvp s in
      (-1, nvp1, [EvSetNumber nvp1 (Some message)])
  | None =>
      (* First loop checks for error, second loop set all values atomically *)
      (0, store_loop nvp batch, [])
  end.

End WithExtern.
End Number.

(** ** Text vectors: IUUpdateText *)

Module Text.

(** Modelled from the spec: [IUFindText] is not in the sources at hand; a name
    "must resolve to a member", the first one carrying it. *)
Definition IUFindText (tvp : ITextVectorProperty) (name : string)
  : option (nat * IText) :=
  list_find (λ tp, t_name tp = name) (tvp_tp tvp).

(** Modelled from the spec: [IUSaveText] "owns per-element storage (free old,
    duplicate new)". *)
Definition IUSaveText (text : string) (tp : IText) : IText :=
  {| t_name := t_name tp; t_label := t_label tp; t_text := text |}.

Definition with_tp (tvp : ITextVectorProperty) (tp : list IText) :=
  {| tvp_device := tvp_device tvp; tvp_name := tvp_name tvp;
     tvp_label := tvp_label tvp; tvp_p := tvp_p tvp; tvp_s := tvp_s tvp;
     tvp_tp := tp |}.

Definition with_s (tvp : ITextVectorProperty) (s : IPState) :=
  {| tvp_device := tvp_device tvp; tvp_name := tvp_name tvp;
     tvp_label := tvp_label tvp; tvp_p := tvp_p tvp; tvp_s := s;
     tvp_tp := tvp_tp tvp |}.

Definition not_member_msg (name label pname : string) : string :=
  "Error: " +:+ name +:+ " is not a member of " +:+ label +:+ " (" +:+ pname
  +:+ ") property.".

(** First loop: the first name that is not a member. *)
Fixpoint check_loop (tvp : ITextVectorProperty) (batch : list (string * string))
  : option string :=
  match batch with
  | [] => None
  | (name, _) :: rest =>
      match IUFindText tvp name with
      | None => Some name
      | Some _ => check_loop tvp rest
      end
  end.

(** Second loop: [IUSaveText(tp, texts[i])]. *)
Fixpoint store_loop (tvp : ITextVectorProperty) (batch : list (string * string))
  : ITextVectorProperty :=
  match batch with
  | [] => tvp
  | (name, text) :: rest =>
      match IUFindText tvp name with
      | None => tvp
      | Some (i, _) => store_loop (with_tp tvp (alter (IUSaveText text) i (tvp_tp tvp))) rest
      end
  end.

Definition IUUpdateText (tvp : ITextVectorProperty) (batch : list (string * string))
  : Z * ITextVectorProperty * list event :=
  match check_loop tvp batch with
  | Some name =>
      let tvp1 := with_s tvp IPS_IDLE in
      (-1, tvp1,
       [EvSetText tvp1 (Some (not_member_msg name (tvp_label tvp1) (tvp_name tvp1)))])
  | None => (0, store_loop tvp batch, [])
  end.

End Text.

(** ** BLOB vectors: IUUpdateBLOB *)

Module Blob.

(** One entry of the batch: [names[i]], [sizes[i]], [blobsizes[i]],
    [blobs[i]], [formats[i]]. *)
Record entry := mkEntry {
  e_name : string;
  e_size : Z;
  e_blobsize : Z;
  e_blob : string;
  e_format : string
}.

(** Modelled from the spec: [IUFindBLOB] is not in the sources at hand; a name
    must "resolve" to a member, the first one carrying it. *)
Definition IUFindBLOB (bvp : IBLOBVectorProperty) (name : string)
  : option (nat * IBLOB) :=
  list_find (λ bp, b_name bp = name) (bvp_bp bvp).

(** Modelled from the spec: [IUSaveBLOB] is to "free old buffer, take
    ownership of new bytes", with the size, length and format given. *)
Definition IUSaveBLOB (e : entry) (bp : IBLOB) : IBLOB :=
  {| b_name := b_name bp; b_label := b_label bp; b_format := e_format e;
     b_blob := e_blob e; b_bloblen := e_blobsize e; b_size := e_size e |}.

Definition with_bp (bvp : IBLOBVectorProperty) (bp : list IBLOB) :=
  {| bvp_device := bvp_device bvp; bvp_name := bvp_name bvp;
     bvp_label := bvp_label bvp; bvp_p := bvp_p bvp; bvp_s := bvp_s bvp;
     bvp_bp := bp |}.

Definition with_s (bvp : IBLOBVectorProperty) (s : IPState) :=
  {| bvp_device := bvp_device bvp; bvp_name := bvp_name bvp;
     bvp_label := bvp_label bvp; bvp_p := bvp_p bvp; bvp_s := s;
     bvp_bp := bvp_bp bvp |}.

Definition not_member_msg (name label pname : string) : string :=
  "Error: " +:+ name +:+ " is not a member of " +:+ label +:+ " (" +:+ pname
  +:+ ") property.".

Fixpoint check_loop (bvp : IBLOBVectorProperty) (batch : list entry) : option string :=
  match batch with
  | [] => None
  | e :: rest =>
      match IUFindBLOB bvp (e_name e) with
      | None => Some (e_name e)
      | Some _ => check_loop bvp rest
      end
  end.

Fixpoint store_loop (bvp : IBLOBVectorProperty) (batch : list entry)
  : IBLOBVectorProperty :=
  match batch with
  | [] => bvp
  | e :: rest =>
      match IUFindBLOB bvp (e_name e) with
      | None => bvp
      | Some (i, _) => store_loop (with_bp bvp (alter (IUSaveBLOB e) i (bvp_bp bvp))) rest
      end
  end.

(** The error path reports through [IDSetBLOB], so the ping counter is
    threaded through. *)
Definition IUUpdateBLOB (lastBlobPingUid : Z) (bvp : IBLOBVectorProperty)
    (batch : list entry) : Z * IBLOBVectorProperty * Z * list event :=
  match check_loop bvp batch with
  | Some name =>
      let bvp1 := with_s bvp IPS_IDLE in
      let '(uid, out) :=
        Ping.IDSetBLOB lastBlobPingUid bvp1
          (Some (not_member_msg name (bvp_label bvp1) (bvp_name bvp1))) in
      (-1, bvp1, uid, out)
  | None => (0, store_loop bvp batch, lastBlobPingUid, [])
  end.

End Blob.

(** ** libc helpers used by the dispatcher *)

Definition MAXRBUF : nat := 2048.

(** [snprintf(buf, size, ...)] keeps at most [size - 1] characters. *)
Definition snprintf (size : nat) (formatted : string) : string :=
  String.substring 0 (size - 1) formatted.

(** [int] is 32 bits wide; arithmetic on it wraps. *)
Definition wrap_int (z : Z) : Z := (z + 2 ^ 31) `mod` 2 ^ 32 - 2 ^ 31.

(** Conversion of an [int] to the [size_t] that [malloc] takes. *)
Definition to_size_t (z : Z) : Z := z `mod` 2 ^ 64.

Definition is_space (c : ascii) : bool :=
  let n := nat_of_ascii c in
  (n =? 32)%nat || ((9 <=? n)%nat && (n <=? 13)%nat).

Definition digit_of (c : ascii) : option Z :=
  let n := nat_of_ascii c in
  if ((48 <=? n)%nat && (n <=? 57)%nat)%bool then Some (Z.of_nat n - 48) else None.

Fixpoint skip_spaces (s : string) : string :=
  match s with
  | String c rest => if is_space c then skip_spaces rest else s
  | EmptyString => s
  end.

Fixpoint digits_value (acc : Z) (s : string) : Z :=
  match s with
  | String c rest =>
      match digit_of c with
      | Some d => digits_value (10 * acc + d) rest
      | None => acc
      end
  | EmptyString => acc
  end.

(** [long] is 64 bits wide. *)
Definition LONG_MAX : Z := 2 ^ 63 - 1.
Definition LONG_MIN : Z := - 2 ^ 63.

(** libc's [strtol(s, NULL, 10)]: white space, an optional sign, then decimal
    digits up to the first character that is not one; a value outside [long]
    comes back as [LONG_MAX] or [LONG_MIN]. *)
Definition strtol (s : string) : Z :=
  let value :=
    match skip_spaces s with
    | String "-"%char rest => - digits_value 0 rest
    | String "+"%char rest => digits_value 0 rest
    | rest => digits_value 0 rest
    end in
  Z.max LONG_MIN (Z.min LONG_MAX value).

(** libc's [atoi]: [(int) strtol(s, NULL, 10)], the conversion to [int]
    keeping the low 32 bits. *)
Definition atoi (s : string) : Z := wrap_int (strtol s).

Definition newline : string := String (ascii_of_nat 10) EmptyString.

(** ** The dispatcher *)

Module Dispatch.
Section WithExtern.
Context `{Extern}.

(** How a call of [dispatch] ends: it returns a code, or the process exits,
    or the registered address does not hold a vector of the registered type
    (the cast of [prop->ptr] is then meaningless). A driver entry point is
    taken to return; the cache in the result is the one it left. *)
Inductive outcome :=
  | Return (code : Z)
  | Exit (status : Z)
  | Undefined.

Record result := mkResult {
  r_outcome : outcome;
  r_msg : string;
  r_propCache : list ROSC;
  r_events : list event
}.

(** Modelled from the spec: [crackDN] (indicom) is not in the sources at hand;
    it is to "extract [device] and [name]", and the source tests its result
    for [< 0]. It is taken to fail when one of the two attributes is missing;
    the text it then leaves in [msg] is [crackDN_reason tag attribute]. *)
Definition crackDN (root : XMLEle) : string + string * string :=
  match findXMLAtt root "device" with
  | None => inl (crackDN_reason (tagXMLEle root) "device")
  | Some dev =>
      match findXMLAtt root "name" with
      | None => inl (crackDN_reason (tagXMLEle root) "name")
      | Some name => inr (dev, name)
      end
  end.

(** The twelve tags forwarded to [ISSnoopDevice]. *)
Definition snoop_tags : list string :=
  ["setNumberVector"; "setTextVector"; "setLightVector"; "setSwitchVector";
   "setBLOBVector"; "defNumberVector"; "defTextVector"; "defLightVector";
   "defSwitchVector"; "defBLOBVector"; "message"; "delProperty"].

Definition new_tags : list string :=
  ["newNumberVector"; "newSwitchVector"; "newTextVector"; "newBLOBVector"].

(** The loop "ensure property is not RO": the first entry with that name and
    device decides. *)
Fixpoint is_ro (name dev : string) (propCache : list ROSC) : bool :=
  match propCache with
  | [] => false
  | sc :: rest =>
      if decide (propName sc = name ∧ devName sc = dev)
      then bool_decide (perm sc = IP_RO)
      else is_ro name dev rest
  end.

(** [newNumberVector]: pull out each name/value pair. *)
Fixpoint numbers (dev name : string) (children : list XMLEle)
  : list (string * float) * list event :=
  match children with
  | [] => ([], [])
  | ep :: rest =>
      let '(pairs, out) := numbers dev name rest in
      if decide (tagXMLEle ep = "oneNumber") then
        match findXMLAtt ep "name" with
        | Some na =>
            match f_scansexa (pcdataXMLEle ep) with
            | None =>
                (pairs,
                 EvMessage dev ("[ERROR] " +:+ name +:+ ": Bad format " +:+ pcdataXMLEle ep)
                 :: out)
            | Some d => ((na, d) :: pairs, out)
            end
        | None => (pairs, out)
        end
      else (pairs, out)
  end.

(** [newSwitchVector]: pull out each name/state pair. *)
Fixpoint switches (dev name : string) (children : list XMLEle)
  : list (string * ISState) * list event :=
  match children with
  | [] => ([], [])
  | ep :: rest =>
      let '(pairs, out) := switches dev name rest in
      if decide (tagXMLEle ep = "oneSwitch") then
        match findXMLAtt ep "name" with
        | Some na =>
            if String.prefix "On" (pcdataXMLEle ep) then ((na, ISS_ON) :: pairs, out)
            else if decide (pcdataXMLEle ep = "Off") then ((na, ISS_OFF) :: pairs, out)
            else
              (pairs,
               EvMessage dev ("[ERROR] " +:+ name +:+ ": must be On or Off: "
                              +:+ pcdataXMLEle ep)
               :: out)
        | None => (pairs, out)
        end
      else (pairs, out)
  end.

(** [newTextVector]: pull out each name/text pair. *)
Fixpoint texts (children : list XMLEle) : list (string * string) :=
  match children with
  | [] => []
  | ep :: rest =>
      if decide (tagXMLEle ep = "oneText") then
        match findXMLAtt ep "name" with
        | Some na => (na, pcdataXMLEle ep) :: texts rest
        | None => texts rest
        end
      else texts rest
  end.

(** The encoded length used for a [oneBLOB]: [enclen] when given, the length
    of the body otherwise. *)
Definition bloblen_of (ep : XMLEle) : Z :=
  match findXMLAtt ep "enclen" with
  | Some el => atoi el
  | None => pcdatalenXMLEle ep
  end.

(** The argument of [malloc(3 * bloblen / 4)]: [int] arithmetic, the division
    truncating. *)
Definition blob_capacity (bloblen : Z) : Z :=
  to_size_t (Z.quot (wrap_int (3 * bloblen)) 4).

(** [newBLOBVector]: pull out each name/BLOB pair, decode. The entries are
    [None] when a [malloc] gave a null pointer and [assert_mem] ended the
    process there, the children after that one not being looked at. *)
Fixpoint blobs (children : list XMLEle) : option (list Blob.entry) * list event :=
  match children with
  | [] => (Some [], [])
  | ep :: rest =>
      if decide (tagXMLEle ep = "oneBLOB") then
        match findXMLAtt ep "name", findXMLAtt ep "format", findXMLAtt ep "size" with
        | Some na, Some fa, Some sa =>
            let bloblen := bloblen_of ep in
            if malloc (blob_capacity bloblen) then
              let '(data, blobsize) := from64tobits_fast (pcdataXMLEle ep) bloblen in
              let '(entries, out) := blobs rest in
              (cons (Blob.mkEntry na (atoi sa) blobsize data fa) <$> entries,
               EvMalloc (blob_capacity bloblen) :: out)
            else
              (None, [EvMalloc (blob_capacity bloblen); EvStderr assert_mem.1])
        | _, _, _ => blobs rest
        end
      else blobs rest
  end.

(** The cache once the driver entry point [e] has returned. *)
Definition called (e : event) (propCache : list ROSC) : list ROSC :=
  rosc_add_all (driver e propCache) propCache.

(** [if (verbose) prXMLEle(stderr, root, 0);] *)
Definition echo (verbose : bool) (root : XMLEle) : list event :=
  if verbose then [EvPrXMLEle root] else [].

(** [dispatch(root, msg)], with the globals it reads ([verbose], [me],
    [propCache]) and the driver memory its cache points into. *)
Definition dispatch (verbose : bool) (me : string) (mem : memory)
    (propCache : list ROSC) (root : XMLEle) (msg : string) : result :=
  let rtag := tagXMLEle root in
  let echo := echo verbose root in
  if decide (rtag = "getProperties") then
    (* check version *)
    match findXMLAtt root "version" with
    | None =>
        mkResult (Exit 1) msg propCache
          (echo ++ [EvStderr (me +:+ ": getProperties missing version" +:+ newline)])
    | Some ap =>
        let v := atof ap in
        if PrimFloat.ltb INDIV v then
          mkResult (Exit 1) msg propCache
            (echo ++ [EvStderr (me +:+ ": client version " +:+ fmt_g v +:+ " > "
                                +:+ fmt_g INDIV +:+ newline)])
        else
          match findXMLAtt root "name", findXMLAtt root "device" with
          | Some name, Some dev =>
              match rosc_find name dev propCache with
              | None => mkResult (Return 0) msg propCache echo
              | Some (_, prop) =>
                  match type prop, mem (ptr prop) with
                  | INDI_NUMBER, Some (PNumber nvp) =>
                      let '(out, cache) := IDDefNumber (ptr prop) nvp propCache in
                      mkResult (Return 0) msg cache (echo ++ out)
                  | INDI_SWITCH, Some (PSwitch svp) =>
                      let '(out, cache) := IDDefSwitch (ptr prop) svp propCache in
                      mkResult (Return 0) msg cache (echo ++ out)
                  | INDI_TEXT, Some (PText tvp) =>
                      let '(out, cache) := IDDefText (ptr prop) tvp propCache in
                      mkResult (Return 0) msg cache (echo ++ out)
                  | INDI_BLOB, Some (PBLOB bvp) =>
                      let '(out, cache) := IDDefBLOB (ptr prop) bvp propCache in
                      mkResult (Return 0) msg cache (echo ++ out)
                  | (INDI_LIGHT | INDI_UNKNOWN), _ =>
                      mkResult (Return 0) msg propCache echo
                  | _, _ => mkResult Undefined msg propCache echo
                  end
              end
          | _, dev =>
              mkResult (Return 0) msg (called (EvISGetProperties dev) propCache)
                (echo ++ [EvISGetProperties dev])
          end
    end
  else if bool_decide (rtag ∈ snoop_tags) then
    mkResult (Return 0) msg (called (EvISSnoopDevice root) propCache)
      (echo ++ [EvISSnoopDevice root])
  else
    (* pull out device and name *)
    match crackDN root with
    | inl why => mkResult (Return (-1)) why propCache echo
    | inr (dev, name) =>
        match rosc_find name dev propCache with
        | None =>
            mkResult (Return (-1))
              (snprintf MAXRBUF
                 ("Property " +:+ name +:+ " is not defined in " +:+ dev +:+ "."))
              propCache echo
        | Some _ =>
            (* ensure property is not RO *)
            if is_ro name dev propCache then
              mkResult (Return (-1))
                (snprintf MAXRBUF ("Cannot set read-only property " +:+ name))
                propCache echo
            else if decide (rtag = "newNumberVector") then
              let '(pairs, out) := numbers dev name (childXMLEle root) in
              if decide (pairs ≠ []) then
                let e := EvISNewNumber dev name (pairs.*2) (pairs.*1) in
                mkResult (Return 0) msg (called e propCache) (echo ++ out ++ [e])
              else
                mkResult (Return 0) msg propCache
                  (echo ++ out ++
                   [EvMessage dev ("[ERROR] " +:+ name
                                   +:+ ": newNumberVector with no valid members")])
            else if decide (rtag = "newSwitchVector") then
              let '(pairs, out) := switches dev name (childXMLEle root) in
              if decide (pairs ≠ []) then
                let e := EvISNewSwitch dev name (pairs.*2) (pairs.*1) in
                mkResult (Return 0) msg (called e propCache) (echo ++ out ++ [e])
              else
                mkResult (Return 0) msg propCache
                  (echo ++ out ++
                   [EvMessage dev ("[ERROR] " +:+ name
                                   +:+ ": newSwitchVector with no valid members")])
            else if decide (rtag = "newTextVector") then
              let pairs := texts (childXMLEle root) in
              if decide (pairs ≠ []) then
                let e := EvISNewText dev name (pairs.*2) (pairs.*1) in
                mkResult (Return 0) msg (called e propCache) (echo ++ [e])
              else
                mkResult (Return 0) msg propCache
                  (echo ++
                   [EvMessage dev ("[ERROR] " +:+ name +:+ ": set with no valid members")])
            else if decide (rtag = "newBLOBVector") then
              match blobs (childXMLEle root) with
              | (None, out) => mkResult (Exit assert_mem.2) msg propCache (echo ++ out)
              | (Some entries, out) =>
                  if decide (entries ≠ []) then
                    let e := EvISNewBLOB dev name (Blob.e_size <$> entries)
                               (Blob.e_blobsize <$> entries) (Blob.e_blob <$> entries)
                               (Blob.e_format <$> entries) (Blob.e_name <$> entries) in
                    mkResult (Return 0) msg (called e propCache)
                      (echo ++ out ++ e :: (EvFree <$> (Blob.e_blob <$> entries)))
                  else
                    mkResult (Return 0) msg propCache
                      (echo ++ out ++
                       [EvMessage dev ("[ERROR] " +:+ name
                                       +:+ ": newBLOBVector with no valid members")])
              end
            else
              mkResult (Return 1) ("Unknown command: " +:+ rtag) propCache echo
        end
    end.

End WithExtern.
End Dispatch.

(** ** Notions used in the statements below *)

(** The element a definition of the vector [p] writes, and the type tag it is
    cached under. *)
Definition def_event (p : property) : event :=
  match p with
  | PNumber nvp => EvDefNumber nvp
  | PSwitch svp => EvDefSwitch svp
  | PText tvp => EvDefText tvp
  | PBLOB bvp => EvDefBLOB bvp
  end.

Definition kind_of (p : property) : INDI_TYPE :=
  match p with
  | PNumber _ => INDI_NUMBER
  | PSwitch _ => INDI_SWITCH
  | PText _ => INDI_TEXT
  | PBLOB _ => INDI_BLOB
  end.

(** Every cached property name fits the [MAXINDINAME] bytes of
    [ROSC.propName], terminator included. *)
Definition rosc_fits (MAXINDINAME : nat) (propCache : list ROSC) : Prop :=
  Forall (λ sc, (String.length (propName sc) < MAXINDINAME)%nat) propCache.

(** The upward-rounded quotient of the spec's capacity formula. *)
Definition ceil_div (a b : Z) : Z := (a + b - 1) `div` b.

Definition is_malloc (e : event) : bool :=
  match e with EvMalloc _ => true | _ => false end.

(** A child that the [newBLOBVector] loop decodes: a [oneBLOB] with the
    attributes [name], [format] and [size]. *)
Definition decoded_oneBLOB (ep : XMLEle) : bool :=
  bool_decide (tagXMLEle ep = "oneBLOB")
  && bool_decide (is_Some (findXMLAtt ep "name"))
  && bool_decide (is_Some (findXMLAtt ep "format"))
  && bool_decide (is_Some (findXMLAtt ep "size")).

Module NumberSpec.
Section WithExtern.
Context `{Extern}.

(** An entry the first loop of [IUUpdateNumber] lets through: its name
    resolves to a member and its value is not outside that member's range. *)
Definition acceptable (nvp : INumberVectorProperty) (e : string * float) : Prop :=
  ∃ i np, Number.IUFindNumber nvp e.1 = Some (i, np) ∧ Number.out_of_range e.2 np = false.

(** The value the batch gives member [i] last, if it names it at all. *)
Fixpoint assigned (nvp : INumberVectorProperty) (batch : list (string * float)) (i : nat)
  : option float :=
  match batch with
  | [] => None
  | (name, v) :: rest =>
      match assigned nvp rest i with
      | Some w => Some w
      | None =>
          if decide (fst <$> Number.IUFindNumber nvp name = Some i) then Some v else None
      end
  end.

End WithExtern.
End NumberSpec.

(** ** A small instance of the outside functions, to run the model on examples

    Whole numbers only: [atof] and the scanner read a decimal integer, [%g]
    prints the integer part, the decoder copies its input, and the protocol
    version is 1.7 as in the spec's scenarios. [malloc] refuses what is above
    [PTRDIFF_MAX], and the driver defines its vectors in [ISGetProperties]
    and nowhere else. *)
Module Sample.

Definition float_of_Z (z : Z) : float :=
  if (z <? 0)%Z then PrimFloat.opp (PrimFloat.of_uint63 (Uint63.of_Z (- z)))
  else PrimFloat.of_uint63 (Uint63.of_Z z).

Definition Z_of_float (f : float) : Z :=
  match Prim2SF f with
  | S754_finite s m e =>
      let a := if (0 <=? e)%Z then Z.pos m * 2 ^ e else Z.pos m `div` 2 ^ (- e) in
      if s then - a else a
  | _ => 0
  end.

Definition starts_number (s : string) : bool :=
  match skip_spaces s with
  | String c rest =>
      match digit_of c, rest with
      | Some _, _ => true
      | None, String d _ =>
          (bool_decide (c = "-"%char) || bool_decide (c = "+"%char))
          && bool_decide (is_Some (digit_of d))
      | None, EmptyString => false
      end
  | EmptyString => false
  end.

(** The vectors and elements of the spec's scenarios. *)

(** Scenario 5: [A] On, [B] and [C] Off, one of many. *)
Definition connection_switches : ISwitchVectorProperty :=
  mkSVP "Mount" "CONNECTION" "Connection" IP_RW ISR_1OFMANY IPS_OK
    [mkISwitch "A" "a" ISS_ON; mkISwitch "B" "b" ISS_OFF; mkISwitch "C" "c" ISS_OFF].

Definition tracking_switches : ISwitchVectorProperty :=
  mkSVP "Mount" "TRACK_AXES" "Track" IP_RW ISR_NOFMANY IPS_OK
    [mkISwitch "RA" "ra" ISS_OFF; mkISwitch "DEC" "dec" ISS_OFF].

(** Scenario 4: [EXP] between 0 and 10, at 5. *)
Definition exposure : INumberVectorProperty :=
  mkNVP "Cam" "EXPOSURE" "Exposure" IP_RW IPS_OK
    [mkINumber "EXP" "Exp" "%g" 0%float 10%float 1%float 5%float].

(** Scenario 3: a read-only text vector. *)
Definition driver_info : ITextVectorProperty :=
  mkTVP "Cam" "DRIVER_INFO" "Driver" IP_RO IPS_OK [mkIText "VERSION" "Version" "1.0"].

Definition image : IBLOBVectorProperty :=
  mkBVP "Cam" "CCD1" "Image" IP_RW IPS_OK [mkIBLOB "CCD1" "Image" "" "" 0 0].

(** The driver memory: four vectors at addresses 0 to 3. *)
Definition mem : memory := λ a,
  match a with
  | 0%nat => Some (PText driver_info)
  | 1%nat => Some (PSwitch connection_switches)
  | 2%nat => Some (PNumber exposure)
  | 3%nat => Some (PBLOB image)
  | _ => None
  end.

(** What the driver's [ISGetProperties] defines: its four vectors. *)
Definition defined : list ROSC :=
  [mkROSC "DRIVER_INFO" "Cam" IP_RO 0 INDI_TEXT;
   mkROSC "CONNECTION" "Mount" IP_RW 1 INDI_SWITCH;
   mkROSC "EXPOSURE" "Cam" IP_RW 2 INDI_NUMBER;
   mkROSC "CCD1" "Cam" IP_RW 3 INDI_BLOB].

#[export] Instance extern : Extern := {|
  atof s := float_of_Z (atoi s);
  fmt_g f := fmt_ld (Z_of_float f);
  f_scansexa s := if starts_number s then Some (float_of_Z (atoi s)) else None;
  from64tobits_fast body len :=
    let data := String.substring 0 (Z.to_nat len) body in
    (data, Z.of_nat (String.length data));
  crackDN_reason tag att := tag +:+ " requires '" +:+ att +:+ "' attribute";
  INDIV := 0x1.b333333333333p+0%float;
  malloc n := bool_decide (n < 2 ^ 63);
  assert_mem := ("indidriver.c(dispatch): Failed to allocate memory" +:+ newline, 1);
  driver e _ := match e with EvISGetProperties _ => defined | _ => [] end
|}.

(** The cache after the four vectors have been defined. *)
Definition propCache : list ROSC :=
  (IDDefBLOB 3 image
     (IDDefNumber 2 exposure
        (IDDefSwitch 1 connection_switches
           (IDDefText 0 driver_info []).2).2).2).2.

Definition evil_text : XMLEle :=
  mkXMLEle "newTextVector" [("device", "Cam"); ("name", "DRIVER_INFO")] ""
    [mkXMLEle "oneText" [("name", "VERSION")] "evil" []].

Definition get_connection : XMLEle :=
  mkXMLEle "getProperties" [("version", "1.7"); ("device", "Mount"); ("name", "CONNECTION")]
    "" [].

Definition get_unknown_property : XMLEle :=
  mkXMLEle "getProperties" [("version", "1.7"); ("device", "Mount"); ("name", "PARK")] "" [].

Definition get_without_version : XMLEle :=
  mkXMLEle "getProperties" [("device", "Mount")] "" [].

Definition new_focus : XMLEle :=
  mkXMLEle "newNumberVector" [("device", "Cam"); ("name", "FOCUS")] ""
    [mkXMLEle "oneNumber" [("name", "POSITION")] "100" []].

(** Lights are not accepted from the peer: the tag is not a known command. *)
Definition new_light_undefined : XMLEle :=
  mkXMLEle "newLightVector" [("device", "Cam"); ("name", "STATUS")] "" [].

Definition new_light_on_image : XMLEle :=
  mkXMLEle "newLightVector" [("device", "Cam"); ("name", "CCD1")] "" [].

Definition new_image : XMLEle :=
  mkXMLEle "newBLOBVector" [("device", "Cam"); ("name", "CCD1")] ""
    [mkXMLEle "oneBLOB" [("name", "CCD1"); ("format", ".bin"); ("size", "4"); ("enclen", "6")]
       "QUJDRE" [];
     mkXMLEle "oneBLOB" [("name", "CCD1"); ("format", ".bin"); ("size", "1")] "QQ" []].

Fixpoint repeat_char (n : nat) (c : ascii) : string :=
  match n with
  | O => EmptyString
  | S n' => String c (repeat_char n' c)
  end.

(** A property name that does not fit the error buffer. *)
Definition long_name : string := repeat_char 2048 "x"%char.

Definition new_long_name : XMLEle :=
  mkXMLEle "newTextVector" [("device", "Cam"); ("name", long_name)] "" [].

(** A BLOB whose [enclen] is negative, between two that are in order. *)
Definition new_image_negative : XMLEle :=
  mkXMLEle "newBLOBVector" [("device", "Cam"); ("name", "CCD1")] ""
    [mkXMLEle "oneBLOB" [("name", "CCD1"); ("format", ".bin"); ("size", "4"); ("enclen", "6")]
       "QUJDRE" [];
     mkXMLEle "oneBLOB" [("name", "CCD1"); ("format", ".bin"); ("size", "4"); ("enclen", "-4")]
       "QUJD" [];
     mkXMLEle "oneBLOB" [("name", "CCD1"); ("format", ".bin"); ("size", "1")] "QQ" []].

Definition no_blob : IBLOBVectorProperty :=
  mkBVP "Cam" "CCD1" "Image" IP_RO IPS_OK [].

End Sample.

(** ** Notions used in the further properties *)

(** The keys of the cache: name and device of each entry. *)
Definition rosc_keys (propCache : list ROSC) : list (string * string) :=
  (λ sc, (propName sc, devName sc)) <$> propCache.

Definition is_message (e : event) : bool :=
  match e with EvMessage _ _ => true | _ => false end.

Definition is_free (e : event) : bool :=
  match e with EvFree _ => true | _ => false end.

(** The device and name a write callback was invoked for. *)
Definition new_callback_target (e : event) : option (string * string) :=
  match e with
  | EvISNewNumber dev name _ _ | EvISNewSwitch dev name _ _
  | EvISNewText dev name _ _ | EvISNewBLOB dev name _ _ _ _ _ => Some (dev, name)
  | _ => None
  end.

(** An event that is neither a callback nor an allocation nor a release. *)
Definition quiet (e : event) : Prop :=
  is_callback e = false ∧ is_malloc e = false ∧ is_free e = false.

(** Further elements to run the model on. *)
Module Scenario.

Definition new_exposure : XMLEle :=
  mkXMLEle "newNumberVector" [("device", "Cam"); ("name", "EXPOSURE")] ""
    [mkXMLEle "oneNumber" [("name", "EXP")] "7" []].

(** A switch update with a lenient On, an exact Off and a body that is
    neither. *)
Definition new_connection : XMLEle :=
  mkXMLEle "newSwitchVector" [("device", "Mount"); ("name", "CONNECTION")] ""
    [mkXMLEle "oneSwitch" [("name", "A")] "Off" [];
     mkXMLEle "oneSwitch" [("name", "B")] "Online" [];
     mkXMLEle "oneSwitch" [("name", "C")] "off" []].

Definition new_exposure_bad : XMLEle :=
  mkXMLEle "newNumberVector" [("device", "Cam"); ("name", "EXPOSURE")] ""
    [mkXMLEle "oneNumber" [("name", "EXP")] "seven" [];
     mkXMLEle "oneNumber" [] "3" []].

(** A saved configuration: two elements of [Cam] that can be applied or not,
    one of another device, one of [Cam] for a property that is not defined. *)
Definition saved_config : XMLEle :=
  mkXMLEle "INDIDriver" [] ""
    [mkXMLEle "newNumberVector" [("device", "Cam"); ("name", "EXPOSURE")] ""
       [mkXMLEle "oneNumber" [("name", "EXP")] "7" []];
     mkXMLEle "newTextVector" [("device", "Cam"); ("name", "DRIVER_INFO")] ""
       [mkXMLEle "oneText" [("name", "VERSION")] "0.9" []];
     mkXMLEle "newSwitchVector" [("device", "Mount"); ("name", "CONNECTION")] ""
       [mkXMLEle "oneSwitch" [("name", "A")] "Off" [];
        mkXMLEle "oneSwitch" [("name", "B")] "On" []];
     mkXMLEle "newNumberVector" [("device", "Cam"); ("name", "FOCUS")] ""
       [mkXMLEle "oneNumber" [("name", "POSITION")] "100" []]].

(** The same with an element that has lost its [name] in second place. *)
Definition damaged_config : XMLEle :=
  mkXMLEle "INDIDriver" [] ""
    [mkXMLEle "newNumberVector" [("device", "Cam"); ("name", "EXPOSURE")] ""
       [mkXMLEle "oneNumber" [("name", "EXP")] "7" []];
     mkXMLEle "newTextVector" [("device", "Mount")] "" [];
     mkXMLEle "newNumberVector" [("device", "Cam"); ("name", "FOCUS")] ""
       [mkXMLEle "oneNumber" [("name", "POSITION")] "100" []]].

(** A configuration with the same property saved twice and a switch vector
    with nothing On. *)
Definition shadowed_config : XMLEle :=
  mkXMLEle "INDIDriver" [] ""
    [mkXMLEle "newNumberVector" [("device", "Cam"); ("name", "EXPOSURE")] ""
       [mkXMLEle "oneNumber" [("name", "GAIN")] "2" []];
     mkXMLEle "newNumberVector" [("device", "Cam"); ("name", "EXPOSURE")] ""
       [mkXMLEle "oneNumber" [("name", "EXP")] "7" []];
     mkXMLEle "newSwitchVector" [("device", "Cam"); ("name", "COOLER")] ""
       [mkXMLEle "oneSwitch" [("name", "COOLER_ON")] "Off" [];
        mkXMLEle "oneSwitch" [("name", "COOLER_OFF")] "Off" []];
     mkXMLEle "newSwitchVector" [("device", "Cam"); ("name", "BINNING")] ""
       [mkXMLEle "oneSwitch" [("name", "BIN_1")] "Off" [];
        mkXMLEle "oneSwitch" [("name", "BIN_2")] "On" []]].

(** A reading of [crackISState] for the examples: exactly "On" and "Off". *)
Definition crackISState (body : string) : option ISState :=
  if decide (body = "On") then Some ISS_ON
  else if decide (body = "Off") then Some ISS_OFF
  else None.

Definition new_text_on_connection : XMLEle :=
  mkXMLEle "newTextVector" [("device", "Mount"); ("name", "CONNECTION")] ""
    [mkXMLEle "oneText" [("name", "A")] "x" []; mkXMLEle "oneNumber" [("name", "B")] "1" [];
     mkXMLEle "oneText" [] "y" []].

End Scenario.

(** The decoding of the children of a [new<Kind>Vector], child by child. *)
Module Decode.
Section WithExtern.
Context `{Extern}.

(** The [name] of a child with the given tag, if it has one. *)
Definition named_child (tag : string) (ep : XMLEle) : option string :=
  if decide (tagXMLEle ep = tag) then findXMLAtt ep "name" else None.

(** The state a [oneSwitch] body stands for. *)
Definition switch_state (body : string) : option ISState :=
  if String.prefix "On" body then Some ISS_ON
  else if decide (body = "Off") then Some ISS_OFF
  else None.

Definition text_member (ep : XMLEle) : option (string * string) :=
  na ← named_child "oneText" ep; Some (na, pcdataXMLEle ep).

Definition switch_member (ep : XMLEle) : option (string * ISState) :=
  na ← named_child "oneSwitch" ep; st ← switch_state (pcdataXMLEle ep); Some (na, st).

Definition number_member (ep : XMLEle) : option (string * float) :=
  na ← named_child "oneNumber" ep; d ← f_scansexa (pcdataXMLEle ep); Some (na, d).

(** The complaint about a named child whose body does not decode. *)
Definition switch_complaint (dev name : string) (ep : XMLEle) : option event :=
  na ← named_child "oneSwitch" ep;
  match switch_state (pcdataXMLEle ep) with
  | Some _ => None
  | None => Some (EvMessage dev ("[ERROR] " +:+ name +:+ ": must be On or Off: "
                                 +:+ pcdataXMLEle ep))
  end.

Definition number_complaint (dev name : string) (ep : XMLEle) : option event :=
  na ← named_child "oneNumber" ep;
  match f_scansexa (pcdataXMLEle ep) with
  | Some _ => None
  | None => Some (EvMessage dev ("[ERROR] " +:+ name +:+ ": Bad format "
                                 +:+ pcdataXMLEle ep))
  end.

End WithExtern.
End Decode.

(** The member list of a vector under a batch of (name, value) entries: what
    finding each name and storing its value, entry after entry, makes of it. *)
Module Assign.
Section Members.
Context {A V : Type} (key : A → string) (upd : V → A → A).

(** The index of the first member called [name]. *)
Definition find_ix (l : list A) (name : string) : option nat :=
  fst <$> list_find (λ a, key a = name) l.

(** The value the batch gives member [i] last, if it names it at all. *)
Fixpoint assigned (l : list A) (batch : list (string * V)) (i : nat) : option V :=
  match batch with
  | [] => None
  | (name, v) :: rest =>
      match assigned l rest i with
      | Some w => Some w
      | None => if decide (find_ix l name = Some i) then Some v else None
      end
  end.

(** The members after the batch: member [i] with the last value given to it. *)
Definition updated (l : list A) (batch : list (string * V)) : list A :=
  imap (λ i a, from_option (λ v, upd v a) a (assigned l batch i)) l.

End Members.
End Assign.

(** The batch of [IUUpdateBLOB] as (name, entry) pairs. *)
Definition blob_batch (batch : list Blob.entry) : list (string * Blob.entry) :=
  (λ e, (Blob.e_name e, e)) <$> batch.


(** ** Configuration files: IUReadConfig and the IUGetConfig functions

    The file is taken as what [IUGetConfigFP] and [readXMLFile] made of it. *)

Module Config.

(** lilxml's [findXMLAttValu]: the value of the attribute, or the empty
    string when the element has none of that name. *)
Definition findXMLAttValu (ep : XMLEle) (name : string) : string :=
  default "" (findXMLAtt ep name).

(** [strncpy(dst, src, n)]: the first [n] characters of [src], and whether a
    terminating NUL was written after them (only when [src] is shorter than
    [n]). *)
Definition strncpy (n : nat) (src : string) : string * bool :=
  (String.substring 0 n src, bool_decide (String.length src < n)%nat).

(** What opening and parsing the file gave. *)
Inductive config_file :=
  | NoFile (errmsg : string)
  | BadXML (whynot : string)
  | Parsed (fproot : XMLEle).

Section WithExtern.
Context `{Extern}.

(** indicom's [crackISState]: the state a body stands for, [None] when it
    returns -1. *)
Variable crackISState : string → option ISState.

(** The loop of [IUReadConfig] over the children of the root. It ends with
    [Return 0] when it ran to its end or broke out after the one property
    asked for, with [Return (-1)] when [crackDN] failed, and with the outcome
    of [dispatch] when that did not return. *)
Fixpoint read_loop (verbose : bool) (me : string) (mem : memory) (dev : string)
    (property : option string) (children : list XMLEle) (propCache : list ROSC)
    (errmsg : string) : Dispatch.result :=
  match children with
  | [] => Dispatch.mkResult (Dispatch.Return 0) errmsg propCache []
  | root :: rest =>
      (* pull out device and name *)
      match Dispatch.crackDN root with
      | inl why => Dispatch.mkResult (Dispatch.Return (-1)) why propCache []
      | inr (rdev, rname) =>
          (* It doesn't belong to our device?? *)
          if decide (dev ≠ rdev) then
            read_loop verbose me mem dev property rest propCache errmsg
          else if decide (property = Some rname ∨ property = None) then
            let r := Dispatch.dispatch verbose me mem propCache root errmsg in
            match Dispatch.r_outcome r with
            | Dispatch.Return _ =>
                if decide (property ≠ None) then
                  Dispatch.mkResult (Dispatch.Return 0) (Dispatch.r_msg r)
                    (Dispatch.r_propCache r) (Dispatch.r_events r)
                else
                  let r' := read_loop verbose me mem dev property rest
                              (Dispatch.r_propCache r) (Dispatch.r_msg r) in
                  Dispatch.mkResult (Dispatch.r_outcome r') (Dispatch.r_msg r')
                    (Dispatch.r_propCache r') (Dispatch.r_events r ++ Dispatch.r_events r')
            | _ => r
            end
          else read_loop verbose me mem dev property rest propCache errmsg
      end
  end.

Definition IUReadConfig (verbose : bool) (me : string) (mem : memory)
    (propCache : list ROSC) (file : config_file) (dev : string)
    (property : option string) (silent : Z) (errmsg : string) : Dispatch.result :=
  match file with
  | NoFile why => Dispatch.mkResult (Dispatch.Return (-1)) why propCache []
  | BadXML whynot =>
      Dispatch.mkResult (Dispatch.Return (-1))
        (snprintf MAXRBUF ("Unable to parse config XML: " +:+ whynot)) propCache []
  | Parsed fproot =>
      let chatty := bool_decide (0 < length (childXMLEle fproot))%nat
                    && bool_decide (silent ≠ 1) in
      let loading :=
        if chatty then [EvMessage dev "[INFO] Loading device configuration..."] else [] in
      let r := read_loop verbose me mem dev property (childXMLEle fproot) propCache errmsg in
      match Dispatch.r_outcome r with
      | Dispatch.Return 0 =>
          Dispatch.mkResult (Dispatch.Return 0) (Dispatch.r_msg r) (Dispatch.r_propCache r)
            (loading ++ Dispatch.r_events r ++
             (if chatty then [EvMessage dev "[INFO] Device configuration applied."] else []))
      | o =>
          Dispatch.mkResult o (Dispatch.r_msg r) (Dispatch.r_propCache r)
            (loading ++ Dispatch.r_events r)
      end
  end.

(** The outer loop the IUGetConfig functions share: the first child of the
    root that belongs to [dev] and, when a property is asked for, carries its
    name. [None] when [crackDN] fails on the way, [Some None] when the loop
    runs out. *)
Fixpoint config_element (dev : string) (property : option string)
    (children : list XMLEle) : option (option XMLEle) :=
  match children with
  | [] => Some None
  | root :: rest =>
      match Dispatch.crackDN root with
      | inl _ => None
      | inr (rdev, rname) =>
          if decide (dev ≠ rdev) then config_element dev property rest
          else if decide (property = Some rname ∨ property = None) then Some (Some root)
          else config_element dev property rest
      end
  end.

(** The inner loop of [IUGetConfigOnSwitch], [IUGetConfigOnSwitchIndex] and
    [IUGetConfigOnSwitchName]: the first child whose body cracks to On, with
    its index, counted from [index]. *)
Fixpoint on_switch (index : Z) (children : list XMLEle) : option (Z * XMLEle) :=
  match children with
  | [] => None
  | oneSwitch :: rest =>
      if decide (crackISState (pcdataXMLEle oneSwitch) = Some ISS_ON)
      then Some (index, oneSwitch)
      else on_switch (index + 1) rest
  end.

(** The inner loop of [IUGetConfigSwitch], [IUGetConfigNumber] and
    [IUGetConfigText]: the first child whose [name] is [member]. *)
Fixpoint member_child (member : string) (children : list XMLEle) : option XMLEle :=
  match children with
  | [] => None
  | one :: rest =>
      if decide (member = findXMLAttValu one "name") then Some one
      else member_child member rest
  end.

(** [IUGetConfigOnSwitch]: the return code and [*index], which starts at -1. *)
Definition IUGetConfigOnSwitch (file : config_file) (property : ISwitchVectorProperty)
  : Z * Z :=
  match file with
  | Parsed fproot =>
      match config_element (svp_device property) (Some (svp_name property))
              (childXMLEle fproot) with
      | Some (Some root) =>
          match on_switch 0 (childXMLEle root) with
          | Some (index, _) => (0, index)
          | None => (0, -1)
          end
      | _ => (-1, -1)
      end
  | _ => (-1, -1)
  end.

(** [IUGetConfigSwitch]: the return code and, when it is 0, [*value]. *)
Definition IUGetConfigSwitch (file : config_file) (dev : string)
    (property : option string) (member : string) : Z * option ISState :=
  match file with
  | Parsed fproot =>
      match config_element dev property (childXMLEle fproot) with
      | Some (Some root) =>
          match member_child member (childXMLEle root) with
          | Some oneSwitch =>
              match crackISState (pcdataXMLEle oneSwitch) with
              | Some value => (0, Some value)
              | None => (-1, None)
              end
          | None => (-1, None)
          end
      | _ => (-1, None)
      end
  | _ => (-1, None)
  end.

(** [IUGetConfigOnSwitchIndex]: the return code and, when it is 0, [*index]. *)
Definition IUGetConfigOnSwitchIndex (file : config_file) (dev : string)
    (property : option string) : Z * option Z :=
  match file with
  | Parsed fproot =>
      match config_element dev property (childXMLEle fproot) with
      | Some (Some root) =>
          match on_switch 0 (childXMLEle root) with
          | Some (index, _) => (0, Some index)
          | None => (-1, None)
          end
      | _ => (-1, None)
      end
  | _ => (-1, None)
  end.

(** [IUGetConfigOnSwitchName]: the return code and, when it is 0, what
    [strncpy] left in [name]. *)
Definition IUGetConfigOnSwitchName (file : config_file) (dev : string)
    (property : option string) (size : nat) : Z * option (string * bool) :=
  match file with
  | Parsed fproot =>
      match config_element dev property (childXMLEle fproot) with
      | Some (Some root) =>
          match on_switch 0 (childXMLEle root) with
          | Some (_, oneSwitch) => (0, Some (strncpy size (findXMLAttValu oneSwitch "name")))
          | None => (-1, None)
          end
      | _ => (-1, None)
      end
  | _ => (-1, None)
  end.

(** [IUGetConfigNumber]: the return code and, when it is 0, [*value]. *)
Definition IUGetConfigNumber (file : config_file) (dev : string)
    (property : option string) (member : string) : Z * option float :=
  match file with
  | Parsed fproot =>
      match config_element dev property (childXMLEle fproot) with
      | Some (Some root) =>
          match member_child member (childXMLEle root) with
          | Some oneNumber => (0, Some (atof (pcdataXMLEle oneNumber)))
          | None => (-1, None)
          end
      | _ => (-1, None)
      end
  | _ => (-1, None)
  end.

(** [IUGetConfigText]: the return code and, when it is 0, what [strncpy] left
    in [value]. [len] is an [int] that [strncpy] takes as a [size_t]: the
    same count when it is not negative; a negative one becomes a count of
    [2 ^ 64 - |len|] bytes, all of which [strncpy] writes, and no buffer is
    that long: the call then has no defined result, which is [None]. *)
Definition IUGetConfigText (file : config_file) (dev : string)
    (property : option string) (member : string) (len : Z)
  : option (Z * option (string * bool)) :=
  match file with
  | Parsed fproot =>
      match config_element dev property (childXMLEle fproot) with
      | Some (Some root) =>
          match member_child member (childXMLEle root) with
          | Some oneText =>
              if decide (0 ≤ len)
              then Some (0, Some (strncpy (Z.to_nat len) (pcdataXMLEle oneText)))
              else None
          | None => Some (-1, None)
          end
      | _ => Some (-1, None)
      end
  | _ => Some (-1, None)
  end.

End WithExtern.
End Config.

#[global] Instance outcome_eq_dec : EqDecision Dispatch.outcome.
Proof. solve_decision. Defined.

(** Notions for the statements about configuration files. *)
Module ConfigSpec.
Section WithExtern.
Context `{Extern}.

(** The element carries both a device and a name. *)
Definition has_dn (root : XMLEle) : Prop :=
  is_Some (findXMLAtt root "device") ∧ is_Some (findXMLAtt root "name").

(** The element belongs to [dev] and, when a property is asked for, is that
    property. *)
Definition matches (dev : string) (property : option string) (root : XMLEle) : Prop :=
  findXMLAtt root "device" = Some dev ∧
  (property = None ∨ findXMLAtt root "name" = property).

#[global] Instance matches_dec dev property root : Decision (matches dev property root).
Proof. unfold matches. apply _. Defined.

(** The elements [IUReadConfig] replays: every element of the device, or the
    first one with the name asked for. *)
Definition selected (dev : string) (property : option string)
    (children : list XMLEle) : list XMLEle :=
  match property with
  | None => filter (matches dev None) children
  | Some _ => option_list (snd <$> list_find (matches dev property) children)
  end.

(** An element on which [dispatch] cannot end the process: it is not a
    [getProperties], and if it is a [newBLOBVector], [malloc] gives a buffer
    for each of its decoded children. *)
Definition harmless (root : XMLEle) : Prop :=
  tagXMLEle root ≠ "getProperties" ∧
  (tagXMLEle root = "newBLOBVector" →
   ∀ ep, ep ∈ childXMLEle root → decoded_oneBLOB ep = true →
         malloc (Dispatch.blob_capacity (Dispatch.bloblen_of ep)) = true).

(** [dispatch] on each element in turn, the cache and the message buffer
    handed on, until one does not return. *)
Fixpoint replay (verbose : bool) (me : string) (mem : memory) (elements : list XMLEle)
    (propCache : list ROSC) (errmsg : string) : Dispatch.result :=
  match elements with
  | [] => Dispatch.mkResult (Dispatch.Return 0) errmsg propCache []
  | root :: rest =>
      let r := Dispatch.dispatch verbose me mem propCache root errmsg in
      match Dispatch.r_outcome r with
      | Dispatch.Return _ =>
          let r' := replay verbose me mem rest (Dispatch.r_propCache r) (Dispatch.r_msg r) in
          Dispatch.mkResult (Dispatch.r_outcome r') (Dispatch.r_msg r')
            (Dispatch.r_propCache r') (Dispatch.r_events r ++ Dispatch.r_events r')
      | _ => r
      end
  end.

End WithExtern.
End ConfigSpec.

(** * Properties *)

(** ** Generic facts about lists and strings *)

Lemma list_find_alter_fst {A} (P : A → Prop) `{!∀ x, Decision (P x)} (f : A → A)
    (i : nat) (l : list A) :
  (∀ x, P (f x) ↔ P x) →
  fst <$> list_find P (alter f i l) = fst <$> list_find P l.
Proof.
  intros Hf. revert i. induction l as [|x l IH]; intros [|i]; simpl; try done.
  - destruct (decide (P (f x))) as [Hp|Hp], (decide (P x)) as [Hq|Hq]; try done.
    + exfalso. apply Hq. by apply Hf.
    + exfalso. apply Hp. by apply Hf.
  - destruct (decide (P x)); [done|].
    assert (Hs : ∀ o : option (nat * A),
               fst <$> (prod_map S id <$> o) = S <$> (fst <$> o))
      by (by intros [[? ?]|]).
    rewrite !Hs. f_equal. apply IH.
Qed.

Lemma list_find_lookup {A} (P : A → Prop) `{!∀ x, Decision (P x)} (l : list A) i x :
  list_find P l = Some (i, x) → l !! i = Some x.
Proof. intros Hf. by apply list_find_Some in Hf as (? & _). Qed.

Lemma string_app_assoc' (a b c : string) : (a +:+ b) +:+ c = a +:+ b +:+ c.
Proof.
  induction a as [|ch a IH]; [done|].
  change (String ch ((a +:+ b) +:+ c) = String ch (a +:+ b +:+ c)).
  by rewrite IH.
Qed.

(** ** Switch vectors *)

Module SwitchFacts.
Import Switch.

Lemma apply_loop_fields svp batch svp' :
  apply_loop svp batch = inl svp' →
  svp_device svp' = svp_device svp ∧ svp_name svp' = svp_name svp ∧
  svp_label svp' = svp_label svp ∧ svp_p svp' = svp_p svp ∧
  svp_r svp' = svp_r svp ∧ svp_s svp' = svp_s svp ∧
  set_s ISS_OFF <$> svp_sp svp' = set_s ISS_OFF <$> svp_sp svp.
Proof.
  revert svp. induction batch as [|[name st] rest IH]; intros svp; simpl.
  - intros [= <-]. done.
  - destruct (IUFindSwitch svp name) as [i|]; [|done].
    intros Hl. apply IH in Hl as (-> & -> & -> & -> & -> & -> & ->). simpl.
    repeat split; try done.
    apply list_eq. intros j. rewrite !list_lookup_fmap.
    destruct (decide (i = j)) as [->|Hne].
    + rewrite list_lookup_alter_eq. by destruct (svp_sp svp !! j).
    + by rewrite list_lookup_alter_ne.
Qed.

Lemma invalid_state_msg_contains label pname count :
  contains (invalid_state_msg label pname count) "No switch is on" ∨
  contains (invalid_state_msg label pname count) "Too many switches are on".
Proof.
  unfold invalid_state_msg.
  destruct (decide (count = 0%nat)); [left|right].
  all: eexists ("Error: invalid state switch for property " +:+ label +:+ " ("
                +:+ pname +:+ "). "), ".".
  all: by rewrite !string_app_assoc'.
Qed.


Lemma restored_lookup svp svp1 (so : option nat) i sp :
  set_s ISS_OFF <$> svp_sp svp1 = set_s ISS_OFF <$> svp_sp svp →
  svp_sp svp !! i = Some sp →
  svp_sp (match so with
          | Some j => store_s (IUResetSwitch svp1) j ISS_ON
          | None => IUResetSwitch svp1
          end) !! i
  = Some (set_s (if decide (so = Some i) then ISS_ON else ISS_OFF) sp).
Proof.
  intros Heq Hi.
  assert (Hoff : (set_s ISS_OFF <$> svp_sp svp1) !! i = Some (set_s ISS_OFF sp))
    by (by rewrite Heq, list_lookup_fmap, Hi).
  destruct so as [j|]; simpl.
  - destruct (decide (j = i)) as [->|Hne].
    + rewrite list_lookup_alter_eq, Hoff. by rewrite decide_True.
    + rewrite list_lookup_alter_ne, Hoff by done.
      rewrite decide_False; [done|congruence].
  - by rewrite Hoff.
Qed.

End SwitchFacts.

(** X23. Under the rule OneOfMany, a call of [IUUpdateSwitch] that returns 0
    leaves exactly one member On. A batch whose names all resolve and which,
    applied to the cleared vector, leaves a number of members On other than
    one is rejected with -1: the member that was On before the call (the one
    [IUFindOnSwitch] finds) is On again, every other member is Off, the
    state is Idle, and the one element written carries a message containing
    "No switch is on" or "Too many switches are on". *)
Theorem IUUpdateSwitch_one_of_many svp batch :
  svp_r svp = ISR_1OFMANY →
  let r := Switch.IUUpdateSwitch svp batch in
  (r.1.1 = 0 → Switch.t_count r.1.2 = 1%nat) ∧
  (∀ svp',
     Switch.apply_loop (Switch.IUResetSwitch svp) batch = inl svp' →
     Switch.t_count svp' ≠ 1%nat →
     r.1.1 = -1 ∧ svp_s r.1.2 = IPS_IDLE ∧
     length (svp_sp r.1.2) = length (svp_sp svp) ∧
     (∀ i sp, svp_sp svp !! i = Some sp →
        svp_sp r.1.2 !! i
        = Some (Switch.set_s
                  (if decide (Switch.IUFindOnSwitch svp = Some i) then ISS_ON else ISS_OFF)
                  sp)) ∧
     ∃ message,
       r.2 = [EvSetSwitch r.1.2 (Some message)] ∧
       (contains message "No switch is on" ∨
        contains message "Too many switches are on")).
Proof.
  intros Hr r. subst r. unfold Switch.IUUpdateSwitch.
  destruct (decide (svp_r svp = ISR_1OFMANY)) as [_|?]; [|done].
  destruct (Switch.apply_loop (Switch.IUResetSwitch svp) batch) as [svp1|[svp1 name]] eqn:Hl.
  - pose proof (SwitchFacts.apply_loop_fields _ _ _ Hl) as (_ & _ & _ & _ & Hr1 & _ & Hsp).
    simpl in Hr1, Hsp. rewrite decide_True by congruence.
    destruct (decide (Switch.t_count svp1 ≠ 1%nat)) as [Hc|Hc]; simpl.
    + split; [done|].
      intros svp' [= <-] _. split; [done|]. split; [done|].
      assert (Hoff : Switch.set_s ISS_OFF <$> svp_sp svp1
                     = Switch.set_s ISS_OFF <$> svp_sp svp).
      { rewrite Hsp. rewrite <- list_fmap_compose. by apply list_fmap_ext. }
      assert (Hlook := SwitchFacts.restored_lookup svp svp1 (Switch.IUFindOnSwitch svp)).
      split; [|split].
      * destruct (Switch.IUFindOnSwitch svp); simpl.
        all: rewrite ?length_alter, length_fmap;
          by rewrite <- (length_fmap (Switch.set_s ISS_OFF) (svp_sp svp1)), Hoff, length_fmap.
      * intros i sp Hi. by apply Hlook.
      * eexists. split; [done|]. apply SwitchFacts.invalid_state_msg_contains.
    + split; [intros _; by apply dec_stable|].
      intros svp' [= <-] Hc'. done.
  - simpl. split; [done|]. intros svp' [=].
Qed.

Lemma IUUpdateSwitch_one_of_many_witness :
  svp_r Sample.connection_switches = ISR_1OFMANY ∧
  Switch.t_count (Switch.IUUpdateSwitch Sample.connection_switches [("B", ISS_ON)]).1.2 = 1%nat ∧
  (Switch.IUUpdateSwitch Sample.connection_switches
     [("A", ISS_OFF); ("B", ISS_OFF); ("C", ISS_OFF)]).1.1 = -1.
Proof.
  split; [reflexivity|]. split.
  - apply (IUUpdateSwitch_one_of_many Sample.connection_switches [("B", ISS_ON)] eq_refl).
    reflexivity.
  - eapply (IUUpdateSwitch_one_of_many Sample.connection_switches
              [("A", ISS_OFF); ("B", ISS_OFF); ("C", ISS_OFF)] eq_refl).
    + reflexivity.
    + vm_compute. discriminate.
Defined.

(** ** Number vectors *)

Module NumberFacts.
Section WithExtern.
Context `{Extern}.
Import Number NumberSpec.

Lemma find_alter nvp v i name :
  fst <$> IUFindNumber (with_np nvp (alter (set_value v) i (nvp_np nvp))) name
  = fst <$> IUFindNumber nvp name.
Proof. unfold IUFindNumber. simpl. by apply list_find_alter_fst. Qed.

Lemma assigned_ext nvp nvp' batch j :
  (∀ name, fst <$> IUFindNumber nvp' name = fst <$> IUFindNumber nvp name) →
  assigned nvp' batch j = assigned nvp batch j.
Proof.
  intros Hext. induction batch as [|[name v] rest IH]; simpl; [done|].
  by rewrite IH, Hext.
Qed.

(** What the first loop decides. *)
Lemma check_loop_spec nvp batch :
  match check_loop nvp batch with
  | None => Forall (acceptable nvp) batch
  | Some (s, message) =>
      ∃ pre name v post,
        batch = pre ++ (name, v) :: post ∧ Forall (acceptable nvp) pre ∧
        ((∃ i np, IUFindNumber nvp name = Some (i, np) ∧ out_of_range v np = true ∧
                  s = IPS_ALERT ∧ message = invalid_range_msg np v) ∨
         (IUFindNumber nvp name = None ∧ s = IPS_IDLE ∧
          message = not_member_msg name (nvp_label nvp) (nvp_name nvp)))
  end.
Proof.
  induction batch as [|[name v] rest IH]; simpl; [done|].
  destruct (IUFindNumber nvp name) as [[i np]|] eqn:Hf.
  - destruct (out_of_range v np) eqn:Hr.
    + exists [], name, v, rest. split; [done|]. split; [done|]. left. by exists i, np.
    + destruct (check_loop nvp rest) as [[s message]|].
      * destruct IH as (pre & name' & v' & post & -> & Hpre & Hcase).
        exists ((name, v) :: pre), name', v', post. split; [done|]. split; [|done].
        constructor; [|done]. by exists i, np.
      * constructor; [|done]. by exists i, np.
  - exists [], name, v, rest. split; [done|]. split; [done|]. by right.
Qed.

(** What the second loop stores, member by member. *)
Lemma store_loop_lookup nvp batch :
  Forall (acceptable nvp) batch →
  nvp_s (store_loop nvp batch) = nvp_s nvp ∧
  length (nvp_np (store_loop nvp batch)) = length (nvp_np nvp) ∧
  ∀ i np, nvp_np nvp !! i = Some np →
    nvp_np (store_loop nvp batch) !! i
    = Some (from_option (λ v, set_value v np) np (assigned nvp batch i)).
Proof.
  revert nvp. induction batch as [|[name v] rest IH]; intros nvp Hall; simpl.
  { done. }
  apply Forall_cons in Hall as [(j & npj & Hj & _) Hall]. simpl in Hj.
  rewrite Hj. simpl.
  set (nvp1 := with_np nvp (alter (set_value v) j (nvp_np nvp))).
  assert (Hext : ∀ nm, fst <$> IUFindNumber nvp1 nm = fst <$> IUFindNumber nvp nm)
    by (intros nm; apply find_alter).
  assert (Hall1 : Forall (acceptable nvp1) rest).
  { eapply Forall_impl; [exact Hall|]. intros [nm w] (k & npk & Hk & Hrange).
    simpl in *. pose proof (Hext nm) as He. rewrite Hk in He. simpl in He.
    destruct (IUFindNumber nvp1 nm) as [[k' npk']|] eqn:Hk'; [|done].
    simpl in He. injection He as ->.
    exists k, npk'. split; [done|].
    apply list_find_lookup in Hk, Hk'. unfold nvp1 in Hk'. simpl in Hk'.
    destruct (decide (j = k)) as [->|Hne].
    - rewrite list_lookup_alter_eq, Hk in Hk'. simpl in Hk'. by injection Hk' as <-.
    - rewrite list_lookup_alter_ne, Hk in Hk' by done. by injection Hk' as <-. }
  destruct (IH nvp1 Hall1) as (Hs & Hlen & Hlook).
  split; [by rewrite Hs|]. split.
  { rewrite Hlen. unfold nvp1. simpl. by rewrite length_alter. }
  intros i np Hi.
  pose proof (assigned_ext nvp nvp1 rest i Hext) as Ha.
  destruct (decide (j = i)) as [->|Hne].
  - rewrite (Hlook i (set_value v np)).
    2:{ unfold nvp1. simpl. by rewrite list_lookup_alter_eq, Hi. }
    rewrite Ha. destruct (assigned nvp rest i); simpl; [done|].
    by rewrite decide_True.
  - rewrite (Hlook i np).
    2:{ unfold nvp1. simpl. by rewrite list_lookup_alter_ne. }
    rewrite Ha. destruct (assigned nvp rest i); simpl; [done|].
    rewrite decide_False; [done|]. simpl. congruence.
Qed.

End WithExtern.
End NumberFacts.

(** C4, as the code has it. For every number vector and batch,
    [IUUpdateNumber] does one of two things. Either every entry is acceptable
    (its name resolves, its value is not outside the member's range): it
    returns 0, writes nothing, leaves the state alone and gives each member
    the last value the batch has for it. Or some entry is not: it returns -1
    and every member keeps its value; the state becomes Alert when the first
    such entry names a member with the value out of range, and Idle when it
    names no member. *)
Theorem IUUpdateNumber_all_or_nothing `{Extern} nvp batch :
  let r := Number.IUUpdateNumber nvp batch in
  (Forall (NumberSpec.acceptable nvp) batch ∧
   r.1.1 = 0 ∧ r.2 = [] ∧ nvp_s r.1.2 = nvp_s nvp ∧
   length (nvp_np r.1.2) = length (nvp_np nvp) ∧
   ∀ i np, nvp_np nvp !! i = Some np →
     nvp_np r.1.2 !! i
     = Some (from_option (λ v, Number.set_value v np) np
               (NumberSpec.assigned nvp batch i)))
  ∨
  (∃ pre name v post,
     batch = pre ++ (name, v) :: post ∧ Forall (NumberSpec.acceptable nvp) pre ∧
     r.1.1 = -1 ∧ nvp_np r.1.2 = nvp_np nvp ∧
     ((∃ i np, Number.IUFindNumber nvp name = Some (i, np) ∧
               Number.out_of_range v np = true ∧ nvp_s r.1.2 = IPS_ALERT) ∨
      (Number.IUFindNumber nvp name = None ∧ nvp_s r.1.2 = IPS_IDLE))).
Proof.
  intros r. subst r. unfold Number.IUUpdateNumber.
  pose proof (NumberFacts.check_loop_spec nvp batch) as Hc.
  destruct (Number.check_loop nvp batch) as [[s message]|]; simpl.
  - right. destruct Hc as (pre & name & v & post & -> & Hpre & Hcase).
    exists pre, name, v, post. split; [done|]. split; [done|].
    split; [done|]. split; [done|].
    destruct Hcase as [(i & np & Hf & Hr & -> & _)|(Hf & -> & _)].
    + left. by exists i, np.
    + by right.
  - left. destruct (NumberFacts.store_loop_lookup nvp batch Hc) as (Hs & Hlen & Hlook).
    done.
Qed.

(** A value inside [[min, max]] in the sense of [<=] is not out of range. *)
Lemma in_range_not_out_of_range v np :
  PrimFloat.leb (n_min np) v = true → PrimFloat.leb v (n_max np) = true →
  Number.out_of_range v np = false.
Proof.
  assert (Hanti : ∀ a b, PrimFloat.leb a b = true → PrimFloat.ltb b a = false).
  { intros a b. rewrite leb_spec, ltb_spec. unfold SFleb, SFltb.
    assert (Hc : ∀ x y, SFcompare x y = option_map CompOpp (SFcompare y x)).
    { intros [sx| sx | |sx mx ex] [sy|sy| |sy my ey]; simpl; try done;
        try (by destruct sx); try (by destruct sy); try (by destruct sx, sy).
      pose proof (Pos.compare_antisym my mx) as Hm. unfold Pos.compare in Hm.
      destruct sx, sy; simpl; try done.
      all: rewrite (Z.compare_antisym ey ex); destruct (ey ?= ex)%Z; simpl; try done.
      all: rewrite Hm; by destruct (Pos.compare_cont Eq my mx). }
    rewrite (Hc (Prim2SF b) (Prim2SF a)).
    by destruct (SFcompare (Prim2SF a) (Prim2SF b)) as [[]|]. }
  intros Hlo Hhi. unfold Number.out_of_range.
  by rewrite (Hanti _ _ Hlo), (Hanti _ _ Hhi).
Qed.

Example IUUpdateNumber_scenario_4 :
  @Number.IUUpdateNumber Sample.extern Sample.exposure [("EXP", 99%float)]
  = (-1, Number.with_s Sample.exposure IPS_ALERT,
     [EvSetNumber (Number.with_s Sample.exposure IPS_ALERT)
        (Some "Error: Invalid range for Exp (EXP). Valid range is from 0 to 10. Requested value is 99")]).
Proof. vm_compute. reflexivity. Qed.

(** C4, as stated, fails: the value 99 is out of the range of [EXP], yet the
    call returns -1 with the state Idle, not Alert, because the name before
    it resolves to no member. *)
Lemma IUUpdateNumber_absent_name_is_idle :
  let r := @Number.IUUpdateNumber Sample.extern Sample.exposure
             [("GAIN", 1%float); ("EXP", 99%float)] in
  @Number.IUFindNumber Sample.exposure "GAIN" = None ∧
  (∃ i np, Number.IUFindNumber Sample.exposure "EXP" = Some (i, np) ∧
           Number.out_of_range 99%float np = true) ∧
  r.1.1 = -1 ∧ nvp_s r.1.2 = IPS_IDLE ∧ nvp_s r.1.2 ≠ IPS_ALERT.
Proof.
  split; [reflexivity|]. split.
  { eexists _, _. split; [reflexivity|]. vm_compute. reflexivity. }
  split; [reflexivity|]. split; [reflexivity|]. vm_compute. discriminate.
Qed.

(** ** The two-pass applicators and the one that is not *)

Lemma IUUpdateNumber_absent_unchanged `{Extern} nvp batch name :
  name ∈ batch.*1 → Number.IUFindNumber nvp name = None →
  (Number.IUUpdateNumber nvp batch).1.1 = -1 ∧
  nvp_np (Number.IUUpdateNumber nvp batch).1.2 = nvp_np nvp.
Proof.
  intros Hin Hnone. unfold Number.IUUpdateNumber.
  pose proof (NumberFacts.check_loop_spec nvp batch) as Hall.
  destruct (Number.check_loop nvp batch) as [[s message]|]; [done|].
  exfalso. apply list_elem_of_fmap in Hin as ([nm v] & -> & Hin).
  rewrite Forall_forall in Hall. destruct (Hall _ Hin) as (i & np & Hf & _).
  simpl in *. congruence.
Qed.

Lemma IUUpdateText_absent_unchanged tvp batch name :
  name ∈ batch.*1 → Text.IUFindText tvp name = None →
  (Text.IUUpdateText tvp batch).1.1 = -1 ∧
  tvp_tp (Text.IUUpdateText tvp batch).1.2 = tvp_tp tvp.
Proof.
  intros Hin Hnone. unfold Text.IUUpdateText.
  destruct (Text.check_loop tvp batch) as [nm|] eqn:Hc; [done|]. exfalso.
  induction batch as [|[nm text] rest IH]; simpl in *.
  - by apply elem_of_nil in Hin.
  - destruct (Text.IUFindText tvp nm) eqn:Hf; [|done].
    apply elem_of_cons in Hin as [->|Hin]; [congruence|]. by apply IH.
Qed.

Lemma IUUpdateBLOB_absent_unchanged uid bvp batch name :
  name ∈ Blob.e_name <$> batch → Blob.IUFindBLOB bvp name = None →
  (Blob.IUUpdateBLOB uid bvp batch).1.1.1 = -1 ∧
  bvp_bp (Blob.IUUpdateBLOB uid bvp batch).1.1.2 = bvp_bp bvp.
Proof.
  intros Hin Hnone. unfold Blob.IUUpdateBLOB.
  destruct (Blob.check_loop bvp batch) as [nm|] eqn:Hc; [done|]. exfalso.
  induction batch as [|e rest IH]; simpl in *.
  - by apply elem_of_nil in Hin.
  - destruct (Blob.IUFindBLOB bvp (Blob.e_name e)) eqn:Hf; [|done].
    apply elem_of_cons in Hin as [->|Hin]; [congruence|]. by apply IH.
Qed.

(** C3 does not hold of [IUUpdateSwitch], which has a single loop: it stores
    each state as soon as the name is found. With [FOCUS] not a member, the
    batch [RA := On; FOCUS := On] returns -1 and leaves [RA] switched On;
    under OneOfMany, the batch [FOCUS := On] returns -1 and leaves every
    member Off, the member that was On not restored. *)
Theorem IUUpdateSwitch_absent_name_partial_update :
  let r := Switch.IUUpdateSwitch Sample.tracking_switches [("RA", ISS_ON); ("FOCUS", ISS_ON)] in
  let r1 := Switch.IUUpdateSwitch Sample.connection_switches [("FOCUS", ISS_ON)] in
  Switch.IUFindSwitch Sample.tracking_switches "FOCUS" = None ∧
  r.1.1 = -1 ∧
  svp_sp Sample.tracking_switches = [mkISwitch "RA" "ra" ISS_OFF; mkISwitch "DEC" "dec" ISS_OFF] ∧
  svp_sp r.1.2 = [mkISwitch "RA" "ra" ISS_ON; mkISwitch "DEC" "dec" ISS_OFF] ∧
  Switch.IUFindSwitch Sample.connection_switches "FOCUS" = None ∧
  r1.1.1 = -1 ∧
  Switch.IUFindOnSwitch Sample.connection_switches = Some 0%nat ∧
  Switch.t_count r1.1.2 = 0%nat.
Proof. vm_compute. repeat split; reflexivity. Qed.

(** C5 does not hold of [IUUpdateSwitch] when a name of the batch is not a
    member. Under OneOfMany with [A] On, the batch [B := On; C := On;
    FOCUS := On] would leave two members On; it is turned away with -1, but
    at the name that is not a member, before the count of members On is
    looked at: [A] is not switched On again, [B] and [C] stay On, and the
    message is the one about the member, not "Too many switches are on".
    The batch [FOCUS := On], which would leave no member On, likewise ends
    with every member Off. It is the early return of C3 once more. *)
Theorem IUUpdateSwitch_one_of_many_not_restored :
  let r := Switch.IUUpdateSwitch Sample.connection_switches
             [("B", ISS_ON); ("C", ISS_ON); ("FOCUS", ISS_ON)] in
  let r1 := Switch.IUUpdateSwitch Sample.connection_switches [("FOCUS", ISS_ON)] in
  svp_r Sample.connection_switches = ISR_1OFMANY ∧
  Switch.IUFindOnSwitch Sample.connection_switches = Some 0%nat ∧
  r.1.1 = -1 ∧
  svp_s r.1.2 = IPS_IDLE ∧
  svp_sp r.1.2
  = [mkISwitch "A" "a" ISS_OFF; mkISwitch "B" "b" ISS_ON; mkISwitch "C" "c" ISS_ON] ∧
  r.2 = [EvSetSwitch r.1.2
           (Some "Error: FOCUS is not a member of Connection (CONNECTION) property.")] ∧
  r1.1.1 = -1 ∧
  svp_sp r1.1.2
  = [mkISwitch "A" "a" ISS_OFF; mkISwitch "B" "b" ISS_OFF; mkISwitch "C" "c" ISS_OFF] ∧
  r1.2 = [EvSetSwitch r1.1.2
            (Some "Error: FOCUS is not a member of Connection (CONNECTION) property.")].
Proof. vm_compute. repeat split; reflexivity. Qed.

(** ** BLOB pacing *)

Module PingFacts.
Import Ping.

Lemma wrap_long_small z : - 2 ^ 63 ≤ z < 2 ^ 63 → wrap_long z = z.
Proof. intros Hz. unfold wrap_long. rewrite Z.mod_small; lia. Qed.

Lemma prefix_cons_cases {A} (out : list A) x l :
  out `prefix_of` x :: l → out = [] ∨ ∃ out', out = x :: out' ∧ out' `prefix_of` l.
Proof.
  destruct out as [|y out]; [by left|]. intros Hp. right.
  pose proof (prefix_cons_inv_1 _ _ _ _ Hp) as ->.
  apply prefix_cons_inv_2 in Hp. by exists out.
Qed.

Lemma prefix_app_cases' {A} (out a b : list A) :
  out `prefix_of` a ++ b →
  out `prefix_of` a ∨ ∃ out', out = a ++ out' ∧ out' `prefix_of` b.
Proof.
  revert out. induction a as [|x a IH]; intros out Hp; simpl in *.
  - right. by exists out.
  - apply prefix_cons_cases in Hp as [->|(out' & -> & Hp)].
    + left. apply prefix_nil.
    + destruct (IH _ Hp) as [Ha|(o & -> & Hb)].
      * left. by apply prefix_cons.
      * right. by exists o.
Qed.

Lemma start_length uid : (length (start uid) ≤ 1)%nat.
Proof. unfold start. case_decide; simpl; lia. Qed.

Lemma filter_self (u : string) : filter (λ p, p ≠ u) [u] = [].
Proof. rewrite filter_cons, decide_False; [done|]. by intros ?. Qed.

Lemma call_pending uid bvp message :
  0 ≤ uid → uid + 1 < 2 ^ 63 →
  (IDSetBLOB uid bvp message).1 = uid + 1 ∧
  fold_left pending_step (IDSetBLOB uid bvp message).2 (start uid) = start (uid + 1) ∧
  ∀ out, out `prefix_of` (IDSetBLOB uid bvp message).2 →
         (length (fold_left pending_step out (start uid)) ≤ 1)%nat.
Proof.
  intros H0 Hlt. unfold IDSetBLOB, IDSetBLOBVA. simpl.
  rewrite wrap_long_small by lia.
  assert (Hs : start (uid + 1) = [BLOB_PING_PATTERN (uid + 1)]).
  { unfold start. rewrite decide_True; [done|lia]. }
  split; [done|]. rewrite Hs. unfold start. destruct (decide (uid ≠ 0)); simpl.
  - rewrite filter_self. simpl. split; [done|].
    intros out Hp.
    repeat (apply prefix_cons_cases in Hp as [->|(? & -> & Hp)];
            [simpl; rewrite ?filter_self; simpl; lia|]).
    apply prefix_nil_inv in Hp as ->. simpl. rewrite filter_self. simpl. lia.
  - split; [done|].
    intros out Hp.
    repeat (apply prefix_cons_cases in Hp as [->|(? & -> & Hp)]; [simpl; lia|]).
    apply prefix_nil_inv in Hp as ->. simpl. lia.
Qed.

Lemma call_events_eq uid bvp message :
  0 ≤ uid → uid + 1 < 2 ^ 63 →
  (IDSetBLOB uid bvp message).2 = call_events (Z.to_nat uid) (bvp, message).
Proof.
  intros H0 Hlt. unfold IDSetBLOB, IDSetBLOBVA. simpl.
  rewrite wrap_long_small by lia.
  destruct (Z.to_nat uid) as [|k] eqn:Hk.
  - assert (uid = 0) as -> by lia. done.
  - rewrite decide_True by lia. simpl. unfold BLOB_PING_PATTERN.
    by replace (Z.of_nat (S k)) with uid by lia.
Qed.

Lemma run_spec calls : ∀ uid,
  0 ≤ uid → uid + Z.of_nat (length calls) < 2 ^ 63 →
  (run uid calls).1 = uid + Z.of_nat (length calls) ∧
  (run uid calls).2 = sequence_events (Z.to_nat uid) calls ∧
  ∀ out, out `prefix_of` (run uid calls).2 →
         (length (fold_left pending_step out (start uid)) ≤ 1)%nat.
Proof.
  induction calls as [|[bvp message] rest IH]; intros uid H0 Hlt;
    cbn [length] in Hlt; cbn [run sequence_events length].
  - simpl. split; [lia|]. split; [done|]. intros out ->%prefix_nil_inv. apply start_length.
  - destruct (call_pending uid bvp message) as (Huid & Hfull & Hpre); [lia..|].
    pose proof (call_events_eq uid bvp message) as Hev.
    destruct (IDSetBLOB uid bvp message) as [uid1 out1]. simpl in *. subst uid1.
    destruct (IH (uid + 1)) as (Hfin & Hseq & Hrest); [lia..|].
    destruct (run (uid + 1) rest) as [uid' out']. simpl in *.
    split; [lia|]. split.
    + rewrite Hev, Hseq by lia. by replace (Z.to_nat (uid + 1)) with (S (Z.to_nat uid)) by lia.
    + intros out [Hp|(o & -> & Hp)]%prefix_app_cases'; [by apply Hpre|].
      rewrite fold_left_app, Hfull. by apply Hrest.
Qed.

End PingFacts.

(** C6. For every sequence of [IDSetBLOB] calls short enough for the counter
    not to overflow, starting from the initial counter 0: the counter ends at
    the number of calls (one increment per call); the events written are
    those of the spec, call by call (the first call writes its
    [setBLOBVector] and [pingRequest "SetBLOB/1"]; call number [k >= 1] first
    waits for the reply to "SetBLOB/k", then writes its [setBLOBVector] and
    [pingRequest "SetBLOB/k+1"]); and at every point of the sequence at most
    one ping id is pending. *)
Theorem IDSetBLOB_pacing (calls : list (IBLOBVectorProperty * option string)) :
  Z.of_nat (length calls) < 2 ^ 63 →
  let r := Ping.run 0 calls in
  r.1 = Z.of_nat (length calls) ∧
  r.2 = Ping.sequence_events 0 calls ∧
  ∀ out, out `prefix_of` r.2 → (length (Ping.pending out) ≤ 1)%nat.
Proof.
  intros Hlen r. subst r.
  destruct (PingFacts.run_spec calls 0) as (Hfin & Hseq & Hpre); [lia..|].
  split; [by rewrite Hfin|]. split; [done|]. exact Hpre.
Qed.

Lemma IDSetBLOB_pacing_witness :
  Z.of_nat (length [(Sample.no_blob, @None string); (Sample.no_blob, None)]) < 2 ^ 63 ∧
  (Ping.run 0 [(Sample.no_blob, None); (Sample.no_blob, None)]).2
  = [EvSetBLOB Sample.no_blob None; EvPingRequest "SetBLOB/1";
     EvWaitPingReply "SetBLOB/1";
     EvSetBLOB Sample.no_blob None; EvPingRequest "SetBLOB/2"].
Proof.
  split; [reflexivity|].
  exact (proj1 (proj2 (IDSetBLOB_pacing [(Sample.no_blob, None); (Sample.no_blob, None)] eq_refl))).
Defined.

(** ** The sanity cache *)

Module RegistryFacts.

Lemma rosc_find_add name dev p ptr ty propCache :
  is_Some (rosc_find name dev (rosc_add name dev p ptr ty propCache)).
Proof.
  unfold rosc_find, rosc_add.
  apply list_find_elem_of with (x := mkROSC name dev p ptr ty); [|done].
  apply elem_of_app. right. apply list_elem_of_singleton. done.
Qed.

(** Once a name and device are cached, they stay cached. *)
Lemma rosc_add_unique_registered name dev p ptr ty propCache :
  is_Some (rosc_find name dev (rosc_add_unique name dev p ptr ty propCache)).
Proof.
  unfold rosc_add_unique.
  destruct (rosc_find name dev propCache) eqn:Hf; [by rewrite Hf|].
  apply rosc_find_add.
Qed.

(** [register_once] is idempotent: defining the same name and device again,
    with whatever permission, address and type, leaves the cache as it is. *)
Lemma rosc_add_unique_idempotent name dev p ptr ty p' ptr' ty' propCache :
  rosc_add_unique name dev p' ptr' ty' (rosc_add_unique name dev p ptr ty propCache)
  = rosc_add_unique name dev p ptr ty propCache.
Proof.
  unfold rosc_add_unique at 1.
  by destruct (rosc_add_unique_registered name dev p ptr ty propCache) as [sc ->].
Qed.

(** Names that fit [ROSC.propName] keep the cache within bounds. *)
Lemma rosc_add_unique_fits (MAXINDINAME : nat) name dev p ptr ty propCache :
  (String.length name < MAXINDINAME)%nat →
  rosc_fits MAXINDINAME propCache →
  rosc_fits MAXINDINAME (rosc_add_unique name dev p ptr ty propCache).
Proof.
  intros Hname Hfits. unfold rosc_add_unique.
  destruct (rosc_find name dev propCache); [done|].
  apply Forall_app. split; [done|]. by constructor.
Qed.

(** An entry already cached keeps deciding: the first match is unchanged by a
    later definition. *)
Lemma rosc_find_add_unique_stable name dev name' dev' p ptr ty propCache i sc :
  rosc_find name dev propCache = Some (i, sc) →
  rosc_find name dev (rosc_add_unique name' dev' p ptr ty propCache) = Some (i, sc).
Proof.
  intros Hf. unfold rosc_add_unique.
  destruct (rosc_find name' dev' propCache); [done|].
  unfold rosc_find, rosc_add in *. apply list_find_app_Some. by left.
Qed.

End RegistryFacts.

(** ** The dispatcher *)

Module DispatchFacts.
Section WithExtern.
Context `{Extern}.
Import Dispatch.

Lemma substring_all (s : string) (m : nat) :
  (String.length s ≤ m)%nat → String.substring 0 m s = s.
Proof.
  revert m. induction s as [|c s IH]; intros [|m] Hm; simpl in *; try done; try lia.
  f_equal. apply IH. lia.
Qed.

Lemma snprintf_fits (size : nat) (s : string) :
  (String.length s < size)%nat → snprintf size s = s.
Proof. intros Hs. unfold snprintf. apply substring_all. lia. Qed.

Lemma length_app (a b : string) :
  String.length (a +:+ b) = (String.length a + String.length b)%nat.
Proof.
  induction a as [|c a IH]; [done|].
  change (S (String.length (a +:+ b)) = S (String.length a + String.length b)).
  by rewrite IH.
Qed.

Lemma new_tag_cases rtag :
  rtag ∈ new_tags →
  rtag = "newNumberVector" ∨ rtag = "newSwitchVector" ∨ rtag = "newTextVector"
  ∨ rtag = "newBLOBVector".
Proof.
  unfold new_tags. rewrite !elem_of_cons, elem_of_nil. tauto.
Qed.

Lemma new_tag_not_get rtag : rtag ∈ new_tags → rtag ≠ "getProperties".
Proof. intros [->|[->|[->| ->]]]%new_tag_cases; done. Qed.

Lemma new_tag_not_snoop rtag : rtag ∈ new_tags → rtag ∉ snoop_tags.
Proof.
  intros [->|[->|[->| ->]]]%new_tag_cases Hs;
    apply (bool_decide_pack _) in Hs; vm_compute in Hs; done.
Qed.

Lemma is_ro_find name dev propCache i sc :
  rosc_find name dev propCache = Some (i, sc) →
  is_ro name dev propCache = bool_decide (perm sc = IP_RO).
Proof.
  unfold rosc_find. revert i. induction propCache as [|sc' rest IH]; intros i; simpl; [done|].
  destruct (decide (name = propName sc' ∧ dev = devName sc')) as [[-> ->]|Hne].
  - intros [= <- <-]. by rewrite decide_True.
  - rewrite decide_False by (intros [<- <-]; by apply Hne).
    destruct (list_find _ rest) as [[j sc'']|] eqn:Hf; [|done].
    intros [= <- <-]. by apply (IH j).
Qed.

Lemma rosc_find_name name dev propCache i sc :
  rosc_find name dev propCache = Some (i, sc) →
  propCache !! i = Some sc ∧ propName sc = name ∧ devName sc = dev.
Proof.
  unfold rosc_find. intros (Hi & [-> ->] & _)%list_find_Some. done.
Qed.

Lemma echo_no_callback verbose root :
  Forall (λ e, is_callback e = false) (echo verbose root).
Proof. destruct verbose; repeat constructor. Qed.

(** The three ways a peer write is turned away before its tag is looked at. *)
Lemma dispatch_missing verbose me mem propCache root msg why :
  tagXMLEle root ≠ "getProperties" → tagXMLEle root ∉ snoop_tags →
  crackDN root = inl why →
  dispatch verbose me mem propCache root msg
  = mkResult (Return (-1)) why propCache (echo verbose root).
Proof.
  intros Hget Hsnoop Hc. unfold dispatch.
  rewrite decide_False, bool_decide_eq_false_2 by done. by rewrite Hc.
Qed.

Lemma crackDN_both root dev name :
  findXMLAtt root "device" = Some dev → findXMLAtt root "name" = Some name →
  crackDN root = inr (dev, name).
Proof. intros Hd Hn. unfold crackDN. by rewrite Hd, Hn. Qed.

Lemma dispatch_not_defined verbose me mem propCache root msg dev name :
  tagXMLEle root ≠ "getProperties" → tagXMLEle root ∉ snoop_tags →
  crackDN root = inr (dev, name) →
  rosc_find name dev propCache = None →
  dispatch verbose me mem propCache root msg
  = mkResult (Return (-1))
      (snprintf MAXRBUF ("Property " +:+ name +:+ " is not defined in " +:+ dev +:+ "."))
      propCache (echo verbose root).
Proof.
  intros Hget Hsnoop Hc Hf. unfold dispatch.
  rewrite decide_False, bool_decide_eq_false_2 by done. by rewrite Hc, Hf.
Qed.

Lemma dispatch_ro verbose me mem propCache root msg dev name i sc :
  tagXMLEle root ≠ "getProperties" → tagXMLEle root ∉ snoop_tags →
  crackDN root = inr (dev, name) →
  rosc_find name dev propCache = Some (i, sc) → perm sc = IP_RO →
  dispatch verbose me mem propCache root msg
  = mkResult (Return (-1))
      (snprintf MAXRBUF ("Cannot set read-only property " +:+ name))
      propCache (echo verbose root).
Proof.
  intros Hget Hsnoop Hc Hf Hp. unfold dispatch.
  rewrite decide_False, bool_decide_eq_false_2 by done. rewrite Hc, Hf.
  by rewrite (is_ro_find _ _ _ _ _ Hf), bool_decide_eq_true_2.
Qed.

Lemma dispatch_unknown verbose me mem propCache root msg dev name i sc :
  tagXMLEle root ≠ "getProperties" → tagXMLEle root ∉ snoop_tags →
  tagXMLEle root ∉ new_tags →
  crackDN root = inr (dev, name) →
  rosc_find name dev propCache = Some (i, sc) → perm sc ≠ IP_RO →
  dispatch verbose me mem propCache root msg
  = mkResult (Return 1) ("Unknown command: " +:+ tagXMLEle root)
      propCache (echo verbose root).
Proof.
  intros Hget Hsnoop Hnew Hc Hf Hp. unfold dispatch.
  rewrite decide_False, bool_decide_eq_false_2 by done. rewrite Hc, Hf.
  rewrite (is_ro_find _ _ _ _ _ Hf), bool_decide_eq_false_2 by done.
  unfold new_tags in Hnew. rewrite !elem_of_cons, elem_of_nil in Hnew.
  rewrite !decide_False; [done|tauto..].
Qed.

End WithExtern.
End DispatchFacts.

Section DispatchTheorems.
Context `{Extern}.
Import Dispatch.

(** C1. An inbound [new<Kind>Vector] element whose device and name are cached
    with permission read-only makes [dispatch] return -1 with "Cannot set
    read-only property <name>" in [msg], and no driver callback is invoked.
    (Cached names fit the [MAXINDINAME] bytes of [ROSC.propName], so the
    message fits [MAXRBUF].) *)
Theorem dispatch_read_only_rejected (MAXINDINAME : nat) verbose me mem propCache root msg
    dev name i sc :
  (MAXINDINAME + 30 ≤ MAXRBUF)%nat →
  rosc_fits MAXINDINAME propCache →
  tagXMLEle root ∈ new_tags →
  findXMLAtt root "device" = Some dev →
  findXMLAtt root "name" = Some name →
  rosc_find name dev propCache = Some (i, sc) →
  perm sc = IP_RO →
  let r := dispatch verbose me mem propCache root msg in
  r_outcome r = Return (-1) ∧
  r_msg r = "Cannot set read-only property " +:+ name ∧
  r_propCache r = propCache ∧
  Forall (λ e, is_callback e = false) (r_events r).
Proof.
  intros Hmax Hfits Htag Hdev Hname Hfind Hperm r. subst r.
  rewrite (DispatchFacts.dispatch_ro verbose me mem propCache root msg dev name i sc);
    auto using DispatchFacts.new_tag_not_get, DispatchFacts.new_tag_not_snoop,
      DispatchFacts.crackDN_both.
  cbn [r_outcome r_msg r_propCache r_events].
  split; [done|]. split; [|split; [done|apply DispatchFacts.echo_no_callback]].
  apply DispatchFacts.snprintf_fits.
  apply DispatchFacts.rosc_find_name in Hfind as (Hi & <- & _).
  unfold rosc_fits in Hfits. rewrite Forall_lookup in Hfits. apply Hfits in Hi.
  rewrite DispatchFacts.length_app. simpl String.length. lia.
Qed.

(** C2, as the code has it. An inbound [new<Kind>Vector] element whose device
    and name are not in the cache makes [dispatch] return -1 with no driver
    callback invoked; [msg] holds the first [MAXRBUF - 1] characters of
    "Property <name> is not defined in <device>.", which is the whole message
    whenever that is shorter than [MAXRBUF]. *)
Theorem dispatch_undefined_rejected verbose me mem propCache root msg dev name :
  tagXMLEle root ∈ new_tags →
  findXMLAtt root "device" = Some dev →
  findXMLAtt root "name" = Some name →
  rosc_find name dev propCache = None →
  let r := dispatch verbose me mem propCache root msg in
  let full := "Property " +:+ name +:+ " is not defined in " +:+ dev +:+ "." in
  r_outcome r = Return (-1) ∧
  r_msg r = String.substring 0 (MAXRBUF - 1) full ∧
  ((String.length full < MAXRBUF)%nat → r_msg r = full) ∧
  r_propCache r = propCache ∧
  Forall (λ e, is_callback e = false) (r_events r).
Proof.
  intros Htag Hdev Hname Hfind r full. subst r full.
  rewrite (DispatchFacts.dispatch_not_defined verbose me mem propCache root msg dev name);
    auto using DispatchFacts.new_tag_not_get, DispatchFacts.new_tag_not_snoop,
      DispatchFacts.crackDN_both.
  cbn [r_outcome r_msg r_propCache r_events].
  split; [done|]. split; [done|]. split.
  { apply DispatchFacts.snprintf_fits. }
  split; [done|apply DispatchFacts.echo_no_callback].
Qed.

(** C8, as the code has it. An element whose tag is neither [getProperties],
    nor a snoop-feed tag, nor a [new<Kind>Vector] tag goes through the same
    checks as a peer write first. Only when it carries the device and name of
    a cached property that is not read-only does [dispatch] return the soft
    code 1 with "Unknown command: <tag>" in [msg]; when an attribute is
    missing, the property is not cached, or it is read-only, [dispatch]
    returns -1 with the message of that check. No callback is invoked. *)
Theorem dispatch_unknown_command verbose me mem propCache root msg :
  tagXMLEle root ≠ "getProperties" →
  tagXMLEle root ∉ snoop_tags →
  tagXMLEle root ∉ new_tags →
  let r := dispatch verbose me mem propCache root msg in
  r_events r = echo verbose root ∧
  r_propCache r = propCache ∧
  (∀ dev name i sc,
     findXMLAtt root "device" = Some dev → findXMLAtt root "name" = Some name →
     rosc_find name dev propCache = Some (i, sc) → perm sc ≠ IP_RO →
     r_outcome r = Return 1 ∧ r_msg r = "Unknown command: " +:+ tagXMLEle root) ∧
  (∀ why, crackDN root = inl why → r_outcome r = Return (-1) ∧ r_msg r = why) ∧
  (∀ dev name,
     findXMLAtt root "device" = Some dev → findXMLAtt root "name" = Some name →
     rosc_find name dev propCache = None →
     r_outcome r = Return (-1) ∧
     r_msg r = snprintf MAXRBUF
                 ("Property " +:+ name +:+ " is not defined in " +:+ dev +:+ ".")) ∧
  (∀ dev name i sc,
     findXMLAtt root "device" = Some dev → findXMLAtt root "name" = Some name →
     rosc_find name dev propCache = Some (i, sc) → perm sc = IP_RO →
     r_outcome r = Return (-1) ∧
     r_msg r = snprintf MAXRBUF ("Cannot set read-only property " +:+ name)).
Proof.
  intros Hget Hsnoop Hnew r. subst r.
  assert (Hev : r_events (dispatch verbose me mem propCache root msg) = echo verbose root
                ∧ r_propCache (dispatch verbose me mem propCache root msg) = propCache).
  { destruct (crackDN root) as [why|[dev name]] eqn:Hc.
    - by rewrite (DispatchFacts.dispatch_missing _ _ _ _ _ _ why).
    - destruct (rosc_find name dev propCache) as [[i sc]|] eqn:Hf.
      + destruct (decide (perm sc = IP_RO)).
        * by rewrite (DispatchFacts.dispatch_ro _ _ _ _ _ _ dev name i sc).
        * by rewrite (DispatchFacts.dispatch_unknown _ _ _ _ _ _ dev name i sc).
      + by rewrite (DispatchFacts.dispatch_not_defined _ _ _ _ _ _ dev name). }
  destruct Hev as [Hev Hcache]. split; [done|]. split; [done|]. repeat split.
  - by rewrite (DispatchFacts.dispatch_unknown _ _ _ _ _ _ dev name i sc)
      by auto using DispatchFacts.crackDN_both.
  - by rewrite (DispatchFacts.dispatch_unknown _ _ _ _ _ _ dev name i sc)
      by auto using DispatchFacts.crackDN_both.
  - by rewrite (DispatchFacts.dispatch_missing _ _ _ _ _ _ why).
  - by rewrite (DispatchFacts.dispatch_missing _ _ _ _ _ _ why).
  - by rewrite (DispatchFacts.dispatch_not_defined _ _ _ _ _ _ dev name)
      by auto using DispatchFacts.crackDN_both.
  - by rewrite (DispatchFacts.dispatch_not_defined _ _ _ _ _ _ dev name)
      by auto using DispatchFacts.crackDN_both.
  - by rewrite (DispatchFacts.dispatch_ro _ _ _ _ _ _ dev name i sc)
      by auto using DispatchFacts.crackDN_both.
  - by rewrite (DispatchFacts.dispatch_ro _ _ _ _ _ _ dev name i sc)
      by auto using DispatchFacts.crackDN_both.
Qed.

(** C10. A [getProperties] element with no [version] attribute terminates the
    driver with exit code 1, after "<me>: getProperties missing version" has
    been printed to stderr, just as a version above [INDIV] does (with its
    own text); neither is a return from [dispatch]. *)
Theorem dispatch_getProperties_missing_version verbose me mem propCache root msg :
  tagXMLEle root = "getProperties" →
  let r := dispatch verbose me mem propCache root msg in
  (findXMLAtt root "version" = None →
   r_outcome r = Exit 1 ∧
   r_events r = echo verbose root
                ++ [EvStderr (me +:+ ": getProperties missing version" +:+ newline)]) ∧
  (∀ ap, findXMLAtt root "version" = Some ap → PrimFloat.ltb INDIV (atof ap) = true →
         r_outcome r = Exit 1 ∧
         r_events r = echo verbose root
                      ++ [EvStderr (me +:+ ": client version " +:+ fmt_g (atof ap)
                                    +:+ " > " +:+ fmt_g INDIV +:+ newline)]).
Proof.
  intros Htag r. subst r. unfold dispatch. rewrite decide_True by done. split.
  - by intros ->.
  - intros ap -> ->. done.
Qed.

(** C7, as the code has it. For a [getProperties] element whose version is
    not above [INDIV], [dispatch] returns 0 and [msg] is untouched. When both
    [name] and [device] are given and cached, the one element written is the
    definition of the vector the cache entry points to, of the cached type,
    and no callback is invoked. When both are given but not cached, nothing
    is written and no callback is invoked. When one of them is missing,
    [ISGetProperties] is invoked with the device attribute, or with null. *)
Theorem dispatch_getProperties_compatible verbose me mem propCache root msg ap :
  tagXMLEle root = "getProperties" →
  findXMLAtt root "version" = Some ap →
  PrimFloat.ltb INDIV (atof ap) = false →
  let r := dispatch verbose me mem propCache root msg in
  (∀ dev name i sc p,
     findXMLAtt root "device" = Some dev → findXMLAtt root "name" = Some name →
     rosc_find name dev propCache = Some (i, sc) →
     mem (ptr sc) = Some p → type sc = kind_of p →
     r_outcome r = Return 0 ∧ r_msg r = msg ∧
     r_events r = echo verbose root ++ [def_event p]) ∧
  (∀ dev name,
     findXMLAtt root "device" = Some dev → findXMLAtt root "name" = Some name →
     rosc_find name dev propCache = None →
     r_outcome r = Return 0 ∧ r_msg r = msg ∧ r_events r = echo verbose root) ∧
  (findXMLAtt root "device" = None ∨ findXMLAtt root "name" = None →
   r_outcome r = Return 0 ∧ r_msg r = msg ∧
   r_events r = echo verbose root ++ [EvISGetProperties (findXMLAtt root "device")]).
Proof.
  intros Htag Hver Hcompat r. subst r. unfold dispatch.
  rewrite decide_True by done. rewrite Hver, Hcompat.
  split; [|split].
  - intros dev name i sc p Hd Hn Hf Hm Ht. rewrite Hn, Hd, Hf, Ht, Hm.
    by destruct p.
  - intros dev name Hd Hn Hf. by rewrite Hn, Hd, Hf.
  - intros [Hd|Hn].
    + rewrite Hd. by destruct (findXMLAtt root "name").
    + by rewrite Hn.
Qed.

End DispatchTheorems.

(** ** Decode buffers of [newBLOBVector] *)

Module BlobFacts.
Section WithExtern.
Context `{Extern}.
Import Dispatch.

Lemma filter_malloc_none (l : list event) :
  Forall (λ e, is_malloc e = false) l → filter (λ e, is_malloc e = true) l = [].
Proof.
  induction 1 as [|e l He _ IH]; [done|].
  rewrite filter_cons_False; [done|congruence].
Qed.

Lemma filter_malloc_all (l : list event) :
  Forall (λ e, is_malloc e = true) l → filter (λ e, is_malloc e = true) l = l.
Proof.
  induction 1 as [|e l He _ IH]; [done|].
  rewrite filter_cons_True by done. by rewrite IH.
Qed.

(** The [newBLOBVector] loop: it asks for one buffer per decoded child, in
    order, and stops in [assert_mem] at the first that [malloc] refuses. *)
Lemma blobs_spec children :
  let decoded := filter (λ ep, decoded_oneBLOB ep = true) children in
  let request := λ ep, EvMalloc (blob_capacity (bloblen_of ep)) in
  match list_find (λ ep, malloc (blob_capacity (bloblen_of ep)) = false) decoded with
  | None =>
      ∃ entries, blobs children = (Some entries, request <$> decoded) ∧
                 length entries = length decoded
  | Some (k, _) =>
      blobs children = (None, (request <$> take (S k) decoded) ++ [EvStderr assert_mem.1])
  end.
Proof.
  cbn zeta. induction children as [|ep rest IH]; [by exists []|].
  cbn [blobs].
  assert (Hskip : decoded_oneBLOB ep ≠ true →
                  filter (λ ep, decoded_oneBLOB ep = true) (ep :: rest)
                  = filter (λ ep, decoded_oneBLOB ep = true) rest).
  { intros Hno. by rewrite filter_cons_False. }
  destruct (decide (tagXMLEle ep = "oneBLOB")) as [Ht|Ht].
  2:{ rewrite Hskip; [done|].
      unfold decoded_oneBLOB. by rewrite (bool_decide_eq_false_2 _ Ht). }
  destruct (findXMLAtt ep "name") as [na|] eqn:Hna,
           (findXMLAtt ep "format") as [fa|] eqn:Hfa,
           (findXMLAtt ep "size") as [sa|] eqn:Hsa.
  2-8: rewrite Hskip; [done|];
       unfold decoded_oneBLOB; rewrite Hna, Hfa, Hsa;
       rewrite (bool_decide_eq_true_2 _ Ht); simpl;
       rewrite ?(bool_decide_eq_true_2 (is_Some (Some _))) by eauto;
       rewrite ?(bool_decide_eq_false_2 (is_Some None)) by (by intros [? ?]);
       simpl; congruence.
  rewrite filter_cons_True.
  2:{ unfold decoded_oneBLOB. rewrite Hna, Hfa, Hsa.
      by rewrite !bool_decide_eq_true_2 by (done || eauto). }
  cbn [list_find]. cbn zeta.
  destruct (malloc (blob_capacity (bloblen_of ep))) eqn:Hm.
  - rewrite decide_False by done.
    destruct (from64tobits_fast _ _) as [data blobsize].
    destruct (list_find _ (filter _ rest)) as [[k bad]|].
    + rewrite IH. done.
    + destruct IH as (entries & -> & Hlen). eexists. split; [done|].
      simpl. by rewrite Hlen.
  - rewrite decide_True by done. done.
Qed.

Lemma dispatch_blob verbose me mem propCache root msg dev name i sc :
  tagXMLEle root = "newBLOBVector" →
  findXMLAtt root "device" = Some dev → findXMLAtt root "name" = Some name →
  rosc_find name dev propCache = Some (i, sc) → perm sc ≠ IP_RO →
  dispatch verbose me mem propCache root msg
  = match blobs (childXMLEle root) with
    | (None, out) => mkResult (Exit assert_mem.2) msg propCache (echo verbose root ++ out)
    | (Some entries, out) =>
        if decide (entries ≠ []) then
          let e := EvISNewBLOB dev name (Blob.e_size <$> entries)
                     (Blob.e_blobsize <$> entries) (Blob.e_blob <$> entries)
                     (Blob.e_format <$> entries) (Blob.e_name <$> entries) in
          mkResult (Return 0) msg (called e propCache)
            (echo verbose root ++ out ++ e :: (EvFree <$> (Blob.e_blob <$> entries)))
        else
          mkResult (Return 0) msg propCache
            (echo verbose root ++ out ++
             [EvMessage dev ("[ERROR] " +:+ name
                             +:+ ": newBLOBVector with no valid members")])
    end.
Proof.
  intros Htag Hd Hn Hf Hp. unfold dispatch. rewrite Htag.
  rewrite decide_False by done.
  rewrite bool_decide_eq_false_2
    by (intros Hs; apply (bool_decide_pack _) in Hs; vm_compute in Hs; done).
  rewrite (DispatchFacts.crackDN_both root dev name Hd Hn), Hf.
  rewrite (DispatchFacts.is_ro_find _ _ _ _ _ Hf), bool_decide_eq_false_2 by done.
  rewrite !(decide_False (P := "newBLOBVector" = _)) by done.
  by rewrite decide_True by done.
Qed.

Lemma blobs_None children out :
  blobs children = (None, out) →
  ∃ ep, ep ∈ children ∧ decoded_oneBLOB ep = true ∧
        malloc (blob_capacity (bloblen_of ep)) = false.
Proof.
  intros Hout. pose proof (blobs_spec children) as Hb. cbn zeta in Hb.
  destruct (list_find _ (filter _ children)) as [[k bad]|] eqn:Hfind.
  - apply list_find_Some in Hfind as (Hk & Hbad & _).
    apply list_elem_of_lookup_2, list_elem_of_filter in Hk as [Hdec Hin].
    by exists bad.
  - destruct Hb as (entries & Heq & _). rewrite Heq in Hout. discriminate.
Qed.

Lemma filter_malloc_requests (l : list XMLEle) :
  filter (λ e, is_malloc e = true) ((λ ep, EvMalloc (blob_capacity (bloblen_of ep))) <$> l)
  = (λ ep, EvMalloc (blob_capacity (bloblen_of ep))) <$> l.
Proof. apply filter_malloc_all. apply Forall_fmap. by apply Forall_true. Qed.

Lemma blob_capacity_floor n :
  0 ≤ n → 3 * n < 2 ^ 31 → blob_capacity n = (3 * n) `div` 4.
Proof.
  intros H0 Hlt. unfold blob_capacity, wrap_int, to_size_t.
  rewrite (Z.mod_small (3 * n + 2 ^ 31)) by lia.
  replace (3 * n + 2 ^ 31 - 2 ^ 31) with (3 * n) by lia.
  rewrite Z.quot_div_nonneg by lia.
  apply Z.mod_small. split; [apply Z.div_pos; lia|].
  apply Z.div_lt_upper_bound; lia.
Qed.

End WithExtern.
End BlobFacts.

Section BlobTheorem.
Context `{Extern}.
Import Dispatch.

(** C9, as the code has it. When [dispatch] handles a [newBLOBVector] for a
    cached, writable property, it takes the [oneBLOB] children that have the
    attributes [name], [format] and [size] in order and asks [malloc] for one
    buffer each, of [3 * bloblen / 4] bytes in [int] arithmetic, [bloblen]
    being [atoi] of [enclen] when given and the body length otherwise. If
    [malloc] refuses one, [assert_mem] ends the process there and the
    children after it get no buffer. For a length between 0 and [INT_MAX / 3]
    the size is the quotient rounded down, which is the ceiling of the spec
    only when [3 * bloblen] is a multiple of 4. *)
Theorem dispatch_blob_capacity verbose me mem propCache root msg dev name i sc :
  tagXMLEle root = "newBLOBVector" →
  findXMLAtt root "device" = Some dev →
  findXMLAtt root "name" = Some name →
  rosc_find name dev propCache = Some (i, sc) →
  perm sc ≠ IP_RO →
  let r := dispatch verbose me mem propCache root msg in
  let decoded := filter (λ ep, decoded_oneBLOB ep = true) (childXMLEle root) in
  let request := λ ep, EvMalloc (blob_capacity (bloblen_of ep)) in
  match list_find (λ ep, malloc (blob_capacity (bloblen_of ep)) = false) decoded with
  | None =>
      r_outcome r = Return 0 ∧
      filter (λ e, is_malloc e = true) (r_events r) = request <$> decoded
  | Some (k, _) =>
      r_outcome r = Exit assert_mem.2 ∧
      filter (λ e, is_malloc e = true) (r_events r) = request <$> take (S k) decoded
  end ∧
  (∀ ep, findXMLAtt ep "enclen" = None → bloblen_of ep = pcdatalenXMLEle ep) ∧
  (∀ ep el, findXMLAtt ep "enclen" = Some el → bloblen_of ep = atoi el) ∧
  (∀ n, 0 ≤ n → 3 * n < 2 ^ 31 →
        blob_capacity n = (3 * n) `div` 4 ∧
        (blob_capacity n = ceil_div (3 * n) 4 ↔ (3 * n) `mod` 4 = 0)).
Proof.
  intros Htag Hd Hn Hf Hp r decoded request. subst r decoded request.
  rewrite (BlobFacts.dispatch_blob verbose me mem propCache root msg dev name i sc)
    by done.
  assert (Hecho : filter (λ e, is_malloc e = true) (echo verbose root) = [])
    by (by destruct verbose).
  split.
  { pose proof (BlobFacts.blobs_spec (childXMLEle root)) as Hb. cbn zeta in Hb.
    destruct (list_find _ (filter _ (childXMLEle root))) as [[k bad]|].
    - rewrite Hb. cbn [r_outcome r_events]. split; [done|].
      rewrite !filter_app, Hecho, BlobFacts.filter_malloc_requests.
      by rewrite app_nil_r.
    - destruct Hb as (entries & -> & Hlen).
      destruct (decide (entries ≠ [])); cbn [r_outcome r_events]; (split; [done|]).
      + rewrite !filter_app, Hecho, BlobFacts.filter_malloc_requests.
        rewrite filter_cons_False by done.
        rewrite (BlobFacts.filter_malloc_none (EvFree <$> _));
          [by rewrite app_nil_r|].
        apply Forall_fmap. by apply Forall_true.
      + rewrite !filter_app, Hecho, BlobFacts.filter_malloc_requests.
        by rewrite app_nil_r. }
  split; [by intros ep Hel; unfold bloblen_of; rewrite Hel|].
  split; [by intros ep el Hel; unfold bloblen_of; rewrite Hel|].
  intros n H0 Hlt. rewrite BlobFacts.blob_capacity_floor by done.
  split; [done|]. unfold ceil_div.
  pose proof (Z.div_mod (3 * n) 4) as Hdm.
  pose proof (Z.mod_pos_bound (3 * n) 4) as Hb.
  split.
  - intros Heq.
    assert (Hq : (3 * n + 4 - 1) `div` 4 = (3 * n) `div` 4) by done.
    destruct (decide ((3 * n) `mod` 4 = 0)) as [|Hne]; [done|]. exfalso.
    assert (Hge : (3 * n) `div` 4 + 1 ≤ (3 * n + 4 - 1) `div` 4).
    { apply Z.div_le_lower_bound; lia. }
    lia.
  - intros Hm. apply Z.div_unique with (r := 3); lia.
Qed.

End BlobTheorem.

(** ** The theorems at the spec's scenarios *)

Lemma dispatch_read_only_rejected_witness :
  (64 + 30 ≤ MAXRBUF)%nat ∧
  rosc_fits 64 Sample.propCache ∧
  rosc_find "DRIVER_INFO" "Cam" Sample.propCache
  = Some (0%nat, mkROSC "DRIVER_INFO" "Cam" IP_RO 0 INDI_TEXT) ∧
  Dispatch.r_outcome
    (@Dispatch.dispatch Sample.extern false "indi_cam" Sample.mem Sample.propCache
       Sample.evil_text "")
  = Dispatch.Return (-1) ∧
  Dispatch.r_msg
    (@Dispatch.dispatch Sample.extern false "indi_cam" Sample.mem Sample.propCache
       Sample.evil_text "")
  = "Cannot set read-only property DRIVER_INFO".
Proof.
  assert (Hmax : (64 + 30 ≤ MAXRBUF)%nat) by (unfold MAXRBUF; lia).
  assert (Hfits : rosc_fits 64 Sample.propCache) by (repeat constructor; simpl; lia).
  assert (Htag : tagXMLEle Sample.evil_text ∈ Dispatch.new_tags)
    by (apply (bool_decide_unpack _); vm_compute; exact I).
  split; [exact Hmax|]. split; [exact Hfits|]. split; [reflexivity|].
  destruct (@dispatch_read_only_rejected Sample.extern 64 false "indi_cam" Sample.mem
              Sample.propCache Sample.evil_text "" "Cam" "DRIVER_INFO" 0%nat
              (mkROSC "DRIVER_INFO" "Cam" IP_RO 0 INDI_TEXT)
              Hmax Hfits Htag eq_refl eq_refl eq_refl eq_refl) as (Ho & Hm & _).
  split; [exact Ho|exact Hm].
Defined.

Lemma dispatch_undefined_rejected_witness :
  tagXMLEle Sample.new_focus ∈ Dispatch.new_tags ∧
  rosc_find "FOCUS" "Cam" Sample.propCache = None ∧
  Dispatch.r_outcome
    (@Dispatch.dispatch Sample.extern false "indi_cam" Sample.mem Sample.propCache
       Sample.new_focus "")
  = Dispatch.Return (-1) ∧
  Dispatch.r_msg
    (@Dispatch.dispatch Sample.extern false "indi_cam" Sample.mem Sample.propCache
       Sample.new_focus "")
  = "Property FOCUS is not defined in Cam.".
Proof.
  assert (Htag : tagXMLEle Sample.new_focus ∈ Dispatch.new_tags)
    by (apply (bool_decide_unpack _); vm_compute; exact I).
  split; [exact Htag|]. split; [reflexivity|].
  destruct (@dispatch_undefined_rejected Sample.extern false "indi_cam" Sample.mem
              Sample.propCache Sample.new_focus "" "Cam" "FOCUS"
              Htag eq_refl eq_refl eq_refl) as (Ho & _ & Hm & _).
  split; [exact Ho|]. apply Hm. unfold MAXRBUF. simpl. lia.
Defined.

(** C2, as stated, fails: with a name of 2048 characters the buffer holds 2047
    characters, not the whole message. *)
Lemma dispatch_undefined_message_truncated :
  let r := @Dispatch.dispatch Sample.extern false "indi_cam" Sample.mem Sample.propCache
             Sample.new_long_name "" in
  findXMLAtt Sample.new_long_name "name" = Some Sample.long_name ∧
  rosc_find Sample.long_name "Cam" Sample.propCache = None ∧
  Dispatch.r_outcome r = Dispatch.Return (-1) ∧
  String.length (Dispatch.r_msg r) = 2047%nat ∧
  Dispatch.r_msg r ≠ "Property " +:+ Sample.long_name +:+ " is not defined in Cam.".
Proof.
  split; [reflexivity|]. split; [by vm_compute|]. split; [by vm_compute|].
  split; [by vm_compute|].
  intros Heq. apply (f_equal String.length) in Heq. vm_compute in Heq. discriminate.
Qed.

Lemma dispatch_getProperties_compatible_witness :
  tagXMLEle Sample.get_connection = "getProperties" ∧
  findXMLAtt Sample.get_connection "version" = Some "1.7" ∧
  PrimFloat.ltb (@INDIV Sample.extern) (@atof Sample.extern "1.7") = false ∧
  Dispatch.r_events
    (@Dispatch.dispatch Sample.extern false "indi_mount" Sample.mem Sample.propCache
       Sample.get_connection "")
  = [EvDefSwitch Sample.connection_switches].
Proof.
  split; [reflexivity|]. split; [reflexivity|]. split; [reflexivity|].
  destruct (@dispatch_getProperties_compatible Sample.extern false "indi_mount" Sample.mem
              Sample.propCache Sample.get_connection "" "1.7" eq_refl eq_refl eq_refl)
    as (Hdef & _ & _).
  destruct (Hdef "Mount" "CONNECTION" 1%nat
              (mkROSC "CONNECTION" "Mount" IP_RW 1 INDI_SWITCH)
              (PSwitch Sample.connection_switches)
              eq_refl eq_refl eq_refl eq_refl eq_refl) as (_ & _ & Hev).
  exact Hev.
Defined.

(** C7, as stated, fails: with both attributes given but the property not in
    the cache, [dispatch] returns 0 without invoking [ISGetProperties]. *)
Lemma dispatch_getProperties_unknown_property_silent :
  let r := @Dispatch.dispatch Sample.extern false "indi_mount" Sample.mem Sample.propCache
             Sample.get_unknown_property "" in
  findXMLAtt Sample.get_unknown_property "version" = Some "1.7" ∧
  PrimFloat.ltb (@INDIV Sample.extern) (@atof Sample.extern "1.7") = false ∧
  findXMLAtt Sample.get_unknown_property "device" = Some "Mount" ∧
  findXMLAtt Sample.get_unknown_property "name" = Some "PARK" ∧
  rosc_find "PARK" "Mount" Sample.propCache = None ∧
  Dispatch.r_outcome r = Dispatch.Return 0 ∧
  Dispatch.r_events r = [] ∧
  EvISGetProperties (Some "Mount") ∉ Dispatch.r_events r.
Proof.
  repeat (split; [reflexivity|]). vm_compute. apply not_elem_of_nil.
Qed.

Lemma dispatch_unknown_command_witness :
  tagXMLEle Sample.new_light_on_image ≠ "getProperties" ∧
  (tagXMLEle Sample.new_light_on_image ∉ Dispatch.snoop_tags) ∧
  (tagXMLEle Sample.new_light_on_image ∉ Dispatch.new_tags) ∧
  Dispatch.r_outcome
    (@Dispatch.dispatch Sample.extern false "indi_cam" Sample.mem Sample.propCache
       Sample.new_light_on_image "")
  = Dispatch.Return 1 ∧
  Dispatch.r_msg
    (@Dispatch.dispatch Sample.extern false "indi_cam" Sample.mem Sample.propCache
       Sample.new_light_on_image "")
  = "Unknown command: newLightVector".
Proof.
  assert (Hget : tagXMLEle Sample.new_light_on_image ≠ "getProperties") by done.
  assert (Hsnoop : tagXMLEle Sample.new_light_on_image ∉ Dispatch.snoop_tags)
    by (intros Hs; apply (bool_decide_pack _) in Hs; vm_compute in Hs; done).
  assert (Hnew : tagXMLEle Sample.new_light_on_image ∉ Dispatch.new_tags)
    by (intros Hs; apply (bool_decide_pack _) in Hs; vm_compute in Hs; done).
  split; [exact Hget|]. split; [exact Hsnoop|]. split; [exact Hnew|].
  destruct (@dispatch_unknown_command Sample.extern false "indi_cam" Sample.mem
              Sample.propCache Sample.new_light_on_image "" Hget Hsnoop Hnew)
    as (_ & _ & Hunknown & _).
  apply (Hunknown "Cam" "CCD1" 3%nat (mkROSC "CCD1" "Cam" IP_RW 3 INDI_BLOB));
    try reflexivity.
  done.
Defined.

(** C8, as stated, fails: an unknown tag naming a property that is not in the
    cache is answered -1 with the "not defined" message, not with "Unknown
    command". *)
Lemma dispatch_unknown_tag_undefined_property :
  let r := @Dispatch.dispatch Sample.extern false "indi_cam" Sample.mem Sample.propCache
             Sample.new_light_undefined "" in
  tagXMLEle Sample.new_light_undefined = "newLightVector" ∧
  tagXMLEle Sample.new_light_undefined ≠ "getProperties" ∧
  (tagXMLEle Sample.new_light_undefined ∉ Dispatch.snoop_tags) ∧
  (tagXMLEle Sample.new_light_undefined ∉ Dispatch.new_tags) ∧
  Dispatch.r_outcome r = Dispatch.Return (-1) ∧
  Dispatch.r_msg r = "Property STATUS is not defined in Cam." ∧
  Dispatch.r_msg r ≠ "Unknown command: newLightVector".
Proof.
  split; [reflexivity|]. split; [done|].
  split; [intros Hs; apply (bool_decide_pack _) in Hs; vm_compute in Hs; done|].
  split; [intros Hs; apply (bool_decide_pack _) in Hs; vm_compute in Hs; done|].
  split; [reflexivity|]. split; [reflexivity|]. vm_compute. discriminate.
Qed.

Lemma dispatch_blob_capacity_witness :
  tagXMLEle Sample.new_image_negative = "newBLOBVector" ∧
  rosc_find "CCD1" "Cam" Sample.propCache
  = Some (3%nat, mkROSC "CCD1" "Cam" IP_RW 3 INDI_BLOB) ∧
  Dispatch.r_outcome
    (@Dispatch.dispatch Sample.extern false "indi_cam" Sample.mem Sample.propCache
       Sample.new_image_negative "")
  = Dispatch.Exit 1 ∧
  filter (λ e, is_malloc e = true)
    (Dispatch.r_events
       (@Dispatch.dispatch Sample.extern false "indi_cam" Sample.mem Sample.propCache
          Sample.new_image_negative ""))
  = [EvMalloc 4; EvMalloc (2 ^ 64 - 3)].
Proof.
  split; [reflexivity|]. split; [reflexivity|].
  assert (Hrw : IP_RW ≠ IP_RO) by discriminate.
  exact (proj1 (@dispatch_blob_capacity Sample.extern false "indi_cam" Sample.mem
                  Sample.propCache Sample.new_image_negative "" "Cam" "CCD1" 3%nat
                  (mkROSC "CCD1" "Cam" IP_RW 3 INDI_BLOB)
                  eq_refl eq_refl eq_refl eq_refl Hrw)).
Defined.

(** C9, as stated, fails: for an [enclen] of 6 the buffer has 4 bytes and for
    a body of 2 characters it has 1 byte, where the ceilings are 5 and 2. *)
Lemma dispatch_blob_capacity_rounds_down :
  let r := @Dispatch.dispatch Sample.extern false "indi_cam" Sample.mem Sample.propCache
             Sample.new_image "" in
  Dispatch.bloblen_of <$> childXMLEle Sample.new_image = [6; 2] ∧
  filter (λ e, is_malloc e = true) (Dispatch.r_events r) = [EvMalloc 4; EvMalloc 1] ∧
  ceil_div (3 * 6) 4 = 5 ∧
  ceil_div (3 * 2) 4 = 2.
Proof. repeat split; reflexivity. Qed.

Lemma dispatch_getProperties_missing_version_witness :
  tagXMLEle Sample.get_without_version = "getProperties" ∧
  findXMLAtt Sample.get_without_version "version" = None ∧
  Dispatch.r_outcome
    (@Dispatch.dispatch Sample.extern false "indi_mount" Sample.mem Sample.propCache
       Sample.get_without_version "")
  = Dispatch.Exit 1.
Proof.
  split; [reflexivity|]. split; [reflexivity|].
  exact (proj1 (proj1 (@dispatch_getProperties_missing_version Sample.extern false
                         "indi_mount" Sample.mem Sample.propCache
                         Sample.get_without_version "" eq_refl) eq_refl)).
Defined.

(** * Further properties of the code *)

(** ** The sanity cache *)

Module RegistryMore.

Lemma rosc_find_None_key name dev propCache :
  rosc_find name dev propCache = None → (name, dev) ∉ rosc_keys propCache.
Proof.
  unfold rosc_find, rosc_keys. intros Hf%list_find_None.
  intros (sc & [= -> ->] & Hin)%list_elem_of_fmap.
  rewrite Forall_forall in Hf. by apply (Hf sc).
Qed.

Lemma rosc_find_app_l name dev l k i sc :
  rosc_find name dev l = Some (i, sc) → rosc_find name dev (l ++ k) = Some (i, sc).
Proof. unfold rosc_find. intros Hf. apply list_find_app_Some. by left. Qed.

Lemma rosc_find_snoc_ne name dev name' dev' p ptr ty l :
  (name', dev') ≠ (name, dev) →
  rosc_find name' dev' (l ++ [mkROSC name dev p ptr ty]) = rosc_find name' dev' l.
Proof.
  intros Hne. unfold rosc_find.
  destruct (list_find _ l) as [[i sc]|] eqn:Hf.
  - apply list_find_app_Some. by left.
  - apply list_find_None in Hf. apply list_find_None. apply Forall_app.
    split; [done|]. constructor; [|done]. simpl. intros [-> ->]. done.
Qed.

Lemma rosc_find_add_unique_same name dev p ptr ty propCache :
  rosc_find name dev (rosc_add_unique name dev p ptr ty propCache)
  = Some (default (length propCache, mkROSC name dev p ptr ty)
            (rosc_find name dev propCache)).
Proof.
  unfold rosc_add_unique.
  destruct (rosc_find name dev propCache) as [[i sc]|] eqn:Hf; simpl; [done|].
  unfold rosc_find, rosc_add in *. apply list_find_Some. split.
  { rewrite lookup_app_r by done. by rewrite Nat.sub_diag. }
  split; [done|]. intros j sc' Hj Hlt.
  apply list_find_None in Hf. rewrite Forall_forall in Hf. apply Hf.
  rewrite lookup_app_l in Hj by done. by eapply list_elem_of_lookup_2.
Qed.

End RegistryMore.

(** X1. Registering keeps the keys of the cache unique: if no two entries
    share a name and device, none do after [rosc_add_unique] (hence after any
    [IDDef<Kind>]). *)
Theorem rosc_add_unique_keys_unique name dev p ptr ty propCache :
  NoDup (rosc_keys propCache) →
  NoDup (rosc_keys (rosc_add_unique name dev p ptr ty propCache)).
Proof.
  intros Hnd. unfold rosc_add_unique.
  destruct (rosc_find name dev propCache) as [[i sc]|] eqn:Hf; [done|].
  unfold rosc_add, rosc_keys. rewrite fmap_app. apply NoDup_app.
  split; [done|]. split; [|apply NoDup_singleton].
  intros k Hk ->%list_elem_of_singleton.
  by apply (RegistryMore.rosc_find_None_key name dev propCache Hf).
Qed.

Lemma rosc_add_unique_keys_unique_witness :
  NoDup (rosc_keys Sample.propCache) ∧
  NoDup (rosc_keys (rosc_add_unique "FOCUS" "Cam" IP_RW 4 INDI_NUMBER Sample.propCache)).
Proof.
  assert (Hnd : NoDup (rosc_keys Sample.propCache)).
  { apply (bool_decide_unpack _). vm_compute. exact I. }
  split; [exact Hnd|].
  exact (rosc_add_unique_keys_unique "FOCUS" "Cam" IP_RW 4 INDI_NUMBER Sample.propCache Hnd).
Defined.

(** X2. Lookup after registration: the first registration of a name and
    device wins. After [rosc_add_unique], looking the pair up gives the entry
    that was already cached for it, if any, with its old permission, address
    and type; otherwise the new entry, at the end of the cache. Every other
    pair is looked up as before, and registering the same pair once more, with
    whatever permission, changes nothing. *)
Theorem rosc_add_unique_lookup name dev p ptr ty propCache :
  let cache := rosc_add_unique name dev p ptr ty propCache in
  rosc_find name dev cache
  = Some (default (length propCache, mkROSC name dev p ptr ty)
            (rosc_find name dev propCache)) ∧
  (∀ name' dev', (name', dev') ≠ (name, dev) →
     rosc_find name' dev' cache = rosc_find name' dev' propCache) ∧
  (∀ p' ptr' ty', rosc_add_unique name dev p' ptr' ty' cache = cache).
Proof.
  intros cache. subst cache. split; [|split].
  - apply RegistryMore.rosc_find_add_unique_same.
  - intros name' dev' Hne. unfold rosc_add_unique.
    destruct (rosc_find name dev propCache); [done|].
    by apply RegistryMore.rosc_find_snoc_ne.
  - intros p' ptr' ty'. apply RegistryFacts.rosc_add_unique_idempotent.
Qed.

(** ** The dispatcher, over all its paths *)

Module DispatchMore.
Section WithExtern.
Context `{Extern}.
Import Dispatch.

Lemma crackDN_inr root dev name :
  crackDN root = inr (dev, name) →
  findXMLAtt root "device" = Some dev ∧ findXMLAtt root "name" = Some name.
Proof.
  unfold crackDN. destruct (findXMLAtt root "device"); [|done].
  destruct (findXMLAtt root "name"); [|done]. by intros [= -> ->].
Qed.

Lemma numbers_out dev name children :
  Forall (λ e, is_message e = true) (numbers dev name children).2.
Proof.
  induction children as [|ep rest IH]; [constructor|]. cbn [numbers].
  destruct (numbers dev name rest) as [pairs out]. simpl in IH.
  case_decide; [|done]. destruct (findXMLAtt ep "name"); [|done].
  destruct (f_scansexa _); [done|]. by constructor.
Qed.

Lemma switches_out dev name children :
  Forall (λ e, is_message e = true) (switches dev name children).2.
Proof.
  induction children as [|ep rest IH]; [constructor|]. cbn [switches].
  destruct (switches dev name rest) as [pairs out]. simpl in IH.
  case_decide; [|done]. destruct (findXMLAtt ep "name"); [|done].
  destruct (String.prefix _ _); [done|]. case_decide; [done|]. by constructor.
Qed.

Lemma blobs_out children :
  match blobs children with
  | (Some entries, out) =>
      Forall (λ e, is_malloc e = true) out ∧ length out = length entries
  | (None, out) =>
      ∃ asked, out = asked ++ [EvStderr assert_mem.1] ∧
               Forall (λ e, is_malloc e = true) asked
  end.
Proof.
  pose proof (BlobFacts.blobs_spec children) as Hb. cbn zeta in Hb.
  destruct (list_find _ (filter _ children)) as [[k bad]|].
  - rewrite Hb. eexists. split; [done|]. apply Forall_fmap. by apply Forall_true.
  - destruct Hb as (entries & -> & Hlen). split.
    + apply Forall_fmap. by apply Forall_true.
    + by rewrite length_fmap.
Qed.

Lemma message_quiet e : is_message e = true → quiet e.
Proof. by destruct e. Qed.

Lemma echo_quiet verbose root : Forall quiet (echo verbose root).
Proof. destruct verbose; repeat constructor. Qed.

(** The cache never shrinks when the driver defines vectors. *)
Lemma rosc_add_all_prefix defs : ∀ propCache,
  propCache `prefix_of` rosc_add_all defs propCache.
Proof.
  unfold rosc_add_all. induction defs as [|sc defs IH]; intros propCache; [done|].
  simpl. etrans; [|apply IH]. unfold rosc_add_unique, rosc_add.
  destruct (rosc_find _ _ propCache); [done|by apply prefix_app_r].
Qed.

Lemma called_prefix e propCache : propCache `prefix_of` called e propCache.
Proof. apply rosc_add_all_prefix. Qed.

(** Every call of [dispatch] has one of four shapes: no callback at all; the
    [ISGetProperties] or [ISSnoopDevice] callback alone; one write callback
    for a cached property that is not read-only, after the messages and
    allocations of the decoding and before the release of the buffers; or
    the end of the process in [assert_mem], after the allocations made so
    far. *)
Lemma dispatch_shape verbose me mem propCache root msg :
  let r := dispatch verbose me mem propCache root msg in
  ((r_propCache r = propCache ∨
    (tagXMLEle root = "getProperties" ∧
     ∃ name dev p ptr ty, r_propCache r = rosc_add_unique name dev p ptr ty propCache)) ∧
   (r_outcome r = Return 0 → r_msg r = msg) ∧
   ∃ out, r_events r = echo verbose root ++ out ∧ Forall quiet out)
  ∨
  (r_outcome r = Return 0 ∧ r_msg r = msg ∧
   ∃ e, r_propCache r = called e propCache ∧
        r_events r = echo verbose root ++ [e] ∧
        is_callback e = true ∧ new_callback_target e = None)
  ∨
  (r_outcome r = Return 0 ∧ r_msg r = msg ∧
   tagXMLEle root ∈ new_tags ∧
   ∃ dev name i sc out e blobs,
     findXMLAtt root "device" = Some dev ∧ findXMLAtt root "name" = Some name ∧
     rosc_find name dev propCache = Some (i, sc) ∧ perm sc ≠ IP_RO ∧
     r_propCache r = called e propCache ∧
     r_events r = echo verbose root ++ out ++ e :: (EvFree <$> blobs) ∧
     Forall (λ e, is_callback e = false ∧ is_free e = false) out ∧
     length (filter (λ e, is_malloc e = true) out) = length blobs ∧
     is_callback e = true ∧ is_malloc e = false ∧ is_free e = false ∧
     new_callback_target e = Some (dev, name))
  ∨
  (r_outcome r = Exit assert_mem.2 ∧ r_msg r = msg ∧ r_propCache r = propCache ∧
   tagXMLEle root = "newBLOBVector" ∧
   ∃ asked, r_events r = echo verbose root ++ asked ++ [EvStderr assert_mem.1] ∧
            Forall (λ e, is_malloc e = true) asked).
Proof.
  intros r. subst r. unfold dispatch.
  destruct (decide (tagXMLEle root = "getProperties")) as [Hget|Hget].
  { destruct (findXMLAtt root "version") as [ap|].
    2:{ left. split; [by left|]. split; [done|]. eexists. split; [done|].
        repeat constructor. }
    destruct (PrimFloat.ltb INDIV (atof ap)).
    { left. split; [by left|]. split; [done|]. eexists. split; [done|].
      repeat constructor. }
    destruct (findXMLAtt root "name") as [name|].
    2:{ right. left. repeat split; try done. eexists. by repeat split. }
    destruct (findXMLAtt root "device") as [dev|].
    2:{ right. left. repeat split; try done. eexists. by repeat split. }
    left.
    destruct (rosc_find name dev propCache) as [[i prop]|].
    2:{ split; [by left|]. split; [done|]. exists []. by rewrite app_nil_r. }
    destruct (type prop), (mem (ptr prop)) as [[nvp|svp|tvp|bvp]|]; cbn.
    all: split; [first [by left | right; split; [done|]; by eexists _, _, _, _, _]|].
    all: split; [done|].
    all: first [ by (eexists [_]; split; [done|]; repeat constructor)
               | by (exists []; rewrite app_nil_r) ]. }
  destruct (bool_decide (tagXMLEle root ∈ snoop_tags)).
  { right. left. repeat split; try done. eexists. by repeat split. }
  destruct (crackDN root) as [why|[dev name]] eqn:Hc.
  { left. split; [by left|]. split; [done|]. exists []. by rewrite app_nil_r. }
  apply crackDN_inr in Hc as [Hdev Hname].
  destruct (rosc_find name dev propCache) as [[i sc]|] eqn:Hf.
  2:{ left. split; [by left|]. split; [done|]. exists []. by rewrite app_nil_r. }
  rewrite (DispatchFacts.is_ro_find _ _ _ _ _ Hf).
  destruct (decide (perm sc = IP_RO)) as [Hro|Hro].
  { rewrite bool_decide_eq_true_2 by done.
    left. split; [by left|]. split; [done|]. exists []. by rewrite app_nil_r. }
  rewrite bool_decide_eq_false_2 by done.
  assert (Hmsg : ∀ out, Forall (λ e, is_message e = true) out →
                        Forall (λ e, is_callback e = false ∧ is_free e = false) out).
  { intros out Hall. eapply Forall_impl; [exact Hall|]. by intros []. }
  destruct (decide (tagXMLEle root = "newNumberVector")) as [Htag|_].
  { pose proof (numbers_out dev name (childXMLEle root)) as Hout.
    destruct (numbers dev name (childXMLEle root)) as [pairs out]. simpl in Hout.
    destruct (decide (pairs ≠ [])); cbn.
    - right. right. left. repeat split; try done.
      { rewrite Htag. apply (bool_decide_unpack _). by vm_compute. }
      exists dev, name, i, sc, out, (EvISNewNumber dev name pairs.*2 pairs.*1), [].
      repeat split; try done; [by apply Hmsg|].
      rewrite (BlobFacts.filter_malloc_none out); [done|].
      eapply Forall_impl; [exact Hout|]. by intros [].
    - left. split; [by left|]. split; [done|]. eexists. split; [done|].
      apply Forall_app. split; [|repeat constructor].
      eapply Forall_impl; [exact Hout|]. apply message_quiet. }
  destruct (decide (tagXMLEle root = "newSwitchVector")) as [Htag|_].
  { pose proof (switches_out dev name (childXMLEle root)) as Hout.
    destruct (switches dev name (childXMLEle root)) as [pairs out]. simpl in Hout.
    destruct (decide (pairs ≠ [])); cbn.
    - right. right. left. repeat split; try done.
      { rewrite Htag. apply (bool_decide_unpack _). by vm_compute. }
      exists dev, name, i, sc, out, (EvISNewSwitch dev name pairs.*2 pairs.*1), [].
      repeat split; try done; [by apply Hmsg|].
      rewrite (BlobFacts.filter_malloc_none out); [done|].
      eapply Forall_impl; [exact Hout|]. by intros [].
    - left. split; [by left|]. split; [done|]. eexists. split; [done|].
      apply Forall_app. split; [|repeat constructor].
      eapply Forall_impl; [exact Hout|]. apply message_quiet. }
  destruct (decide (tagXMLEle root = "newTextVector")) as [Htag|_].
  { destruct (decide (texts (childXMLEle root) ≠ [])); cbn.
    - right. right. left. repeat split; try done.
      { rewrite Htag. apply (bool_decide_unpack _). by vm_compute. }
      exists dev, name, i, sc, [],
        (EvISNewText dev name (texts (childXMLEle root)).*2 (texts (childXMLEle root)).*1), [].
      repeat split; try done.
    - left. split; [by left|]. split; [done|]. eexists. split; [done|].
      repeat constructor. }
  destruct (decide (tagXMLEle root = "newBLOBVector")) as [Htag|_].
  { pose proof (blobs_out (childXMLEle root)) as Hb.
    destruct (blobs (childXMLEle root)) as [[entries|] out].
    2:{ destruct Hb as (asked & -> & Hasked). right. right. right.
        repeat split; try done. by exists asked. }
    destruct Hb as [Hout Hlen].
    destruct (decide (entries ≠ [])); cbn.
    - right. right. left. repeat split; try done.
      { rewrite Htag. apply (bool_decide_unpack _). by vm_compute. }
      exists dev, name, i, sc, out,
        (EvISNewBLOB dev name (Blob.e_size <$> entries) (Blob.e_blobsize <$> entries)
           (Blob.e_blob <$> entries) (Blob.e_format <$> entries)
           (Blob.e_name <$> entries)),
        (Blob.e_blob <$> entries).
      repeat split; try done.
      + eapply Forall_impl; [exact Hout|]. by intros [].
      + rewrite (BlobFacts.filter_malloc_all out Hout). by rewrite length_fmap.
    - left. split; [by left|]. split; [done|].
      assert (entries = []) as -> by (by apply dec_stable).
      destruct out; [|done]. eexists. split; [done|]. repeat constructor. }
  left. split; [by left|]. split; [done|]. exists []. by rewrite app_nil_r.
Qed.

End WithExtern.
End DispatchMore.

Section DispatchSafety.
Context `{Extern}.
Import Dispatch.

Lemma filter_bool_none {A} (f : A → bool) (l : list A) :
  Forall (λ x, f x = false) l → filter (λ x, f x = true) l = [].
Proof.
  induction 1 as [|x l Hx _ IH]; [done|].
  rewrite filter_cons_False; [done|congruence].
Qed.

Lemma filter_bool_all {A} (f : A → bool) (l : list A) :
  Forall (λ x, f x = true) l → filter (λ x, f x = true) l = l.
Proof.
  induction 1 as [|x l Hx _ IH]; [done|].
  rewrite filter_cons_True by done. by rewrite IH.
Qed.

Lemma target_is_callback e t : new_callback_target e = Some t → is_callback e = true.
Proof. by destruct e. Qed.

Lemma quiet_weaken (l : list event) (f : event → bool) :
  (∀ e, quiet e → f e = false) → Forall quiet l → Forall (λ e, f e = false) l.
Proof. intros Hf Hl. eapply Forall_impl; [exact Hl|]. exact Hf. Qed.

(** X3. A write callback ([ISNewNumber], [ISNewSwitch], [ISNewText],
    [ISNewBLOB]) is invoked only for the device and name the element carries,
    only when that pair is cached with a permission other than read-only, and
    only in a call that returns 0 and leaves [msg] alone; the cache this call
    leaves is the one the callback left. *)
Theorem dispatch_write_callback_guarded verbose me mem propCache root msg e dev name :
  let r := dispatch verbose me mem propCache root msg in
  e ∈ r_events r →
  new_callback_target e = Some (dev, name) →
  r_outcome r = Return 0 ∧ r_msg r = msg ∧ r_propCache r = called e propCache ∧
  tagXMLEle root ∈ new_tags ∧
  findXMLAtt root "device" = Some dev ∧ findXMLAtt root "name" = Some name ∧
  ∃ i sc, rosc_find name dev propCache = Some (i, sc) ∧ perm sc ≠ IP_RO.
Proof.
  intros r Hin Ht. subst r.
  pose proof (target_is_callback _ _ Ht) as Hcb.
  pose proof (echo_no_callback := DispatchFacts.echo_no_callback verbose root).
  rewrite Forall_forall in echo_no_callback.
  destruct (DispatchMore.dispatch_shape verbose me mem propCache root msg)
    as [(_ & _ & out & Hev & Hq)|[(_ & _ & e' & _ & Hev & _ & Hnone)
       |[(Ho & Hm & Htag & dev' & name' & i & sc & out & e' & blobs & Hd & Hn & Hf & Hro
          & Hc & Hev & Hout & _ & _ & _ & _ & Ht')
       |(_ & _ & _ & _ & asked & Hev & Hasked)]]];
    rewrite Hev in Hin.
  - exfalso. apply elem_of_app in Hin as [Hin|Hin].
    + specialize (echo_no_callback _ Hin). congruence.
    + rewrite Forall_forall in Hq. destruct (Hq _ Hin) as [? _]. congruence.
  - exfalso. apply elem_of_app in Hin as [Hin|Hin].
    + specialize (echo_no_callback _ Hin). congruence.
    + apply list_elem_of_singleton in Hin as ->. congruence.
  - assert (e = e') as ->.
    { apply elem_of_app in Hin as [Hin|Hin].
      { specialize (echo_no_callback _ Hin). congruence. }
      apply elem_of_app in Hin as [Hin|Hin].
      { rewrite Forall_forall in Hout. destruct (Hout _ Hin). congruence. }
      apply elem_of_cons in Hin as [->|Hin]; [done|].
      apply list_elem_of_fmap in Hin as (b & -> & _). done. }
    rewrite Ht in Ht'. injection Ht' as <- <-.
    repeat split; try done. by exists i, sc.
  - exfalso. apply elem_of_app in Hin as [Hin|Hin].
    { specialize (echo_no_callback _ Hin). congruence. }
    apply elem_of_app in Hin as [Hin|Hin].
    + rewrite Forall_forall in Hasked. specialize (Hasked _ Hin). by destruct e.
    + apply list_elem_of_singleton in Hin as ->. done.
Qed.

(** X4. A call of [dispatch] invokes at most one driver callback; a call that
    does not return 0 (an error return or an exit) invokes none; and a call
    that returns 0 leaves [msg] as it was. *)
Theorem dispatch_at_most_one_callback verbose me mem propCache root msg :
  let r := dispatch verbose me mem propCache root msg in
  (length (filter (λ e, is_callback e = true) (r_events r)) ≤ 1)%nat ∧
  (r_outcome r ≠ Return 0 → Forall (λ e, is_callback e = false) (r_events r)) ∧
  (r_outcome r = Return 0 → r_msg r = msg).
Proof.
  intros r. subst r.
  pose proof (Hecho := filter_bool_none is_callback _
                         (DispatchFacts.echo_no_callback verbose root)).
  destruct (DispatchMore.dispatch_shape verbose me mem propCache root msg)
    as [(_ & Hm & out & Hev & Hq)|[(Ho & Hm & e' & _ & Hev & He' & _)
       |[(Ho & Hm & _ & dev' & name' & i & sc & out & e' & blobs & _ & _ & _ & _ & _
          & Hev & Hout & _ & He' & _ & _ & _)
       |(_ & Hm & _ & _ & asked & Hev & Hasked)]]];
    rewrite Hev.
  - assert (Hnc : Forall (λ e, is_callback e = false) out)
      by (eapply quiet_weaken; [|exact Hq]; by intros ? [? _]).
    split; [|split; [|done]].
    + rewrite filter_app, Hecho, (filter_bool_none is_callback out Hnc). simpl. lia.
    + intros _. apply Forall_app. split; [apply DispatchFacts.echo_no_callback|done].
  - split; [|split; [done|done]].
    rewrite filter_app, Hecho, filter_cons_True, filter_nil by done. simpl. lia.
  - split; [|split; [done|done]].
    rewrite !filter_app, Hecho, filter_cons_True by done.
    rewrite (filter_bool_none is_callback out)
      by (eapply Forall_impl; [exact Hout|]; by intros ? [? _]).
    rewrite (filter_bool_none is_callback (EvFree <$> blobs))
      by (apply Forall_fmap; by apply Forall_true).
    simpl. lia.
  - assert (Hnc : Forall (λ e, is_callback e = false) (asked ++ [EvStderr assert_mem.1])).
    { apply Forall_app. split; [|by repeat constructor].
      eapply Forall_impl; [exact Hasked|]. by intros []. }
    split; [|split; [|done]].
    + rewrite filter_app, Hecho, (filter_bool_none is_callback _ Hnc). simpl. lia.
    + intros _. apply Forall_app. split; [apply DispatchFacts.echo_no_callback|done].
Qed.

(** X5. The cache is insertion-only under [dispatch]: the cache it leaves
    starts with the cache it was given. What comes after is, in a call that
    invokes a driver callback, what the driver defined while the callback ran
    and nothing else; in a call that invokes none, at most one entry, which
    only a [getProperties] element can add. *)
Theorem dispatch_cache_insertion_only verbose me mem propCache root msg :
  let r := dispatch verbose me mem propCache root msg in
  propCache `prefix_of` r_propCache r ∧
  match filter (λ e, is_callback e = true) (r_events r) with
  | [] =>
      (length (r_propCache r) ≤ S (length propCache))%nat ∧
      (tagXMLEle root ≠ "getProperties" → r_propCache r = propCache)
  | e :: _ => r_propCache r = rosc_add_all (driver e propCache) propCache
  end.
Proof.
  intros r. subst r.
  pose proof (Hecho := filter_bool_none is_callback _
                         (DispatchFacts.echo_no_callback verbose root)).
  destruct (DispatchMore.dispatch_shape verbose me mem propCache root msg)
    as [([Hc|(Htag & name & dev & p & ptr & ty & Hc)] & _ & out & Hev & Hq)
       |[(_ & _ & e' & Hc & Hev & He' & _)
       |[(_ & _ & _ & dev' & name' & i & sc & out & e' & blobs & _ & _ & _ & _ & Hc
          & Hev & Hout & _ & He' & _ & _ & _)
       |(_ & _ & Hc & _ & asked & Hev & Hasked)]]];
    rewrite Hc, Hev, !filter_app, Hecho.
  - rewrite (filter_bool_none is_callback out)
      by (eapply quiet_weaken; [|exact Hq]; by intros ? [? _]).
    split; [done|]. split; [lia|done].
  - rewrite (filter_bool_none is_callback out)
      by (eapply quiet_weaken; [|exact Hq]; by intros ? [? _]).
    unfold rosc_add_unique, rosc_add.
    destruct (rosc_find name dev propCache).
    + split; [done|]. split; [lia|done].
    + split; [by apply prefix_app_r|]. split; [|done].
      rewrite length_app. simpl. lia.
  - rewrite filter_cons_True by done. split; [apply DispatchMore.called_prefix|done].
  - rewrite (filter_bool_none is_callback out)
      by (eapply Forall_impl; [exact Hout|]; by intros ? [? _]).
    rewrite filter_cons_True by done. split; [apply DispatchMore.called_prefix|done].
  - rewrite (filter_bool_none is_callback asked)
      by (eapply Forall_impl; [exact Hasked|]; by intros []).
    split; [done|]. split; [simpl; lia|done].
Qed.

(** X6. In a call of [dispatch] that returns, every decode buffer allocated
    has been freed: the number of [malloc]s equals the number of [free]s. A
    call that ends the process (a version that does not fit, or [assert_mem]
    after a [malloc] that gave nothing) frees nothing. *)
Theorem dispatch_buffers_released verbose me mem propCache root msg :
  let r := dispatch verbose me mem propCache root msg in
  match r_outcome r with
  | Return _ =>
      length (filter (λ e, is_malloc e = true) (r_events r))
      = length (filter (λ e, is_free e = true) (r_events r))
  | _ => filter (λ e, is_free e = true) (r_events r) = []
  end.
Proof.
  intros r. subst r.
  pose proof (DispatchMore.echo_quiet verbose root) as Hecho.
  assert (Hem : filter (λ e, is_malloc e = true) (echo verbose root) = [])
    by (apply filter_bool_none; eapply quiet_weaken; [|exact Hecho]; by intros ? (_ & ? & _)).
  assert (Hef : filter (λ e, is_free e = true) (echo verbose root) = [])
    by (apply filter_bool_none; eapply quiet_weaken; [|exact Hecho]; by intros ? (_ & _ & ?)).
  destruct (DispatchMore.dispatch_shape verbose me mem propCache root msg)
    as [(_ & _ & out & Hev & Hq)|[(Ho & _ & e' & _ & Hev & He' & _)
       |[(Ho & _ & _ & dev' & name' & i & sc & out & e' & blobs & _ & _ & _ & _ & _
          & Hev & Hout & Hlen & _ & Hm' & Hf' & _)
       |(Ho & _ & _ & _ & asked & Hev & Hasked)]]];
    rewrite Hev, ?Ho, !filter_app, ?Hem, Hef.
  - rewrite (filter_bool_none is_free out)
      by (eapply quiet_weaken; [|exact Hq]; by intros ? (_ & _ & ?)).
    destruct (r_outcome _); [|done..].
    by rewrite (filter_bool_none is_malloc out)
      by (eapply quiet_weaken; [|exact Hq]; by intros ? (_ & ? & _)).
  - rewrite !filter_cons_False, !filter_nil; [done|by destruct e'..].
  - rewrite !filter_cons_False by congruence.
    rewrite (filter_bool_none is_malloc (EvFree <$> blobs))
      by (apply Forall_fmap; by apply Forall_true).
    rewrite (filter_bool_none is_free out)
      by (eapply Forall_impl; [exact Hout|]; by intros ? [_ ?]).
    rewrite (filter_bool_all is_free (EvFree <$> blobs))
      by (apply Forall_fmap; by apply Forall_true).
    simpl. rewrite app_nil_r, length_fmap. exact Hlen.
  - rewrite (filter_bool_none is_free asked)
      by (eapply Forall_impl; [exact Hasked|]; by intros []).
    done.
Qed.

End DispatchSafety.

Lemma dispatch_write_callback_guarded_witness :
  EvISNewNumber "Cam" "EXPOSURE" [7%float] ["EXP"]
  ∈ Dispatch.r_events (@Dispatch.dispatch Sample.extern false "indi_cam" Sample.mem Sample.propCache
                Scenario.new_exposure "") ∧
  ∃ i sc, rosc_find "EXPOSURE" "Cam" Sample.propCache = Some (i, sc) ∧ perm sc ≠ IP_RO.
Proof.
  assert (Hin : EvISNewNumber "Cam" "EXPOSURE" [7%float] ["EXP"]
                ∈ Dispatch.r_events (@Dispatch.dispatch Sample.extern false "indi_cam" Sample.mem
                              Sample.propCache Scenario.new_exposure "")).
  { vm_compute. apply list_elem_of_here. }
  split; [exact Hin|].
  exact (proj2 (proj2 (proj2 (proj2 (proj2 (proj2
    (@dispatch_write_callback_guarded Sample.extern false "indi_cam" Sample.mem
       Sample.propCache Scenario.new_exposure "" _ "Cam" "EXPOSURE" Hin eq_refl))))))).
Defined.


(** ** Decoding the children of a write *)

Module DecodeFacts.
Section WithExtern.
Context `{Extern}.
Import Dispatch Decode.

(** A number, switch or text write that has passed the checks, tag by tag. *)
Lemma dispatch_write_ok verbose me mem propCache root msg dev name i sc :
  tagXMLEle root ∈ ["newNumberVector"; "newSwitchVector"; "newTextVector"] →
  findXMLAtt root "device" = Some dev → findXMLAtt root "name" = Some name →
  rosc_find name dev propCache = Some (i, sc) → perm sc ≠ IP_RO →
  let r := dispatch verbose me mem propCache root msg in
  r_outcome r = Return 0 ∧ r_msg r = msg ∧
  r_events r
  = echo verbose root ++
    (if decide (tagXMLEle root = "newNumberVector") then
       let '(pairs, out) := numbers dev name (childXMLEle root) in
       out ++ (if decide (pairs ≠ []) then [EvISNewNumber dev name pairs.*2 pairs.*1]
               else [EvMessage dev ("[ERROR] " +:+ name
                                    +:+ ": newNumberVector with no valid members")])
     else if decide (tagXMLEle root = "newSwitchVector") then
       let '(pairs, out) := switches dev name (childXMLEle root) in
       out ++ (if decide (pairs ≠ []) then [EvISNewSwitch dev name pairs.*2 pairs.*1]
               else [EvMessage dev ("[ERROR] " +:+ name
                                    +:+ ": newSwitchVector with no valid members")])
     else
       let pairs := texts (childXMLEle root) in
       if decide (pairs ≠ []) then [EvISNewText dev name pairs.*2 pairs.*1]
       else [EvMessage dev ("[ERROR] " +:+ name +:+ ": set with no valid members")]).
Proof.
  intros Htag Hd Hn Hf Hp r. subst r. unfold dispatch.
  assert (Hnew : tagXMLEle root ∈ new_tags).
  { unfold new_tags. rewrite !elem_of_cons, elem_of_nil in Htag.
    rewrite !elem_of_cons. tauto. }
  rewrite decide_False by by apply DispatchFacts.new_tag_not_get.
  rewrite bool_decide_eq_false_2 by by apply DispatchFacts.new_tag_not_snoop.
  rewrite (DispatchFacts.crackDN_both root dev name Hd Hn), Hf.
  rewrite (DispatchFacts.is_ro_find _ _ _ _ _ Hf), bool_decide_eq_false_2 by done.
  destruct (decide (tagXMLEle root = "newNumberVector")).
  { destruct (numbers dev name (childXMLEle root)). by case_decide. }
  destruct (decide (tagXMLEle root = "newSwitchVector")).
  { destruct (switches dev name (childXMLEle root)). by case_decide. }
  rewrite !elem_of_cons, elem_of_nil in Htag.
  rewrite decide_True by tauto. by case_decide.
Qed.

Lemma texts_omap children : texts children = omap text_member children.
Proof.
  induction children as [|ep rest IH]; [done|]. cbn [texts omap list_omap].
  unfold text_member, named_child.
  destruct (decide (tagXMLEle ep = "oneText")); simpl; [|done].
  destruct (findXMLAtt ep "name"); simpl; by rewrite IH.
Qed.

Lemma switches_omap dev name children :
  (switches dev name children).1 = omap switch_member children ∧
  (switches dev name children).2 = omap (switch_complaint dev name) children.
Proof.
  induction children as [|ep rest IH]; [done|]. cbn [switches omap list_omap].
  destruct (switches dev name rest) as [pairs out]. simpl in IH. destruct IH as [-> ->].
  unfold switch_member, switch_complaint, named_child, switch_state.
  destruct (decide (tagXMLEle ep = "oneSwitch")); simpl; [|done].
  destruct (findXMLAtt ep "name"); simpl; [|done].
  destruct (String.prefix "On" (pcdataXMLEle ep)); simpl; [done|].
  destruct (decide (pcdataXMLEle ep = "Off")); done.
Qed.

Lemma numbers_omap dev name children :
  (numbers dev name children).1 = omap number_member children ∧
  (numbers dev name children).2 = omap (number_complaint dev name) children.
Proof.
  induction children as [|ep rest IH]; [done|]. cbn [numbers omap list_omap].
  destruct (numbers dev name rest) as [pairs out]. simpl in IH. destruct IH as [-> ->].
  unfold number_member, number_complaint, named_child.
  destruct (decide (tagXMLEle ep = "oneNumber")); simpl; [|done].
  destruct (findXMLAtt ep "name"); simpl; [|done].
  destruct (f_scansexa (pcdataXMLEle ep)); done.
Qed.

End WithExtern.
End DecodeFacts.

Section DecodeTheorems.
Context `{Extern}.
Import Dispatch Decode.

(** X7. A [newSwitchVector] for a cached property that is not read-only
    returns 0. Each [oneSwitch] child with a [name] counts as On when its body
    starts with "On", whatever follows, and as Off when its body is exactly
    "Off"; any other body costs one "must be On or Off" message and the child
    is left out. Children with another tag or no [name] are ignored. If any
    child is left, [ISNewSwitch] is invoked once with them, in document
    order; if none is, one "no valid members" message is sent instead. *)
Theorem dispatch_newSwitchVector verbose me mem propCache root msg dev name i sc :
  tagXMLEle root = "newSwitchVector" →
  findXMLAtt root "device" = Some dev →
  findXMLAtt root "name" = Some name →
  rosc_find name dev propCache = Some (i, sc) →
  perm sc ≠ IP_RO →
  let r := dispatch verbose me mem propCache root msg in
  let members := omap switch_member (childXMLEle root) in
  r_outcome r = Return 0 ∧
  r_events r
  = echo verbose root ++ omap (switch_complaint dev name) (childXMLEle root) ++
    (if decide (members ≠ []) then [EvISNewSwitch dev name members.*2 members.*1]
     else [EvMessage dev ("[ERROR] " +:+ name
                          +:+ ": newSwitchVector with no valid members")]).
Proof.
  intros Htag Hd Hn Hf Hp r members. subst r members.
  destruct (DecodeFacts.dispatch_write_ok verbose me mem propCache root msg dev name i sc)
    as (Ho & _ & Hev); try done.
  { rewrite Htag. apply (bool_decide_unpack _). by vm_compute. }
  split; [done|]. rewrite Hev, Htag.
  rewrite decide_False, decide_True by done.
  destruct (DecodeFacts.switches_omap dev name (childXMLEle root)) as [H1 H2].
  destruct (switches dev name (childXMLEle root)) as [pairs out]. simpl in H1, H2.
  by subst.
Qed.

(** X8. A [newNumberVector] for a cached property that is not read-only
    returns 0. A named [oneNumber] child whose body the scanner rejects costs
    one "Bad format" message and is left out, without stopping the batch;
    [ISNewNumber] is invoked once with the children that scan, in document
    order, or, when there is none, one "no valid members" message is sent. *)
Theorem dispatch_newNumberVector verbose me mem propCache root msg dev name i sc :
  tagXMLEle root = "newNumberVector" →
  findXMLAtt root "device" = Some dev →
  findXMLAtt root "name" = Some name →
  rosc_find name dev propCache = Some (i, sc) →
  perm sc ≠ IP_RO →
  let r := dispatch verbose me mem propCache root msg in
  let members := omap number_member (childXMLEle root) in
  r_outcome r = Return 0 ∧
  r_events r
  = echo verbose root ++ omap (number_complaint dev name) (childXMLEle root) ++
    (if decide (members ≠ []) then [EvISNewNumber dev name members.*2 members.*1]
     else [EvMessage dev ("[ERROR] " +:+ name
                          +:+ ": newNumberVector with no valid members")]).
Proof.
  intros Htag Hd Hn Hf Hp r members. subst r members.
  destruct (DecodeFacts.dispatch_write_ok verbose me mem propCache root msg dev name i sc)
    as (Ho & _ & Hev); try done.
  { rewrite Htag. apply (bool_decide_unpack _). by vm_compute. }
  split; [done|]. rewrite Hev, Htag. rewrite decide_True by done.
  destruct (DecodeFacts.numbers_omap dev name (childXMLEle root)) as [H1 H2].
  destruct (numbers dev name (childXMLEle root)) as [pairs out]. simpl in H1, H2.
  by subst.
Qed.

(** X9. A [newTextVector] for a cached property that is not read-only returns
    0 and invokes [ISNewText] once with the name and body of every [oneText]
    child that has a [name], in document order, silently ignoring the other
    children; when no child qualifies it sends one "set with no valid
    members" message and invokes nothing. *)
Theorem dispatch_newTextVector verbose me mem propCache root msg dev name i sc :
  tagXMLEle root = "newTextVector" →
  findXMLAtt root "device" = Some dev →
  findXMLAtt root "name" = Some name →
  rosc_find name dev propCache = Some (i, sc) →
  perm sc ≠ IP_RO →
  let r := dispatch verbose me mem propCache root msg in
  let members := omap text_member (childXMLEle root) in
  r_outcome r = Return 0 ∧
  r_events r
  = echo verbose root ++
    (if decide (members ≠ []) then [EvISNewText dev name members.*2 members.*1]
     else [EvMessage dev ("[ERROR] " +:+ name +:+ ": set with no valid members")]).
Proof.
  intros Htag Hd Hn Hf Hp r members. subst r members.
  destruct (DecodeFacts.dispatch_write_ok verbose me mem propCache root msg dev name i sc)
    as (Ho & _ & Hev); try done.
  { rewrite Htag. apply (bool_decide_unpack _). by vm_compute. }
  split; [done|]. rewrite Hev, Htag.
  rewrite !(decide_False (P := "newTextVector" = _)) by done.
  by rewrite DecodeFacts.texts_omap.
Qed.

End DecodeTheorems.

Lemma dispatch_newSwitchVector_witness :
  rosc_find "CONNECTION" "Mount" Sample.propCache
  = Some (1%nat, mkROSC "CONNECTION" "Mount" IP_RW 1 INDI_SWITCH) ∧
  Dispatch.r_events
    (@Dispatch.dispatch Sample.extern false "indi_mount" Sample.mem Sample.propCache
       Scenario.new_connection "")
  = [EvMessage "Mount" "[ERROR] CONNECTION: must be On or Off: off";
     EvISNewSwitch "Mount" "CONNECTION" [ISS_OFF; ISS_ON] ["A"; "B"]].
Proof.
  split; [reflexivity|].
  assert (Hrw : IP_RW ≠ IP_RO) by discriminate.
  exact (proj2 (@dispatch_newSwitchVector Sample.extern false "indi_mount" Sample.mem
                  Sample.propCache Scenario.new_connection "" "Mount" "CONNECTION" 1%nat
                  (mkROSC "CONNECTION" "Mount" IP_RW 1 INDI_SWITCH)
                  eq_refl eq_refl eq_refl eq_refl Hrw)).
Defined.

Lemma dispatch_newNumberVector_witness :
  rosc_find "EXPOSURE" "Cam" Sample.propCache
  = Some (2%nat, mkROSC "EXPOSURE" "Cam" IP_RW 2 INDI_NUMBER) ∧
  Dispatch.r_events
    (@Dispatch.dispatch Sample.extern false "indi_cam" Sample.mem Sample.propCache
       Scenario.new_exposure_bad "")
  = [EvMessage "Cam" "[ERROR] EXPOSURE: Bad format seven";
     EvMessage "Cam" "[ERROR] EXPOSURE: newNumberVector with no valid members"].
Proof.
  split; [reflexivity|].
  assert (Hrw : IP_RW ≠ IP_RO) by discriminate.
  exact (proj2 (@dispatch_newNumberVector Sample.extern false "indi_cam" Sample.mem
                  Sample.propCache Scenario.new_exposure_bad "" "Cam" "EXPOSURE" 2%nat
                  (mkROSC "EXPOSURE" "Cam" IP_RW 2 INDI_NUMBER)
                  eq_refl eq_refl eq_refl eq_refl Hrw)).
Defined.

Lemma dispatch_newTextVector_witness :
  rosc_find "CONNECTION" "Mount" Sample.propCache
  = Some (1%nat, mkROSC "CONNECTION" "Mount" IP_RW 1 INDI_SWITCH) ∧
  Dispatch.r_events
    (@Dispatch.dispatch Sample.extern false "indi_mount" Sample.mem Sample.propCache
       Scenario.new_text_on_connection "")
  = [EvISNewText "Mount" "CONNECTION" ["x"] ["A"]].
Proof.
  split; [reflexivity|].
  assert (Hrw : IP_RW ≠ IP_RO) by discriminate.
  exact (proj2 (@dispatch_newTextVector Sample.extern false "indi_mount" Sample.mem
                  Sample.propCache Scenario.new_text_on_connection "" "Mount" "CONNECTION"
                  1%nat (mkROSC "CONNECTION" "Mount" IP_RW 1 INDI_SWITCH)
                  eq_refl eq_refl eq_refl eq_refl Hrw)).
Defined.

(** ** The applicators on success *)

Module AssignFacts.
Section Members.
Context {A V : Type} (key : A → string) (upd : V → A → A).
Hypothesis key_upd : ∀ v a, key (upd v a) = key a.
Hypothesis upd_upd : ∀ v w a, upd w (upd v a) = upd w a.

Lemma find_ix_alter v i l name :
  Assign.find_ix key (alter (upd v) i l) name = Assign.find_ix key l name.
Proof.
  unfold Assign.find_ix. apply list_find_alter_fst. intros a. by rewrite key_upd.
Qed.

Lemma assigned_same_keys l l' batch i :
  (∀ name, Assign.find_ix key l' name = Assign.find_ix key l name) →
  @Assign.assigned A V key l' batch i = @Assign.assigned A V key l batch i.
Proof.
  intros Hext. induction batch as [|[name v] rest IH]; simpl; [done|].
  by rewrite IH, Hext.
Qed.

Lemma updated_lookup l batch i a :
  l !! i = Some a →
  Assign.updated key upd l batch !! i = Some (from_option (λ v, upd v a) a (@Assign.assigned A V key l batch i)).
Proof. intros Hi. unfold Assign.updated. by rewrite list_lookup_imap, Hi. Qed.

Lemma updated_nil l : Assign.updated key upd l [] = l.
Proof.
  apply list_eq. intros i. unfold Assign.updated. rewrite list_lookup_imap.
  by destruct (l !! i).
Qed.

(** One entry stored, then the rest of the batch: the same as the whole
    batch at once. *)
Lemma updated_cons l name v rest j :
  Assign.find_ix key l name = Some j →
  Assign.updated key upd (alter (upd v) j l) rest = Assign.updated key upd l ((name, v) :: rest).
Proof.
  intros Hj. apply list_eq. intros i. unfold Assign.updated.
  rewrite !list_lookup_imap.
  rewrite (assigned_same_keys l (alter (upd v) j l) rest i)
    by (intros nm; apply find_ix_alter).
  simpl. rewrite Hj.
  destruct (decide (j = i)) as [->|Hne].
  - rewrite list_lookup_alter_eq. destruct (l !! i) as [a|]; simpl; [|done].
    destruct (@Assign.assigned A V key l rest i); simpl; [by rewrite upd_upd|].
    by rewrite decide_True.
  - rewrite list_lookup_alter_ne by done. destruct (l !! i) as [a|]; simpl; [|done].
    destruct (@Assign.assigned A V key l rest i); simpl; [done|].
    rewrite decide_False; [done|congruence].
Qed.

Lemma updated_length l batch : length (Assign.updated key upd l batch) = length l.
Proof. unfold Assign.updated. by rewrite length_imap. Qed.

End Members.
End AssignFacts.

Module SwitchMore.
Import Switch.

Lemma set_s_name st sp : sw_name (set_s st sp) = sw_name sp.
Proof. done. Qed.

Lemma set_s_set_s st st' sp : set_s st' (set_s st sp) = set_s st' sp.
Proof. done. Qed.

Lemma with_sp_id svp : with_sp svp (svp_sp svp) = svp.
Proof. by destruct svp. Qed.

(** What the loop over the batch has done when it stops: every entry before
    the first name that is not a member has been stored. *)
Lemma apply_loop_updated svp batch :
  match apply_loop svp batch with
  | inl svp' =>
      Forall (λ e, is_Some (IUFindSwitch svp e.1)) batch ∧
      svp' = with_sp svp (Assign.updated sw_name set_s (svp_sp svp) batch)
  | inr (svp', name) =>
      ∃ pre st post,
        batch = pre ++ (name, st) :: post ∧
        Forall (λ e, is_Some (IUFindSwitch svp e.1)) pre ∧
        IUFindSwitch svp name = None ∧
        svp' = with_sp svp (Assign.updated sw_name set_s (svp_sp svp) pre)
  end.
Proof.
  revert svp. induction batch as [|[name st] rest IH]; intros svp; simpl.
  { split; [done|]. by rewrite AssignFacts.updated_nil, with_sp_id. }
  destruct (IUFindSwitch svp name) as [j|] eqn:Hj.
  2:{ exists [], st, rest. repeat split; try done.
      by rewrite AssignFacts.updated_nil, with_sp_id. }
  assert (Hext : ∀ nm, IUFindSwitch (store_s svp j st) nm = IUFindSwitch svp nm).
  { intros nm. apply (AssignFacts.find_ix_alter sw_name set_s set_s_name). }
  assert (Hup : ∀ b, with_sp (store_s svp j st)
                       (Assign.updated sw_name set_s (svp_sp (store_s svp j st)) b)
                     = with_sp svp (Assign.updated sw_name set_s (svp_sp svp)
                                      ((name, st) :: b))).
  { intros b. simpl.
    by rewrite (AssignFacts.updated_cons sw_name set_s set_s_name set_s_set_s
                  (svp_sp svp) name st b j Hj). }
  specialize (IH (store_s svp j st)).
  destruct (apply_loop (store_s svp j st) rest) as [svp'|[svp' name']].
  - destruct IH as [Hall ->]. split.
    + constructor; [simpl; rewrite Hj; by eexists|].
      eapply Forall_impl; [exact Hall|]. intros e; simpl. by rewrite Hext.
    + apply Hup.
  - destruct IH as (pre & st' & post & -> & Hall & Hnone & ->).
    exists ((name, st) :: pre), st', post. repeat split.
    + constructor; [simpl; rewrite Hj; by eexists|].
      eapply Forall_impl; [exact Hall|]. intros e; simpl. by rewrite Hext.
    + by rewrite <- Hext.
    + apply Hup.
Qed.

Lemma find_reset svp name :
  IUFindSwitch (IUResetSwitch svp) name = IUFindSwitch svp name.
Proof.
  unfold IUFindSwitch, IUResetSwitch. simpl. rewrite list_find_fmap.
  by destruct (list_find _ (svp_sp svp)) as [[? ?]|].
Qed.

(** The members of the cleared vector after the batch. *)
Lemma cleared_updated_lookup svp batch i sp :
  svp_sp svp !! i = Some sp →
  Assign.updated sw_name set_s (set_s ISS_OFF <$> svp_sp svp) batch !! i
  = Some (set_s (if decide (Assign.assigned sw_name (svp_sp svp) batch i = Some ISS_ON)
                 then ISS_ON else ISS_OFF) sp).
Proof.
  intros Hi.
  rewrite (AssignFacts.updated_lookup sw_name set_s _ batch i (set_s ISS_OFF sp))
    by (by rewrite list_lookup_fmap, Hi).
  rewrite (AssignFacts.assigned_same_keys sw_name (svp_sp svp) (set_s ISS_OFF <$> svp_sp svp))
    by (intros nm; apply (find_reset svp nm)).
  by destruct (Assign.assigned sw_name (svp_sp svp) batch i) as [[]|].
Qed.

End SwitchMore.

(** X11. [IUUpdateSwitch] under a rule other than OneOfMany. If every name of
    the batch is a member, it returns 0, writes nothing, and each member
    carries the last state the batch has for it (the others keep theirs);
    the number of members On is not checked, so AtMostOne is not enforced.
    Otherwise it returns -1 with the state Idle and one [setSwitchVector]
    naming the first name that is not a member, and the entries before that
    name have been stored all the same. *)
Theorem IUUpdateSwitch_unchecked_rules svp batch :
  svp_r svp ≠ ISR_1OFMANY →
  let r := Switch.IUUpdateSwitch svp batch in
  (Forall (λ e, is_Some (Switch.IUFindSwitch svp e.1)) batch ∧
   r = (0, Switch.with_sp svp (Assign.updated sw_name Switch.set_s (svp_sp svp) batch), []))
  ∨
  (∃ pre name st post,
     batch = pre ++ (name, st) :: post ∧
     Forall (λ e, is_Some (Switch.IUFindSwitch svp e.1)) pre ∧
     Switch.IUFindSwitch svp name = None ∧
     r.1.1 = -1 ∧ svp_s r.1.2 = IPS_IDLE ∧
     svp_sp r.1.2 = Assign.updated sw_name Switch.set_s (svp_sp svp) pre ∧
     r.2 = [EvSetSwitch r.1.2
              (Some (Switch.not_member_msg name (svp_label svp) (svp_name svp)))]).
Proof.
  intros Hr r. subst r. unfold Switch.IUUpdateSwitch.
  destruct (decide (svp_r svp = ISR_1OFMANY)) as [?|_]; [done|].
  pose proof (SwitchMore.apply_loop_updated svp batch) as Hl.
  destruct (Switch.apply_loop svp batch) as [svp'|[svp' name]].
  - destruct Hl as [Hall ->]. left. split; [done|].
    simpl. by rewrite decide_False.
  - destruct Hl as (pre & st & post & -> & Hall & Hnone & ->). right.
    exists pre, name, st, post. by repeat split.
Qed.

Lemma IUUpdateSwitch_unchecked_rules_witness :
  let svp := mkSVP "Mount" "PARK" "Park" IP_RW ISR_ATMOST1 IPS_OK
               [mkISwitch "PARK" "p" ISS_OFF; mkISwitch "UNPARK" "u" ISS_OFF] in
  svp_r svp ≠ ISR_1OFMANY ∧
  Switch.IUUpdateSwitch svp [("PARK", ISS_ON); ("UNPARK", ISS_ON)]
  = (0, mkSVP "Mount" "PARK" "Park" IP_RW ISR_ATMOST1 IPS_OK
          [mkISwitch "PARK" "p" ISS_ON; mkISwitch "UNPARK" "u" ISS_ON], []).
Proof.
  assert (Hr : ISR_ATMOST1 ≠ ISR_1OFMANY) by discriminate.
  split; [exact Hr|].
  destruct (IUUpdateSwitch_unchecked_rules
              (mkSVP "Mount" "PARK" "Park" IP_RW ISR_ATMOST1 IPS_OK
                 [mkISwitch "PARK" "p" ISS_OFF; mkISwitch "UNPARK" "u" ISS_OFF])
              [("PARK", ISS_ON); ("UNPARK", ISS_ON)] Hr)
    as [[_ Heq]|(pre & name & st & post & _ & _ & _ & Hret & _)].
  - exact Heq.
  - vm_compute in Hret. discriminate.
Defined.

(** X12. [IUUpdateSwitch] under OneOfMany, when every name of the batch is a
    member: the vector is cleared first, so the outcome depends on the batch
    alone. After the loop a member is On if and only if the batch's last word
    for it is On; the call returns 0 exactly when that leaves one member On,
    and then this is the vector it leaves, with nothing written: the member
    that was On before is Off unless the batch switches it On again. *)
Theorem IUUpdateSwitch_one_of_many_success svp batch :
  svp_r svp = ISR_1OFMANY →
  Forall (λ e, is_Some (Switch.IUFindSwitch svp e.1)) batch →
  let r := Switch.IUUpdateSwitch svp batch in
  let sp' := Assign.updated sw_name Switch.set_s
               (Switch.set_s ISS_OFF <$> svp_sp svp) batch in
  (∀ i sp, svp_sp svp !! i = Some sp →
     sp' !! i
     = Some (Switch.set_s
               (if decide (Assign.assigned sw_name (svp_sp svp) batch i = Some ISS_ON)
                then ISS_ON else ISS_OFF) sp)) ∧
  (r.1.1 = 0 ↔ length (filter (λ sp, sw_s sp = ISS_ON) sp') = 1%nat) ∧
  (r.1.1 = 0 → r = (0, Switch.with_sp svp sp', [])).
Proof.
  intros Hr Hall r sp'. subst r sp'.
  split; [intros i sp; apply SwitchMore.cleared_updated_lookup|].
  unfold Switch.IUUpdateSwitch.
  destruct (decide (svp_r svp = ISR_1OFMANY)) as [_|?]; [|done].
  pose proof (SwitchMore.apply_loop_updated (Switch.IUResetSwitch svp) batch) as Hl.
  destruct (Switch.apply_loop (Switch.IUResetSwitch svp) batch) as [svp'|[svp' name]].
  2:{ exfalso. destruct Hl as (pre & st & post & -> & _ & Hnone & _).
      rewrite SwitchMore.find_reset in Hnone.
      apply Forall_app in Hall as [_ Hall]. apply Forall_cons in Hall as [[j Hj] _].
      simpl in Hj. congruence. }
  destruct Hl as [_ ->]. simpl.
  rewrite decide_True by done. unfold Switch.t_count. simpl.
  destruct (decide (length (filter (λ sp, sw_s sp = ISS_ON)
                      (Assign.updated sw_name Switch.set_s
                         (Switch.set_s ISS_OFF <$> svp_sp svp) batch)) ≠ 1%nat))
    as [Hc|Hc]; simpl.
  - split; [split; [done|by intros ?]|done].
  - apply dec_stable in Hc. split; [by split|done].
Qed.

Lemma IUUpdateSwitch_one_of_many_success_witness :
  svp_r Sample.connection_switches = ISR_1OFMANY ∧
  Forall (λ e, is_Some (Switch.IUFindSwitch Sample.connection_switches e.1))
    [("B", ISS_ON)] ∧
  Switch.IUUpdateSwitch Sample.connection_switches [("B", ISS_ON)]
  = (0, mkSVP "Mount" "CONNECTION" "Connection" IP_RW ISR_1OFMANY IPS_OK
          [mkISwitch "A" "a" ISS_OFF; mkISwitch "B" "b" ISS_ON; mkISwitch "C" "c" ISS_OFF],
     []).
Proof.
  assert (Hall : Forall (λ e, is_Some (Switch.IUFindSwitch Sample.connection_switches e.1))
                   [("B", ISS_ON)]).
  { repeat constructor. by eexists. }
  split; [reflexivity|]. split; [exact Hall|].
  apply (IUUpdateSwitch_one_of_many_success Sample.connection_switches [("B", ISS_ON)]
           eq_refl Hall).
  reflexivity.
Defined.

Module TextMore.
Import Text.

Lemma with_tp_id tvp : with_tp tvp (tvp_tp tvp) = tvp.
Proof. by destruct tvp. Qed.

Lemma find_ix_text tvp name :
  Assign.find_ix t_name (tvp_tp tvp) name = fst <$> IUFindText tvp name.
Proof. done. Qed.

Lemma text_check_loop_spec tvp batch :
  match check_loop tvp batch with
  | None => Forall (λ e, is_Some (IUFindText tvp e.1)) batch
  | Some name =>
      ∃ pre text post,
        batch = pre ++ (name, text) :: post ∧
        Forall (λ e, is_Some (IUFindText tvp e.1)) pre ∧
        IUFindText tvp name = None
  end.
Proof.
  induction batch as [|[name text] rest IH]; simpl; [done|].
  destruct (IUFindText tvp name) as [[i tp]|] eqn:Hf.
  - destruct (check_loop tvp rest) as [name'|].
    + destruct IH as (pre & text' & post & -> & Hpre & Hnone).
      exists ((name, text) :: pre), text', post. repeat split; [|done].
      constructor; [simpl; rewrite Hf; by eexists|done].
    + constructor; [simpl; rewrite Hf; by eexists|done].
  - by exists [], text, rest.
Qed.

Lemma text_store_loop_updated tvp batch :
  Forall (λ e, is_Some (IUFindText tvp e.1)) batch →
  store_loop tvp batch
  = with_tp tvp (Assign.updated t_name IUSaveText (tvp_tp tvp) batch).
Proof.
  revert tvp. induction batch as [|[name text] rest IH]; intros tvp Hall; simpl.
  { by rewrite AssignFacts.updated_nil, with_tp_id. }
  apply Forall_cons in Hall as [[[j tp] Hj] Hall]. simpl in Hj. rewrite Hj.
  set (tvp1 := with_tp tvp (alter (IUSaveText text) j (tvp_tp tvp))).
  assert (Hext : ∀ nm, fst <$> IUFindText tvp1 nm = fst <$> IUFindText tvp nm).
  { intros nm. by apply (AssignFacts.find_ix_alter t_name IUSaveText). }
  rewrite IH.
  - unfold tvp1. simpl.
    rewrite (AssignFacts.updated_cons t_name IUSaveText) with (name := name); try done.
    unfold Assign.find_ix. fold (IUFindText tvp name). by rewrite Hj.
  - eapply Forall_impl; [exact Hall|]. intros e [x Hx]; simpl in *.
    specialize (Hext e.1). rewrite Hx in Hext.
    destruct (IUFindText tvp1 e.1); [by eexists|done].
Qed.

End TextMore.

(** X13. [IUUpdateText] is all-or-nothing. If every name of the batch is a
    member it returns 0, writes nothing, leaves the state alone, and each
    member carries the last text the batch has for it while the others keep
    theirs. Otherwise it returns -1 having changed nothing but the state, now
    Idle, and having written one [setTextVector] whose message names the
    first name that is not a member. *)
Theorem IUUpdateText_all_or_nothing tvp batch :
  let r := Text.IUUpdateText tvp batch in
  (Forall (λ e, is_Some (Text.IUFindText tvp e.1)) batch ∧
   r = (0, Text.with_tp tvp (Assign.updated t_name Text.IUSaveText (tvp_tp tvp) batch), []))
  ∨
  (∃ pre name text post,
     batch = pre ++ (name, text) :: post ∧
     Forall (λ e, is_Some (Text.IUFindText tvp e.1)) pre ∧
     Text.IUFindText tvp name = None ∧
     r = (-1, Text.with_s tvp IPS_IDLE,
          [EvSetText (Text.with_s tvp IPS_IDLE)
             (Some (Text.not_member_msg name (tvp_label tvp) (tvp_name tvp)))])).
Proof.
  intros r. subst r. unfold Text.IUUpdateText.
  pose proof (TextMore.text_check_loop_spec tvp batch) as Hc.
  destruct (Text.check_loop tvp batch) as [name|].
  - right. destruct Hc as (pre & text & post & -> & Hpre & Hnone).
    by exists pre, name, text, post.
  - left. split; [done|]. by rewrite TextMore.text_store_loop_updated.
Qed.

Module BlobMore.
Import Blob.

Lemma with_bp_id bvp : with_bp bvp (bvp_bp bvp) = bvp.
Proof. by destruct bvp. Qed.

Lemma blob_check_loop_spec bvp batch :
  match check_loop bvp batch with
  | None => Forall (λ e, is_Some (IUFindBLOB bvp (e_name e))) batch
  | Some name =>
      ∃ pre e post,
        batch = pre ++ e :: post ∧ e_name e = name ∧
        Forall (λ e, is_Some (IUFindBLOB bvp (e_name e))) pre ∧
        IUFindBLOB bvp name = None
  end.
Proof.
  induction batch as [|e rest IH]; simpl; [done|].
  destruct (IUFindBLOB bvp (e_name e)) as [[i bp]|] eqn:Hf.
  - destruct (check_loop bvp rest) as [name'|].
    + destruct IH as (pre & e' & post & -> & Hn & Hpre & Hnone).
      exists (e :: pre), e', post. repeat split; [done| |done].
      constructor; [rewrite Hf; by eexists|done].
    + constructor; [rewrite Hf; by eexists|done].
  - by exists [], e, rest.
Qed.

Lemma blob_store_loop_updated bvp batch :
  Forall (λ e, is_Some (IUFindBLOB bvp (e_name e))) batch →
  store_loop bvp batch
  = with_bp bvp (Assign.updated b_name IUSaveBLOB (bvp_bp bvp) (blob_batch batch)).
Proof.
  revert bvp. induction batch as [|e rest IH]; intros bvp Hall; simpl.
  { unfold blob_batch. simpl. by rewrite AssignFacts.updated_nil, with_bp_id. }
  apply Forall_cons in Hall as [[[j bp] Hj] Hall]. rewrite Hj.
  set (bvp1 := with_bp bvp (alter (IUSaveBLOB e) j (bvp_bp bvp))).
  assert (Hext : ∀ nm, fst <$> IUFindBLOB bvp1 nm = fst <$> IUFindBLOB bvp nm).
  { intros nm. by apply (AssignFacts.find_ix_alter b_name IUSaveBLOB). }
  rewrite IH.
  - unfold bvp1, blob_batch. simpl.
    rewrite (AssignFacts.updated_cons b_name IUSaveBLOB) with (name := e_name e);
      try done.
    unfold Assign.find_ix. fold (IUFindBLOB bvp (e_name e)). by rewrite Hj.
  - eapply Forall_impl; [exact Hall|]. intros e' [x Hx]; simpl in *.
    specialize (Hext (e_name e')). rewrite Hx in Hext.
    destruct (IUFindBLOB bvp1 (e_name e')); [by eexists|done].
Qed.

End BlobMore.

(** X14. [IUUpdateBLOB] is all-or-nothing on the vector, but its failure is
    not free. If every name of the batch is a member it returns 0, writes
    nothing, leaves the ping counter alone, and each member holds the last
    entry the batch has for it. Otherwise no member changes, the state becomes
    Idle and -1 is returned; the report goes out through [IDSetBLOB], so the
    call first waits for the reply to the previous BLOB ping when one is
    outstanding, then writes the [setBLOBVector] and a new [pingRequest],
    using up a ping id. *)
Theorem IUUpdateBLOB_all_or_nothing uid bvp batch :
  let r := Blob.IUUpdateBLOB uid bvp batch in
  (Forall (λ e, is_Some (Blob.IUFindBLOB bvp (Blob.e_name e))) batch ∧
   r = (0, Blob.with_bp bvp
             (Assign.updated b_name Blob.IUSaveBLOB (bvp_bp bvp) (blob_batch batch)),
        uid, []))
  ∨
  (∃ pre e post,
     batch = pre ++ e :: post ∧
     Forall (λ e, is_Some (Blob.IUFindBLOB bvp (Blob.e_name e))) pre ∧
     Blob.IUFindBLOB bvp (Blob.e_name e) = None ∧
     r = (-1, Blob.with_s bvp IPS_IDLE, Ping.wrap_long (uid + 1),
          (if decide (uid ≠ 0) then [EvWaitPingReply (Ping.BLOB_PING_PATTERN uid)] else [])
          ++ [EvSetBLOB (Blob.with_s bvp IPS_IDLE)
                (Some (Blob.not_member_msg (Blob.e_name e) (bvp_label bvp) (bvp_name bvp)));
              EvPingRequest (Ping.BLOB_PING_PATTERN (Ping.wrap_long (uid + 1)))])).
Proof.
  intros r. subst r. unfold Blob.IUUpdateBLOB.
  pose proof (BlobMore.blob_check_loop_spec bvp batch) as Hc.
  destruct (Blob.check_loop bvp batch) as [name|].
  - right. destruct Hc as (pre & e & post & -> & <- & Hpre & Hnone).
    by exists pre, e, post.
  - left. split; [done|]. by rewrite BlobMore.blob_store_loop_updated.
Qed.

(** ** Range checks on doubles *)

Module FloatFacts.

Lemma ltb_nan_l x : PrimFloat.ltb nan x = false.
Proof.
  rewrite ltb_spec. replace (Prim2SF nan) with S754_nan by (by vm_compute). done.
Qed.

Lemma ltb_nan_r x : PrimFloat.ltb x nan = false.
Proof.
  rewrite ltb_spec. replace (Prim2SF nan) with S754_nan by (by vm_compute).
  by destruct (Prim2SF x).
Qed.

End FloatFacts.

(** X15. The range check of [IUUpdateNumber] lets a NaN through: both
    comparisons with the bounds are false for it, so an entry whose name is a
    member and whose value is NaN is accepted, the call returns 0 and the
    member's value is NaN afterwards, whatever its [min] and [max]. *)
Theorem IUUpdateNumber_accepts_nan `{Extern} nvp name i np :
  Number.IUFindNumber nvp name = Some (i, np) →
  let r := Number.IUUpdateNumber nvp [(name, nan)] in
  Number.out_of_range nan np = false ∧
  r.1.1 = 0 ∧ r.2 = [] ∧
  nvp_np r.1.2 !! i = Some (Number.set_value nan np).
Proof.
  intros Hf r. subst r.
  assert (Hr : Number.out_of_range nan np = false).
  { unfold Number.out_of_range. by rewrite FloatFacts.ltb_nan_l, FloatFacts.ltb_nan_r. }
  split; [done|]. unfold Number.IUUpdateNumber.
  cbn [Number.check_loop]. rewrite Hf, Hr.
  cbn [Number.store_loop]. rewrite Hf. cbn [fst snd Number.with_np nvp_np].
  repeat split.
  apply list_find_lookup in Hf. by rewrite list_lookup_alter_eq, Hf.
Qed.

Lemma IUUpdateNumber_accepts_nan_witness :
  @Number.IUFindNumber Sample.exposure "EXP"
  = Some (0%nat, mkINumber "EXP" "Exp" "%g" 0%float 10%float 1%float 5%float) ∧
  (@Number.IUUpdateNumber Sample.extern Sample.exposure [("EXP", nan)]).1.1 = 0.
Proof.
  split; [reflexivity|].
  exact (proj1 (proj2 (@IUUpdateNumber_accepts_nan Sample.extern Sample.exposure "EXP" 0%nat
                         (mkINumber "EXP" "Exp" "%g" 0%float 10%float 1%float 5%float)
                         eq_refl))).
Defined.

(** ** Defining, then writing *)

Section DefineThenWrite.
Context `{Extern}.
Import Dispatch.

(** X16. After a vector has been defined, a write to its device and name is
    never turned away as undefined, and whether it is turned away as read-only
    is decided by the first definition of that pair: with [effective] the
    permission already cached for the pair, or the one just given when there
    was none, a [new<Kind>Vector] returns -1 without any callback when
    [effective] is read-only. Otherwise it is let through with [msg] left
    alone: it returns 0, unless it is a [newBLOBVector] with a [oneBLOB]
    child whose buffer [malloc] refuses, which ends the process in
    [assert_mem]. Defining the pair again with another permission does not
    change how writes are treated. *)
Theorem define_then_write verbose me mem propCache root msg dev name p ptr ty :
  tagXMLEle root ∈ new_tags →
  findXMLAtt root "device" = Some dev →
  findXMLAtt root "name" = Some name →
  let cache := rosc_add_unique name dev p ptr ty propCache in
  let effective := match rosc_find name dev propCache with
                   | Some (_, sc) => perm sc
                   | None => p
                   end in
  let r := dispatch verbose me mem cache root msg in
  (effective = IP_RO →
   r_outcome r = Return (-1) ∧
   r_msg r = snprintf MAXRBUF ("Cannot set read-only property " +:+ name) ∧
   Forall (λ e, is_callback e = false) (r_events r)) ∧
  (effective ≠ IP_RO →
   r_msg r = msg ∧
   (r_outcome r = Return 0 ∨
    (tagXMLEle root = "newBLOBVector" ∧ r_outcome r = Exit assert_mem.2 ∧
     ∃ ep, ep ∈ childXMLEle root ∧ decoded_oneBLOB ep = true ∧
           malloc (blob_capacity (bloblen_of ep)) = false))).
Proof.
  intros Htag Hd Hn cache effective r. subst cache effective r.
  pose proof (RegistryMore.rosc_find_add_unique_same name dev p ptr ty propCache) as Hf.
  set (cache := rosc_add_unique name dev p ptr ty propCache) in *.
  set (found := default (length propCache, mkROSC name dev p ptr ty)
                  (rosc_find name dev propCache)) in *.
  assert (Hperm : perm found.2 = match rosc_find name dev propCache with
                                 | Some (_, sc) => perm sc
                                 | None => p
                                 end).
  { unfold found. by destruct (rosc_find name dev propCache) as [[? ?]|]. }
  rewrite <- Hperm. destruct found as [i sc]. simpl. split; intros Hp.
  - rewrite (DispatchFacts.dispatch_ro verbose me mem cache root msg dev name i sc);
      auto using DispatchFacts.new_tag_not_get, DispatchFacts.new_tag_not_snoop,
        DispatchFacts.crackDN_both.
    repeat split. apply DispatchFacts.echo_no_callback.
  - destruct (decide (tagXMLEle root = "newBLOBVector")) as [Hblob|Hother].
    + rewrite (BlobFacts.dispatch_blob verbose me mem cache root msg dev name i sc)
        by done.
      destruct (blobs (childXMLEle root)) as [[entries|] out] eqn:Hb.
      * by case_decide; split; [|left| |left].
      * split; [done|]. right. repeat split; try done.
        by apply (BlobFacts.blobs_None _ out).
    + destruct (DecodeFacts.dispatch_write_ok verbose me mem cache root msg dev name i sc)
        as (Ho & Hm & _); try done; [|by split; [|left]].
      apply DispatchFacts.new_tag_cases in Htag.
      rewrite !elem_of_cons. tauto.
Qed.

End DefineThenWrite.

Lemma define_then_write_witness :
  tagXMLEle Sample.evil_text ∈ Dispatch.new_tags ∧
  (* first definition, read-only: the write is turned away *)
  Dispatch.r_outcome
    (@Dispatch.dispatch Sample.extern false "indi_cam" Sample.mem
       (IDDefText 0 Sample.driver_info []).2 Sample.evil_text "")
  = Dispatch.Return (-1) ∧
  (* defined read-write first, then read-only: the write still goes through *)
  Dispatch.r_outcome
    (@Dispatch.dispatch Sample.extern false "indi_cam" Sample.mem
       (rosc_add_unique "DRIVER_INFO" "Cam" IP_RO 0 INDI_TEXT
          (rosc_add_unique "DRIVER_INFO" "Cam" IP_RW 0 INDI_TEXT []))
       Sample.evil_text "")
  = Dispatch.Return 0.
Proof.
  assert (Htag : tagXMLEle Sample.evil_text ∈ Dispatch.new_tags)
    by (apply (bool_decide_unpack _); vm_compute; exact I).
  split; [exact Htag|]. split.
  - apply (@define_then_write Sample.extern false "indi_cam" Sample.mem []
             Sample.evil_text "" "Cam" "DRIVER_INFO" IP_RO 0%nat INDI_TEXT
             Htag eq_refl eq_refl).
    reflexivity.
  - assert (Hrw : IP_RW ≠ IP_RO) by discriminate.
    destruct (proj2 (@define_then_write Sample.extern false "indi_cam" Sample.mem
                       (rosc_add_unique "DRIVER_INFO" "Cam" IP_RW 0 INDI_TEXT [])
                       Sample.evil_text "" "Cam" "DRIVER_INFO" IP_RO 0%nat INDI_TEXT
                       Htag eq_refl eq_refl) Hrw) as (_ & [Ho|(Hblob & _)]).
    + exact Ho.
    + discriminate Hblob.
Defined.

(** ** Configuration files *)

Module ConfigFacts.
Section WithExtern.
Context `{Extern}.
Import Dispatch Config ConfigSpec.

Lemma crackDN_has_dn root :
  has_dn root →
  ∃ rdev rname, crackDN root = inr (rdev, rname) ∧
                findXMLAtt root "device" = Some rdev ∧
                findXMLAtt root "name" = Some rname.
Proof.
  intros [[rdev Hd] [rname Hn]]. exists rdev, rname.
  split; [by apply DispatchFacts.crackDN_both|done].
Qed.

Lemma crackDN_not_has_dn root :
  ¬ has_dn root → ∃ why, crackDN root = inl why.
Proof.
  intros Hno. unfold crackDN.
  destruct (findXMLAtt root "device") as [d|] eqn:Hd; [|by eexists].
  destruct (findXMLAtt root "name") as [n|] eqn:Hn; [|by eexists].
  exfalso. apply Hno. split; by eexists.
Qed.

Lemma matches_iff dev property root rdev rname :
  findXMLAtt root "device" = Some rdev → findXMLAtt root "name" = Some rname →
  matches dev property root ↔ dev = rdev ∧ (property = Some rname ∨ property = None).
Proof.
  intros Hd Hn. unfold matches. rewrite Hd, Hn. split.
  - intros [Hdd Hpp]. injection Hdd as ->. destruct Hpp as [->|<-]; auto.
  - intros [-> [-> | ->]]; auto.
Qed.

Lemma selected_skip dev property root rest :
  ¬ matches dev property root →
  selected dev property (root :: rest) = selected dev property rest.
Proof.
  intros Hno. unfold selected. destruct property as [p|].
  - simpl. rewrite decide_False by done.
    by destruct (list_find (matches dev (Some p)) rest) as [[? ?]|].
  - by rewrite filter_cons_False.
Qed.

Lemma selected_take dev property root rest :
  matches dev property root →
  selected dev property (root :: rest)
  = root :: (if decide (property = None) then selected dev property rest else []).
Proof.
  intros Hyes. unfold selected. destruct property as [p|].
  - simpl. by rewrite decide_True.
  - by rewrite filter_cons_True.
Qed.

(** The loop of [IUReadConfig] replays the selected elements. *)
Lemma read_loop_replay verbose me mem dev property children : ∀ propCache errmsg,
  Forall has_dn children →
  read_loop verbose me mem dev property children propCache errmsg
  = replay verbose me mem (selected dev property children) propCache errmsg.
Proof.
  induction children as [|root rest IH]; intros propCache errmsg Hall.
  { by destruct property. }
  apply Forall_cons in Hall as [Hroot Hall]. cbn [read_loop].
  destruct (crackDN_has_dn root Hroot) as (rdev & rname & -> & Hd & Hn).
  pose proof (matches_iff dev property root rdev rname Hd Hn) as Hm.
  destruct (decide (dev ≠ rdev)) as [Hne|Heq].
  { rewrite selected_skip by (rewrite Hm; tauto). by apply IH. }
  apply dec_stable in Heq.
  destruct (decide (property = Some rname ∨ property = None)) as [Hp|Hp].
  2:{ rewrite selected_skip by (rewrite Hm; tauto). by apply IH. }
  rewrite selected_take by (rewrite Hm; tauto). cbn [replay].
  destruct (r_outcome (dispatch verbose me mem propCache root errmsg)) eqn:Ho; try done.
  destruct (decide (property = None)) as [->|Hsome].
  - rewrite decide_False by (by intros ?). by rewrite IH.
  - rewrite decide_True by done. simpl. by rewrite app_nil_r.
Qed.

Lemma dispatch_returns verbose me mem propCache root msg :
  harmless root →
  ∃ code, r_outcome (dispatch verbose me mem propCache root msg) = Return code.
Proof.
  intros [Hget Hblob]. unfold dispatch. rewrite decide_False by done.
  destruct (bool_decide _); [by eexists|].
  destruct (crackDN root) as [|[dev name]]; [by eexists|].
  destruct (rosc_find name dev propCache); [|by eexists].
  destruct (is_ro name dev propCache); [by eexists|].
  case_decide; [destruct (numbers _ _ _); case_decide; by eexists|].
  case_decide; [destruct (switches _ _ _); case_decide; by eexists|].
  case_decide; [case_decide; by eexists|].
  case_decide as Htag; [|by eexists].
  destruct (blobs (childXMLEle root)) as [[entries|] out] eqn:Hb.
  - case_decide; by eexists.
  - destruct (BlobFacts.blobs_None _ _ Hb) as (ep & Hin & Hdec & Hno).
    rewrite (Hblob Htag ep Hin Hdec) in Hno. discriminate.
Qed.

Lemma replay_outcome verbose me mem elements : ∀ propCache errmsg,
  Forall harmless elements →
  r_outcome (replay verbose me mem elements propCache errmsg) = Return 0.
Proof.
  induction elements as [|root rest IH]; intros propCache errmsg Hall; [done|].
  apply Forall_cons in Hall as [Hroot Hall]. cbn [replay].
  destruct (dispatch_returns verbose me mem propCache root errmsg Hroot) as [code ->].
  by apply IH.
Qed.

(** The loop over a prefix in which it does not stop, then over the rest. *)
Lemma read_loop_prefix verbose me mem dev property pre tail : ∀ propCache errmsg,
  Forall has_dn pre →
  property = None ∨ Forall (λ root, ¬ matches dev property root) pre →
  read_loop verbose me mem dev property (pre ++ tail) propCache errmsg
  = let p := replay verbose me mem (selected dev property pre) propCache errmsg in
    match r_outcome p with
    | Return _ =>
        let t := read_loop verbose me mem dev property tail (r_propCache p) (r_msg p) in
        mkResult (r_outcome t) (r_msg t) (r_propCache t) (r_events p ++ r_events t)
    | _ => p
    end.
Proof.
  induction pre as [|root rest IH]; intros propCache errmsg Hall Hstop.
  { destruct property; simpl;
      by destruct (read_loop verbose me mem dev _ tail propCache errmsg). }
  apply Forall_cons in Hall as [Hroot Hall].
  assert (Hstop' : property = None ∨ Forall (λ root, ¬ matches dev property root) rest).
  { destruct Hstop as [?|Hs]; [by left|]. right. by apply Forall_cons in Hs as [_ ?]. }
  cbn [app read_loop].
  destruct (crackDN_has_dn root Hroot) as (rdev & rname & -> & Hd & Hn).
  pose proof (matches_iff dev property root rdev rname Hd Hn) as Hm.
  destruct (decide (dev ≠ rdev)) as [Hne|Heq].
  { rewrite selected_skip by (rewrite Hm; tauto). by apply IH. }
  apply dec_stable in Heq.
  destruct (decide (property = Some rname ∨ property = None)) as [Hp|Hp].
  2:{ rewrite selected_skip by (rewrite Hm; tauto). by apply IH. }
  assert (property = None) as ->.
  { destruct Hstop as [?|Hs]; [done|]. apply Forall_cons in Hs as [Hno _].
    exfalso. apply Hno. rewrite Hm. tauto. }
  rewrite selected_take by (rewrite Hm; tauto).
  rewrite (decide_True (P := @None string = None)) by done.
  cbn [replay].
  destruct (r_outcome (dispatch verbose me mem propCache root errmsg)) eqn:Ho;
    cbn zeta; rewrite ?Ho; try done.
  rewrite decide_False by (by intros ?). rewrite IH by done. cbn zeta.
  destruct (r_outcome (replay verbose me mem (selected dev None rest) _ _)) eqn:Hr;
    cbn; rewrite ?Hr; cbn; try done.
  all: try by rewrite app_assoc.
  all: f_equal; exact Hr.
Qed.

Lemma on_switch_spec crackISState children : ∀ index i one,
  on_switch crackISState index children = Some (i, one) →
  index ≤ i ∧
  children !! Z.to_nat (i - index) = Some one ∧
  crackISState (pcdataXMLEle one) = Some ISS_ON ∧
  ∀ j other, (j < Z.to_nat (i - index))%nat → children !! j = Some other →
             crackISState (pcdataXMLEle other) ≠ Some ISS_ON.
Proof.
  induction children as [|c rest IH]; intros index i one; simpl; [done|].
  destruct (decide (crackISState (pcdataXMLEle c) = Some ISS_ON)) as [Hon|Hoff].
  - intros [= <- <-]. rewrite Z.sub_diag. simpl. repeat split; try done; try lia.
  - intros Hrest. destruct (IH _ _ _ Hrest) as (Hle & Hi & Hon & Hmin).
    replace (Z.to_nat (i - index)) with (S (Z.to_nat (i - (index + 1)))) by lia.
    repeat split; try done; try lia.
    intros [|j] other Hj; simpl; [by intros [= <-]|].
    apply Hmin. lia.
Qed.

Lemma on_switch_find crackISState children : ∀ index,
  on_switch crackISState index children
  = (λ found, (index + Z.of_nat found.1, found.2))
      <$> list_find (λ one, crackISState (pcdataXMLEle one) = Some ISS_ON) children.
Proof.
  induction children as [|c rest IH]; intros index; [done|]. simpl.
  destruct (decide (crackISState (pcdataXMLEle c) = Some ISS_ON)).
  - simpl. by rewrite Z.add_0_r.
  - rewrite IH. destruct (list_find _ rest) as [[i one]|]; simpl; [|done].
    do 2 f_equal. lia.
Qed.

Lemma config_element_find dev property children :
  Forall has_dn children →
  config_element dev property children
  = Some (snd <$> list_find (matches dev property) children).
Proof.
  induction 1 as [|root rest Hroot _ IH]; [done|]. simpl.
  destruct (crackDN_has_dn root Hroot) as (rdev & rname & -> & Hd & Hn).
  pose proof (matches_iff dev property root rdev rname Hd Hn) as Hm.
  destruct (decide (dev ≠ rdev)) as [Hne|Heq].
  { rewrite decide_False by (rewrite Hm; tauto). rewrite IH.
    by destruct (list_find (matches dev property) rest) as [[? ?]|]. }
  apply dec_stable in Heq.
  destruct (decide (property = Some rname ∨ property = None)) as [Hp|Hp].
  - by rewrite decide_True by (rewrite Hm; tauto).
  - rewrite decide_False by (rewrite Hm; tauto). rewrite IH.
    by destruct (list_find (matches dev property) rest) as [[? ?]|].
Qed.

Lemma member_child_find member children :
  member_child member children
  = snd <$> list_find (λ one, findXMLAttValu one "name" = member) children.
Proof.
  induction children as [|c rest IH]; [done|]. simpl.
  destruct (decide (member = findXMLAttValu c "name")) as [->|Hne].
  - by rewrite decide_True.
  - rewrite decide_False by congruence. rewrite IH.
    by destruct (list_find _ rest) as [[? ?]|].
Qed.

End WithExtern.
End ConfigFacts.

Section ConfigTheorems.
Context `{Extern}.
Import Dispatch Config ConfigSpec.

(** X17. [IUReadConfig] on a parsed file whose elements all carry a device and
    a name. It hands to [dispatch], in file order, every element of the device
    when no property is asked for, and only the first element with that name
    when one is; the other elements are skipped. What [dispatch] returns is
    ignored: as long as no replayed element makes [dispatch] end the process
    (a [getProperties], or a [newBLOBVector] for which [malloc] gives
    nothing), [IUReadConfig] returns 0, even when every element was
    rejected, and [errmsg] then holds the message of the last rejection.
    Unless [silent] is 1, a non-empty file is bracketed by the "Loading" and
    "applied" messages. *)
Theorem IUReadConfig_replays verbose me mem propCache fproot dev property silent errmsg :
  Forall has_dn (childXMLEle fproot) →
  let r := IUReadConfig verbose me mem propCache (Parsed fproot) dev property silent errmsg in
  let played := replay verbose me mem (selected dev property (childXMLEle fproot))
                  propCache errmsg in
  let chatty := bool_decide (0 < length (childXMLEle fproot))%nat
                && bool_decide (silent ≠ 1) in
  r_outcome r = r_outcome played ∧
  r_msg r = r_msg played ∧
  r_propCache r = r_propCache played ∧
  r_events r
  = (if chatty then [EvMessage dev "[INFO] Loading device configuration..."] else [])
    ++ r_events played
    ++ (if chatty && bool_decide (r_outcome played = Return 0)
        then [EvMessage dev "[INFO] Device configuration applied."] else []) ∧
  (Forall harmless (selected dev property (childXMLEle fproot)) →
   r_outcome r = Return 0).
Proof.
  intros Hall r played chatty. subst r played chatty. unfold IUReadConfig.
  rewrite (ConfigFacts.read_loop_replay verbose me mem dev property
             (childXMLEle fproot) propCache errmsg Hall).
  set (played := replay verbose me mem _ propCache errmsg).
  set (chatty := bool_decide _ && bool_decide _).
  assert (Hcases : r_outcome played = Return 0 ∨ r_outcome played ≠ Return 0)
    by (destruct (r_outcome played) as [c| |]; [destruct (decide (c = 0)) as [->|]|..];
        auto; right; congruence).
  assert (Hlast : Forall harmless (selected dev property (childXMLEle fproot)) →
                  r_outcome played = Return 0)
    by apply ConfigFacts.replay_outcome.
  destruct Hcases as [Ho|Ho].
  - rewrite Ho. cbn. rewrite bool_decide_eq_true_2 by done.
    rewrite andb_true_r. done.
  - rewrite (bool_decide_eq_false_2 _ Ho), andb_false_r, app_nil_r.
    destruct (r_outcome played) as [[| |]| |]; try done.
    all: cbn; repeat split; try done; intros Hg; by specialize (Hlast Hg).
Qed.

(** X18. [IUReadConfig] is not all-or-nothing. When the loop comes upon an
    element without a device or a name before it is done (with no property
    asked for, or before the property asked for was met), it returns -1 with
    [crackDN]'s message in [errmsg]; the elements of the device before that
    one have been dispatched all the same, and the "applied" message is not
    sent although the "Loading" one was. *)
Theorem IUReadConfig_malformed_element verbose me mem propCache fproot dev property silent
    errmsg pre bad post :
  childXMLEle fproot = pre ++ bad :: post →
  Forall has_dn pre →
  ¬ has_dn bad →
  property = None ∨ Forall (λ root, ¬ matches dev property root) pre →
  let played := replay verbose me mem (selected dev property pre) propCache errmsg in
  r_outcome played = Return 0 →
  let r := IUReadConfig verbose me mem propCache (Parsed fproot) dev property silent errmsg in
  r_outcome r = Return (-1) ∧
  (r_msg r = crackDN_reason (tagXMLEle bad) "device" ∨
   r_msg r = crackDN_reason (tagXMLEle bad) "name") ∧
  r_propCache r = r_propCache played ∧
  r_events r
  = (if bool_decide (silent ≠ 1)
     then [EvMessage dev "[INFO] Loading device configuration..."] else [])
    ++ r_events played.
Proof.
  intros Hch Hpre Hbad Hstop played Hplayed r. subst r played. unfold IUReadConfig.
  rewrite Hch, (ConfigFacts.read_loop_prefix verbose me mem dev property pre (bad :: post))
    by done.
  cbn zeta. rewrite Hplayed. cbn [read_loop].
  assert (Hwhy : ∃ why, crackDN bad = inl why ∧
                        (why = crackDN_reason (tagXMLEle bad) "device" ∨
                         why = crackDN_reason (tagXMLEle bad) "name")).
  { unfold crackDN. destruct (findXMLAtt bad "device") as [d|] eqn:Hd; [|by eauto].
    destruct (findXMLAtt bad "name") as [n|] eqn:Hn; [|by eauto].
    exfalso. apply Hbad. split; by eexists. }
  destruct Hwhy as (why & -> & Hwhy). cbn.
  rewrite bool_decide_eq_true_2 by (rewrite length_app; simpl; lia).
  rewrite app_nil_r. done.
Qed.

End ConfigTheorems.

Lemma IUReadConfig_replays_witness :
  Forall (@ConfigSpec.has_dn) (childXMLEle Scenario.saved_config) ∧
  @Config.IUReadConfig Sample.extern false "indi_cam" Sample.mem Sample.propCache
    (Config.Parsed Scenario.saved_config) "Cam" None 0 ""
  = Dispatch.mkResult (Dispatch.Return 0) "Property FOCUS is not defined in Cam."
      Sample.propCache
      [EvMessage "Cam" "[INFO] Loading device configuration...";
       EvISNewNumber "Cam" "EXPOSURE" [7%float] ["EXP"];
       EvMessage "Cam" "[INFO] Device configuration applied."].
Proof.
  assert (Hall : Forall (@ConfigSpec.has_dn) (childXMLEle Scenario.saved_config)).
  { repeat constructor; by eexists. }
  split; [exact Hall|].
  pose proof (@IUReadConfig_replays Sample.extern false "indi_cam" Sample.mem
                Sample.propCache Scenario.saved_config "Cam" None 0 "" Hall)
    as (Ho & Hm & Hc & He & _).
  destruct (@Config.IUReadConfig Sample.extern false "indi_cam" Sample.mem Sample.propCache
              (Config.Parsed Scenario.saved_config) "Cam" None 0 "")
    as [o m c e].
  simpl in Ho, Hm, Hc, He. rewrite Ho, Hm, Hc, He. reflexivity.
Defined.

Lemma IUReadConfig_malformed_element_witness :
  @Dispatch.r_outcome
    (@Config.IUReadConfig Sample.extern false "indi_cam" Sample.mem Sample.propCache
       (Config.Parsed Scenario.damaged_config) "Cam" None 0 "")
  = Dispatch.Return (-1) ∧
  Dispatch.r_events
    (@Config.IUReadConfig Sample.extern false "indi_cam" Sample.mem Sample.propCache
       (Config.Parsed Scenario.damaged_config) "Cam" None 0 "")
  = [EvMessage "Cam" "[INFO] Loading device configuration...";
     EvISNewNumber "Cam" "EXPOSURE" [7%float] ["EXP"]].
Proof.
  assert (Hbad : ¬ @ConfigSpec.has_dn
                     (mkXMLEle "newTextVector" [("device", "Mount")] "" [])).
  { intros [_ [n Hn]]. discriminate Hn. }
  destruct (@IUReadConfig_malformed_element Sample.extern false "indi_cam" Sample.mem
              Sample.propCache Scenario.damaged_config "Cam" None 0 ""
              [mkXMLEle "newNumberVector" [("device", "Cam"); ("name", "EXPOSURE")] ""
                 [mkXMLEle "oneNumber" [("name", "EXP")] "7" []]]
              (mkXMLEle "newTextVector" [("device", "Mount")] "" [])
              [mkXMLEle "newNumberVector" [("device", "Cam"); ("name", "FOCUS")] ""
                 [mkXMLEle "oneNumber" [("name", "POSITION")] "100" []]]
              eq_refl
              ltac:(repeat constructor; by eexists)
              Hbad (or_introl eq_refl) eq_refl)
    as (Ho & _ & _ & He).
  split; [exact Ho|exact He].
Defined.

(** ** Reading values back from a configuration file *)

Module LookupFacts.
Section WithExtern.
Context `{Extern}.
Import Dispatch Config ConfigSpec.

(** What the outer loop found is a child of the root that matches. *)
Lemma config_element_found dev property children root :
  config_element dev property children = Some (Some root) →
  root ∈ children ∧ matches dev property root.
Proof.
  induction children as [|c rest IH]; [done|]. simpl.
  destruct (crackDN c) as [why|[rdev rname]] eqn:Hc; [done|].
  apply DispatchMore.crackDN_inr in Hc as [Hd Hn].
  pose proof (ConfigFacts.matches_iff dev property c rdev rname Hd Hn) as Hm.
  destruct (decide (dev ≠ rdev)) as [Hne|Heq].
  { intros Hr. destruct (IH Hr). split; [by right|done]. }
  apply dec_stable in Heq.
  destruct (decide (property = Some rname ∨ property = None)) as [Hp|Hp].
  - intros [= <-]. split; [by left|]. rewrite Hm. tauto.
  - intros Hr. destruct (IH Hr). split; [by right|done].
Qed.

(** An element without device or name stops the outer loop when nothing
    before it matched. *)
Lemma config_element_malformed dev property pre bad post :
  Forall (λ root, ¬ matches dev property root) pre →
  ¬ has_dn bad →
  config_element dev property (pre ++ bad :: post) = None.
Proof.
  intros Hpre Hbad. induction Hpre as [|c rest Hc _ IH]; simpl.
  { by destruct (ConfigFacts.crackDN_not_has_dn bad Hbad) as [why ->]. }
  destruct (crackDN c) as [why|[rdev rname]] eqn:Hcr; [done|].
  apply DispatchMore.crackDN_inr in Hcr as [Hd Hn].
  pose proof (ConfigFacts.matches_iff dev property c rdev rname Hd Hn) as Hm.
  destruct (decide (dev ≠ rdev)) as [Hne|Heq]; [done|].
  apply dec_stable in Heq.
  destruct (decide (property = Some rname ∨ property = None)) as [Hp|Hp]; [|done].
  exfalso. apply Hc. rewrite Hm. tauto.
Qed.

Lemma head_selected dev property children :
  head (selected dev property children)
  = snd <$> list_find (matches dev property) children.
Proof.
  unfold selected. destruct property as [p|].
  { by destruct (list_find (matches dev (Some p)) children) as [[? ?]|]. }
  induction children as [|c rest IH]; [done|]. simpl.
  destruct (decide (matches dev None c)) as [Hc|Hc].
  - by rewrite filter_cons_True.
  - rewrite filter_cons_False by done. rewrite IH.
    by destruct (list_find (matches dev None) rest) as [[? ?]|].
Qed.

Lemma config_element_head dev property children :
  Forall has_dn children →
  config_element dev property children = Some (head (selected dev property children)).
Proof.
  intros Hall. rewrite head_selected. by apply ConfigFacts.config_element_find.
Qed.

End WithExtern.
End LookupFacts.

Section LookupTheorems.
Context `{Extern}.
Variable crackISState : string → option ISState.
Import Dispatch Config ConfigSpec.

(** X19. [IUGetConfigOnSwitch] and [IUGetConfigOnSwitchIndex], asked for the
    same property of a file whose elements all carry a device and a name,
    both look at the first element of that device and name. When one of its
    switches is On, both return 0 with the index of the first that is. When
    the element is there but none of its switches is On, the first returns 0
    with index -1 while the second returns -1. When there is no such element,
    both return -1. *)
Theorem IUGetConfigOnSwitch_and_index fproot property :
  Forall has_dn (childXMLEle fproot) →
  let element := head (selected (svp_device property) (Some (svp_name property))
                         (childXMLEle fproot)) in
  let first_on := λ root,
    list_find (λ one, crackISState (pcdataXMLEle one) = Some ISS_ON) (childXMLEle root) in
  IUGetConfigOnSwitch crackISState (Parsed fproot) property
  = match element with
    | None => (-1, -1)
    | Some root =>
        match first_on root with
        | Some (index, _) => (0, Z.of_nat index)
        | None => (0, -1)
        end
    end ∧
  IUGetConfigOnSwitchIndex crackISState (Parsed fproot) (svp_device property)
    (Some (svp_name property))
  = match element ≫= first_on with
    | Some (index, _) => (0, Some (Z.of_nat index))
    | None => (-1, None)
    end.
Proof.
  intros Hall element first_on. subst element first_on.
  unfold IUGetConfigOnSwitch, IUGetConfigOnSwitchIndex.
  rewrite (LookupFacts.config_element_head _ _ _ Hall).
  destruct (head (selected _ _ (childXMLEle fproot))) as [root|]; [|done].
  cbn [mbind option_bind]. rewrite ConfigFacts.on_switch_find.
  by destruct (list_find _ (childXMLEle root)) as [[index one]|].
Qed.

(** X20. [IUGetConfigOnSwitchName] returns 0 exactly when
    [IUGetConfigOnSwitchIndex] does, and the name it leaves is that of the
    switch at that index: the index is that of the first child whose body
    says On, in a child of the root that belongs to the device and the
    property; the name is copied with [strncpy], cut at [size] characters and
    without a terminating NUL when it has [size] characters or more. *)
Theorem IUGetConfigOnSwitchName_of_index file dev property size :
  let a := IUGetConfigOnSwitchIndex crackISState file dev property in
  let b := IUGetConfigOnSwitchName crackISState file dev property size in
  (a = (-1, None) ∧ b = (-1, None)) ∨
  (∃ fproot root index oneSwitch,
     file = Parsed fproot ∧ root ∈ childXMLEle fproot ∧ matches dev property root ∧
     0 ≤ index ∧
     childXMLEle root !! Z.to_nat index = Some oneSwitch ∧
     crackISState (pcdataXMLEle oneSwitch) = Some ISS_ON ∧
     (∀ j other, (j < Z.to_nat index)%nat → childXMLEle root !! j = Some other →
                 crackISState (pcdataXMLEle other) ≠ Some ISS_ON) ∧
     a = (0, Some index) ∧
     b = (0, Some (String.substring 0 size (findXMLAttValu oneSwitch "name"),
                   bool_decide (String.length (findXMLAttValu oneSwitch "name") < size)%nat))).
Proof.
  unfold IUGetConfigOnSwitchIndex, IUGetConfigOnSwitchName. cbn zeta.
  destruct file as [why|whynot|fproot]; [by auto..|].
  destruct (config_element _ _ _) as [[root|]|] eqn:Hroot; [|by auto..].
  destruct (on_switch crackISState 0 (childXMLEle root)) as [[index one]|] eqn:Hon;
    [|by auto].
  right. exists fproot, root, index, one.
  apply LookupFacts.config_element_found in Hroot as [Hin Hm].
  apply ConfigFacts.on_switch_spec in Hon as (Hle & Hi & Hs & Hmin).
  rewrite Z.sub_0_r in Hi, Hmin. done.
Qed.

(** X21. In a file whose elements all carry a device and a name,
    [IUGetConfigNumber], [IUGetConfigText] and [IUGetConfigSwitch] look at one
    element only, the first that belongs to the device and the property (the
    one [IUReadConfig] would replay first), and in it at the first child
    named [member]: a member saved in a later element of the same name is not
    found. The number is [atof] of the body and the switch the state
    [crackISState] reads, with -1 when it reads none. The text is the body
    through [strncpy] with a count of [len]; with a negative [len] and the
    member found, the call has no defined result. *)
Theorem IUGetConfig_member_lookup fproot dev property member len :
  Forall has_dn (childXMLEle fproot) →
  let one :=
    head (selected dev property (childXMLEle fproot)) ≫= λ root,
    snd <$> list_find (λ one, findXMLAttValu one "name" = member) (childXMLEle root) in
  IUGetConfigNumber (Parsed fproot) dev property member
  = match one with
    | Some oneNumber => (0, Some (atof (pcdataXMLEle oneNumber)))
    | None => (-1, None)
    end ∧
  IUGetConfigText (Parsed fproot) dev property member len
  = match one with
    | Some oneText =>
        if decide (0 ≤ len)
        then Some (0, Some (strncpy (Z.to_nat len) (pcdataXMLEle oneText)))
        else None
    | None => Some (-1, None)
    end ∧
  IUGetConfigSwitch crackISState (Parsed fproot) dev property member
  = match one ≫= λ oneSwitch, crackISState (pcdataXMLEle oneSwitch) with
    | Some value => (0, Some value)
    | None => (-1, None)
    end.
Proof.
  intros Hall one. subst one.
  unfold IUGetConfigNumber, IUGetConfigText, IUGetConfigSwitch.
  rewrite (LookupFacts.config_element_head dev property _ Hall).
  destruct (head (selected dev property (childXMLEle fproot))) as [root|]; [|done].
  cbn [mbind option_bind]. rewrite ConfigFacts.member_child_find.
  destruct (list_find _ (childXMLEle root)) as [[i one]|]; [|done].
  cbn [fmap option_fmap option_map snd mbind option_bind].
  split; [done|]. split; [done|]. by destruct (crackISState (pcdataXMLEle one)).
Qed.

(** X22. An element without a device or a name makes every IUGetConfig
    function return -1 when it comes before the first element of the device
    and the property, whatever the rest of the file holds. *)
Theorem IUGetConfig_malformed_element fproot dev property member len size svp pre bad post :
  childXMLEle fproot = pre ++ bad :: post →
  Forall (λ root, ¬ matches dev property root) pre →
  ¬ has_dn bad →
  svp_device svp = dev → Some (svp_name svp) = property →
  IUGetConfigNumber (Parsed fproot) dev property member = (-1, None) ∧
  IUGetConfigText (Parsed fproot) dev property member len = Some (-1, None) ∧
  IUGetConfigSwitch crackISState (Parsed fproot) dev property member = (-1, None) ∧
  IUGetConfigOnSwitchIndex crackISState (Parsed fproot) dev property = (-1, None) ∧
  IUGetConfigOnSwitchName crackISState (Parsed fproot) dev property size = (-1, None) ∧
  IUGetConfigOnSwitch crackISState (Parsed fproot) svp = (-1, -1).
Proof.
  intros Hch Hpre Hbad Hdev Hname.
  unfold IUGetConfigNumber, IUGetConfigText, IUGetConfigSwitch, IUGetConfigOnSwitchIndex,
    IUGetConfigOnSwitchName, IUGetConfigOnSwitch.
  rewrite Hdev, Hname, Hch,
    (LookupFacts.config_element_malformed dev property pre bad post Hpre Hbad).
  done.
Qed.

End LookupTheorems.

Lemma IUGetConfigOnSwitch_and_index_witness :
  Forall (@ConfigSpec.has_dn) (childXMLEle Scenario.shadowed_config) ∧
  (* nothing On in COOLER: the two functions disagree on the return code *)
  @Config.IUGetConfigOnSwitch Sample.extern Scenario.crackISState
    (Config.Parsed Scenario.shadowed_config)
    (mkSVP "Cam" "COOLER" "Cooler" IP_RW ISR_1OFMANY IPS_IDLE [])
  = (0, -1) ∧
  @Config.IUGetConfigOnSwitchIndex Sample.extern Scenario.crackISState
    (Config.Parsed Scenario.shadowed_config) "Cam" (Some "COOLER")
  = (-1, None) ∧
  (* the second switch of BINNING is On *)
  @Config.IUGetConfigOnSwitch Sample.extern Scenario.crackISState
    (Config.Parsed Scenario.shadowed_config)
    (mkSVP "Cam" "BINNING" "Binning" IP_RW ISR_1OFMANY IPS_IDLE [])
  = (0, 1) ∧
  @Config.IUGetConfigOnSwitchIndex Sample.extern Scenario.crackISState
    (Config.Parsed Scenario.shadowed_config) "Cam" (Some "BINNING")
  = (0, Some 1).
Proof.
  assert (Hall : Forall (@ConfigSpec.has_dn) (childXMLEle Scenario.shadowed_config)).
  { repeat constructor; by eexists. }
  split; [exact Hall|].
  destruct (@IUGetConfigOnSwitch_and_index Sample.extern Scenario.crackISState
              Scenario.shadowed_config
              (mkSVP "Cam" "COOLER" "Cooler" IP_RW ISR_1OFMANY IPS_IDLE []) Hall)
    as [Hcooler Hcooler'].
  destruct (@IUGetConfigOnSwitch_and_index Sample.extern Scenario.crackISState
              Scenario.shadowed_config
              (mkSVP "Cam" "BINNING" "Binning" IP_RW ISR_1OFMANY IPS_IDLE []) Hall)
    as [Hbin Hbin'].
  split; [exact Hcooler|]. split; [exact Hcooler'|]. split; [exact Hbin|exact Hbin'].
Defined.

Lemma IUGetConfig_member_lookup_witness :
  Forall (@ConfigSpec.has_dn) (childXMLEle Scenario.shadowed_config) ∧
  @Config.IUGetConfigNumber Sample.extern (Config.Parsed Scenario.shadowed_config)
    "Cam" (Some "EXPOSURE") "EXP" = (-1, None) ∧
  @Config.IUGetConfigNumber Sample.extern (Config.Parsed Scenario.shadowed_config)
    "Cam" (Some "EXPOSURE") "GAIN" = (0, Some 2%float) ∧
  @Config.IUGetConfigText Sample.extern (Config.Parsed Scenario.shadowed_config)
    "Cam" (Some "EXPOSURE") "GAIN" 8 = Some (0, Some ("2", true)) ∧
  @Config.IUGetConfigText Sample.extern (Config.Parsed Scenario.shadowed_config)
    "Cam" (Some "EXPOSURE") "GAIN" (-1) = None.
Proof.
  assert (Hall : Forall (@ConfigSpec.has_dn) (childXMLEle Scenario.shadowed_config)).
  { repeat constructor; by eexists. }
  split; [exact Hall|]. split; [|split; [|split]].
  - exact (proj1 (@IUGetConfig_member_lookup Sample.extern Scenario.crackISState
                    Scenario.shadowed_config "Cam" (Some "EXPOSURE") "EXP" 0 Hall)).
  - exact (proj1 (@IUGetConfig_member_lookup Sample.extern Scenario.crackISState
                    Scenario.shadowed_config "Cam" (Some "EXPOSURE") "GAIN" 0 Hall)).
  - exact (proj1 (proj2 (@IUGetConfig_member_lookup Sample.extern Scenario.crackISState
                           Scenario.shadowed_config "Cam" (Some "EXPOSURE") "GAIN" 8 Hall))).
  - exact (proj1 (proj2 (@IUGetConfig_member_lookup Sample.extern Scenario.crackISState
                           Scenario.shadowed_config "Cam" (Some "EXPOSURE") "GAIN" (-1) Hall))).
Defined.

Lemma IUGetConfig_malformed_element_witness :
  @Config.IUGetConfigNumber Sample.extern (Config.Parsed Scenario.damaged_config)
    "Cam" (Some "FOCUS") "POSITION" = (-1, None).
Proof.
  refine (proj1 (@IUGetConfig_malformed_element Sample.extern Scenario.crackISState
                   Scenario.damaged_config "Cam" (Some "FOCUS") "POSITION" 0 0%nat
                   (mkSVP "Cam" "FOCUS" "" IP_RW ISR_1OFMANY IPS_IDLE [])
                   [mkXMLEle "newNumberVector" [("device", "Cam"); ("name", "EXPOSURE")] ""
                      [mkXMLEle "oneNumber" [("name", "EXP")] "7" []]]
                   (mkXMLEle "newTextVector" [("device", "Mount")] "" [])
                   [mkXMLEle "newNumberVector" [("device", "Cam"); ("name", "FOCUS")] ""
                      [mkXMLEle "oneNumber" [("name", "POSITION")] "100" []]]
                   eq_refl _ _ eq_refl eq_refl)).
  - repeat constructor. intros [_ [Hp|Hp]]; discriminate Hp.
  - intros [_ [n Hn]]. discriminate Hn.
Defined.
